(** * Spectre: the hidden-transfer escrow ledger

    A shallow embedding of [contracts/InvisibleTransfer.sol] together with
    the ERC20 ledger it is exercised against in
    [contracts/test/InvisibleTransfer.t.sol] (MockERC20), and of the
    token wrapper and the swap hook of [contracts/UniswapV4Hook.sol].

    The ledger is modelled twice.  In the first model every token is a
    MockERC20 ledger, which calls nobody ([call], [exec], [reachable]).
    In the second ([Callback]) the code at a token address the world has
    no ledger for is arbitrary and may call the contract back before it
    returns; the first model is the second with tokens that make no
    calls ([CallbackFacts.quiet_call]).

    Conventions.
    - [uint256], [address] and [bytes32] values are binary naturals [N];
      Solidity 0.8 arithmetic is checked, so every [+], [-], [*] and [++]
      of the source is a [checked_*] operation that panics (code 0x11)
      instead of wrapping.
    - A Solidity [mapping] is total; it is a [gmap] read through a default
      (the all-zero value).
    - A transaction either returns the new world or reverts; a reverted
      transaction leaves the world as it was ([exec]).
    - [msg.value] of the payable [publishHiddenTransfer] is never read by
      the contract and is not part of the model. *)

From Stdlib Require Import NArith Lia String.
From Stdlib Require Strings.Byte.
From stdpp Require Import gmap strings list.

Local Open Scope N_scope.

(** ** Solidity basics *)

Abbreviation address := N (only parsing).
Abbreviation bytes32 := N (only parsing).
Abbreviation uint256 := N (only parsing).

Definition MAX_UINT256 : N := 2 ^ 256 - 1.

(** How a call can fail: [require(cond, msg)], an arithmetic panic, or a
    high-level call to an address that holds no code. *)
Inductive revert : Type :=
| Reason (msg : string)
| Panic (code : N)
| NoCode.

Inductive result (A : Type) : Type :=
| Ok (a : A)
| Revert (e : revert).
Arguments Ok {A} a.
Arguments Revert {A} e.

Definition bind {A B : Type} (m : result A) (k : A -> result B) : result B :=
  match m with
  | Ok a => k a
  | Revert e => Revert e
  end.

Notation "'let!' x ':=' m 'in' k" := (bind m (fun x => k))
  (at level 10, x pattern, m at level 100, k at level 200, only parsing).
Notation "m ';;;' k" := (bind m (fun _ => k))
  (at level 100, k at level 200, right associativity, only parsing).

Definition require (cond : bool) (msg : string) : result unit :=
  if cond then Ok tt else Revert (Reason msg).

Definition ARITHMETIC : N := 17. (* Panic(0x11) *)

Definition checked_add (a b : uint256) : result uint256 :=
  if a + b <=? MAX_UINT256 then Ok (a + b) else Revert (Panic ARITHMETIC).

Definition checked_sub (a b : uint256) : result uint256 :=
  if b <=? a then Ok (a - b) else Revert (Panic ARITHMETIC).

Definition checked_mul (a b : uint256) : result uint256 :=
  if a * b <=? MAX_UINT256 then Ok (a * b) else Revert (Panic ARITHMETIC).

(** ** The ERC20 ledger of the test suite (MockERC20) *)

Module MockERC20.

Record state : Type := {
  balances : gmap address uint256;
  allowances : gmap (address * address) uint256
}.

Definition empty : state := {| balances := ∅; allowances := ∅ |}.

(** [balanceOf[a]] *)
Definition balanceOf (t : state) (a : address) : uint256 :=
  default 0 (balances t !! a).

(** [allowance[from][spender]] *)
Definition allowance (t : state) (from spender : address) : uint256 :=
  default 0 (allowances t !! (from, spender)).

Definition set_balance (a : address) (v : uint256) (t : state) : state :=
  {| balances := <[a := v]> (balances t); allowances := allowances t |}.

Definition set_allowance (from spender : address) (v : uint256) (t : state) : state :=
  {| balances := balances t; allowances := <[(from, spender) := v]> (allowances t) |}.

Definition mint (to : address) (amount : uint256) (t : state) : result state :=
  let! b := checked_add (balanceOf t to) amount in
  Ok (set_balance to b t).

Definition transfer (msg_sender to : address) (amount : uint256) (t : state)
  : result (bool * state) :=
  require (amount <=? balanceOf t msg_sender) "Insufficient balance" ;;;
  let! b1 := checked_sub (balanceOf t msg_sender) amount in
  let t1 := set_balance msg_sender b1 t in
  let! b2 := checked_add (balanceOf t1 to) amount in
  let t2 := set_balance to b2 t1 in
  Ok (true, t2).

Definition transferFrom (msg_sender from to : address) (amount : uint256) (t : state)
  : result (bool * state) :=
  require (amount <=? balanceOf t from) "Insufficient balance" ;;;
  require (amount <=? allowance t from msg_sender) "Insufficient allowance" ;;;
  let! b1 := checked_sub (balanceOf t from) amount in
  let t1 := set_balance from b1 t in
  let! b2 := checked_add (balanceOf t1 to) amount in
  let t2 := set_balance to b2 t1 in
  let! a := checked_sub (allowance t2 from msg_sender) amount in
  let t3 := set_allowance from msg_sender a t2 in
  Ok (true, t3).

Definition approve (msg_sender spender : address) (amount : uint256) (t : state)
  : result (bool * state) :=
  Ok (true, set_allowance msg_sender spender amount t).

End MockERC20.

(** ** Contract storage *)

Record HiddenTransfer : Type := {
  sender : address;
  token : address;
  amount : uint256;
  timestamp : uint256;
  claimed : bool
}.

(** The value a [mapping(bytes32 => HiddenTransfer)] holds at a key that
    was never written. *)
Definition no_transfer : HiddenTransfer :=
  {| sender := 0; token := 0; amount := 0; timestamp := 0; claimed := false |}.

Inductive Event : Type :=
| TransferPublished (hash : bytes32) (from : address) (tok : address) (amt : uint256)
| TransferClaimed (hash : bytes32) (recipient : address) (amt : uint256)
| TransferCancelled (hash : bytes32) (from : address)
| FeeUpdated (newFee : uint256).

Record InvisibleTransfer : Type := {
  hiddenTransfers : gmap bytes32 HiddenTransfer;
  userSentTransfers : gmap address (list bytes32);
  userReceivedTransfers : gmap address (list bytes32);
  owner : address;
  totalTransfers : uint256;
  totalClaimed : uint256;
  platformFee : uint256;
  feeCollector : address
}.

(** The chain as far as the contract can see it: its own address and
    storage, the token contracts deployed (an address outside the domain
    of [tokens] holds no token code), and the event log. *)
Record World : Type := {
  this : address;
  storage : InvisibleTransfer;
  tokens : gmap address MockERC20.state;
  logs : list Event
}.

(** [msg.sender] and [block.timestamp] of a transaction. *)
Record Env : Type := {
  msg_sender : address;
  block_timestamp : uint256
}.

Definition SEVEN_DAYS : uint256 := 7 * 24 * 60 * 60.

(** [hiddenTransfers[_hash]] *)
Definition hiddenTransfer (w : World) (h : bytes32) : HiddenTransfer :=
  default no_transfer (hiddenTransfers (storage w) !! h).

Definition sentTransfers (w : World) (user : address) : list bytes32 :=
  default [] (userSentTransfers (storage w) !! user).

Definition receivedTransfers (w : World) (user : address) : list bytes32 :=
  default [] (userReceivedTransfers (storage w) !! user).

(** [IERC20(tok).balanceOf(a)], zero where no token is deployed. *)
Definition tokenBalance (w : World) (tok a : address) : uint256 :=
  match tokens w !! tok with
  | Some t => MockERC20.balanceOf t a
  | None => 0
  end.

Definition with_storage (f : InvisibleTransfer -> InvisibleTransfer) (w : World) : World :=
  {| this := this w; storage := f (storage w); tokens := tokens w; logs := logs w |}.

Definition set_hiddenTransfer (h : bytes32) (r : HiddenTransfer) (c : InvisibleTransfer)
  : InvisibleTransfer :=
  {| hiddenTransfers := <[h := r]> (hiddenTransfers c);
     userSentTransfers := userSentTransfers c;
     userReceivedTransfers := userReceivedTransfers c;
     owner := owner c;
     totalTransfers := totalTransfers c;
     totalClaimed := totalClaimed c;
     platformFee := platformFee c;
     feeCollector := feeCollector c |}.

Definition push_sent (user : address) (h : bytes32) (c : InvisibleTransfer)
  : InvisibleTransfer :=
  {| hiddenTransfers := hiddenTransfers c;
     userSentTransfers :=
       <[user := default [] (userSentTransfers c !! user) ++ [h]]> (userSentTransfers c);
     userReceivedTransfers := userReceivedTransfers c;
     owner := owner c;
     totalTransfers := totalTransfers c;
     totalClaimed := totalClaimed c;
     platformFee := platformFee c;
     feeCollector := feeCollector c |}.

Definition push_received (user : address) (h : bytes32) (c : InvisibleTransfer)
  : InvisibleTransfer :=
  {| hiddenTransfers := hiddenTransfers c;
     userSentTransfers := userSentTransfers c;
     userReceivedTransfers :=
       <[user := default [] (userReceivedTransfers c !! user) ++ [h]]>
         (userReceivedTransfers c);
     owner := owner c;
     totalTransfers := totalTransfers c;
     totalClaimed := totalClaimed c;
     platformFee := platformFee c;
     feeCollector := feeCollector c |}.

Definition set_totalTransfers (n : uint256) (c : InvisibleTransfer) : InvisibleTransfer :=
  {| hiddenTransfers := hiddenTransfers c;
     userSentTransfers := userSentTransfers c;
     userReceivedTransfers := userReceivedTransfers c;
     owner := owner c;
     totalTransfers := n;
     totalClaimed := totalClaimed c;
     platformFee := platformFee c;
     feeCollector := feeCollector c |}.

Definition set_totalClaimed (n : uint256) (c : InvisibleTransfer) : InvisibleTransfer :=
  {| hiddenTransfers := hiddenTransfers c;
     userSentTransfers := userSentTransfers c;
     userReceivedTransfers := userReceivedTransfers c;
     owner := owner c;
     totalTransfers := totalTransfers c;
     totalClaimed := n;
     platformFee := platformFee c;
     feeCollector := feeCollector c |}.

Definition set_platformFee (n : uint256) (c : InvisibleTransfer) : InvisibleTransfer :=
  {| hiddenTransfers := hiddenTransfers c;
     userSentTransfers := userSentTransfers c;
     userReceivedTransfers := userReceivedTransfers c;
     owner := owner c;
     totalTransfers := totalTransfers c;
     totalClaimed := totalClaimed c;
     platformFee := n;
     feeCollector := feeCollector c |}.

Definition set_feeCollector (a : address) (c : InvisibleTransfer) : InvisibleTransfer :=
  {| hiddenTransfers := hiddenTransfers c;
     userSentTransfers := userSentTransfers c;
     userReceivedTransfers := userReceivedTransfers c;
     owner := owner c;
     totalTransfers := totalTransfers c;
     totalClaimed := totalClaimed c;
     platformFee := platformFee c;
     feeCollector := a |}.

Definition emit (ev : Event) (w : World) : World :=
  {| this := this w; storage := storage w; tokens := tokens w; logs := logs w ++ [ev] |}.

Definition mark_claimed (r : HiddenTransfer) : HiddenTransfer :=
  {| sender := sender r; token := token r; amount := amount r;
     timestamp := timestamp r; claimed := true |}.

(** The world with the state of the token at [tok] replaced. *)
Definition with_token (tok : address) (t : MockERC20.state) (w : World) : World :=
  {| this := this w; storage := storage w;
     tokens := <[tok := t]> (tokens w); logs := logs w |}.

(** A call of the contract into the token at [tok], where every token
    is a MockERC20 ledger: [f] is the ledger function with its
    [msg.sender] (the contract) already supplied.  The token's own revert
    bubbles up; [require(ret, msg)] guards the boolean it returns.  A
    ledger calls nobody; the calls of a token that does are those of
    [Callback.token_call]. *)
Definition token_call (tok : address)
    (f : MockERC20.state -> result (bool * MockERC20.state))
    (msg : string) (w : World) : result World :=
  match tokens w !! tok with
  | None => Revert NoCode
  | Some t =>
      let! r := f t in
      require (fst r) msg ;;;
      Ok (with_token tok (snd r) w)
  end.

(** ** The contract's functions *)

Definition constructor (self : address) (e : Env) (_platformFee : uint256)
    (toks : gmap address MockERC20.state) : World :=
  {| this := self;
     storage := {| hiddenTransfers := ∅;
                   userSentTransfers := ∅;
                   userReceivedTransfers := ∅;
                   owner := msg_sender e;
                   totalTransfers := 0;
                   totalClaimed := 0;
                   platformFee := _platformFee;
                   feeCollector := msg_sender e |};
     tokens := toks;
     logs := [] |}.

Definition onlyOwner (e : Env) (w : World) : result unit :=
  require (msg_sender e =? owner (storage w)) "Not owner".

Definition publishHiddenTransfer (e : Env) (_hash : bytes32) (_token : address)
    (_amount : uint256) (w : World) : result World :=
  require (0 <? _amount) "Amount must be positive" ;;;
  require (timestamp (hiddenTransfer w _hash) =? 0) "Hash already exists" ;;;
  require (negb (_token =? 0)) "Invalid token address" ;;;
  let! product := checked_mul _amount (platformFee (storage w)) in
  let fee := product / 10000 in
  let! amountAfterFee := checked_sub _amount fee in
  let! w1 := token_call _token
               (MockERC20.transferFrom (this w) (msg_sender e) (this w) _amount)
               "Token transfer failed" w in
  let! w2 := (if 0 <? fee
              then token_call _token
                     (MockERC20.transfer (this w1) (feeCollector (storage w1)) fee)
                     "Fee transfer failed" w1
              else Ok w1) in
  let w3 := with_storage
              (set_hiddenTransfer _hash
                 {| sender := msg_sender e;
                    token := _token;
                    amount := amountAfterFee;
                    timestamp := block_timestamp e;
                    claimed := false |}) w2 in
  let w4 := with_storage (push_sent (msg_sender e) _hash) w3 in
  let! n := checked_add (totalTransfers (storage w4)) 1 in
  let w5 := with_storage (set_totalTransfers n) w4 in
  Ok (emit (TransferPublished _hash (msg_sender e) _token amountAfterFee) w5).

Definition claimHiddenTransfer (e : Env) (_hash : bytes32) (w : World) : result World :=
  let transfer := hiddenTransfer w _hash in
  require (0 <? timestamp transfer) "Transfer does not exist" ;;;
  require (negb (claimed transfer)) "Already claimed" ;;;
  require (0 <? amount transfer) "No amount to claim" ;;;
  let w1 := with_storage (set_hiddenTransfer _hash (mark_claimed transfer)) w in
  let! n := checked_add (totalClaimed (storage w1)) 1 in
  let w2 := with_storage (set_totalClaimed n) w1 in
  let w3 := with_storage (push_received (msg_sender e) _hash) w2 in
  let! w4 := token_call (token transfer)
               (MockERC20.transfer (this w3) (msg_sender e) (amount transfer))
               "Claim transfer failed" w3 in
  Ok (emit (TransferClaimed _hash (msg_sender e) (amount transfer)) w4).

Definition cancelHiddenTransfer (e : Env) (_hash : bytes32) (w : World) : result World :=
  let transfer := hiddenTransfer w _hash in
  require (sender transfer =? msg_sender e) "Not the sender" ;;;
  require (negb (claimed transfer)) "Already claimed" ;;;
  let! deadline := checked_add (timestamp transfer) SEVEN_DAYS in
  require (deadline <=? block_timestamp e) "Too early to cancel" ;;;
  let amountToReturn := amount transfer in
  let tokenToReturn := token transfer in
  let w1 := with_storage (set_hiddenTransfer _hash (mark_claimed transfer)) w in
  let! w2 := token_call tokenToReturn
               (MockERC20.transfer (this w1) (msg_sender e) amountToReturn)
               "Cancel transfer failed" w1 in
  Ok (emit (TransferCancelled _hash (msg_sender e)) w2).

Definition getHiddenTransfer (w : World) (_hash : bytes32)
  : address * address * uint256 * uint256 * bool :=
  let transfer := hiddenTransfer w _hash in
  (sender transfer, token transfer, amount transfer, timestamp transfer, claimed transfer).

Definition getUserSentTransfers (w : World) (user : address) : list bytes32 :=
  sentTransfers w user.

Definition getUserReceivedTransfers (w : World) (user : address) : list bytes32 :=
  receivedTransfers w user.

Definition updatePlatformFee (e : Env) (_newFee : uint256) (w : World) : result World :=
  onlyOwner e w ;;;
  require (_newFee <=? 500) "Fee too high" ;;;
  Ok (emit (FeeUpdated _newFee) (with_storage (set_platformFee _newFee) w)).

Definition updateFeeCollector (e : Env) (_newCollector : address) (w : World)
  : result World :=
  onlyOwner e w ;;;
  require (negb (_newCollector =? 0)) "Invalid address" ;;;
  Ok (with_storage (set_feeCollector _newCollector) w).

Definition emergencyWithdraw (e : Env) (_token : address) (_amount : uint256) (w : World)
  : result World :=
  onlyOwner e w ;;;
  token_call _token
    (MockERC20.transfer (this w) (owner (storage w)) _amount)
    "Emergency withdrawal failed" w.

Definition getStats (w : World) : result (uint256 * uint256 * uint256) :=
  let! pending := checked_sub (totalTransfers (storage w)) (totalClaimed (storage w)) in
  Ok (totalTransfers (storage w), totalClaimed (storage w), pending).

(** ** Transactions and reachable worlds *)

(** The transactions that can change the world: the contract's six
    state-changing functions, and direct calls of any account to a token. *)
Inductive Call : Type :=
| Publish (_hash : bytes32) (_token : address) (_amount : uint256)
| Claim (_hash : bytes32)
| Cancel (_hash : bytes32)
| SetFee (_newFee : uint256)
| SetCollector (_newCollector : address)
| Withdraw (_token : address) (_amount : uint256)
| TokenMint (tok to : address) (amt : uint256)
| TokenTransfer (tok to : address) (amt : uint256)
| TokenTransferFrom (tok from to : address) (amt : uint256)
| TokenApprove (tok spender : address) (amt : uint256).

(** A transaction an account sends to a token directly. *)
Definition token_tx (tok : address) (f : MockERC20.state -> result MockERC20.state)
    (w : World) : result World :=
  match tokens w !! tok with
  | None => Revert NoCode
  | Some t =>
      let! t' := f t in
      Ok (with_token tok t' w)
  end.

Definition returned {A : Type} (m : result (bool * A)) : result A :=
  let! r := m in Ok (snd r).

Definition call (e : Env) (c : Call) (w : World) : result World :=
  match c with
  | Publish h tok amt => publishHiddenTransfer e h tok amt w
  | Claim h => claimHiddenTransfer e h w
  | Cancel h => cancelHiddenTransfer e h w
  | SetFee n => updatePlatformFee e n w
  | SetCollector a => updateFeeCollector e a w
  | Withdraw tok amt => emergencyWithdraw e tok amt w
  | TokenMint tok to amt => token_tx tok (MockERC20.mint to amt) w
  | TokenTransfer tok to amt =>
      token_tx tok (fun t => returned (MockERC20.transfer (msg_sender e) to amt t)) w
  | TokenTransferFrom tok from to amt =>
      token_tx tok (fun t => returned (MockERC20.transferFrom (msg_sender e) from to amt t)) w
  | TokenApprove tok spender amt =>
      token_tx tok (fun t => returned (MockERC20.approve (msg_sender e) spender amt t)) w
  end.

(** The world after a transaction: a revert rolls every change back. *)
Definition exec (e : Env) (c : Call) (w : World) : World :=
  match call e c w with
  | Ok w' => w'
  | Revert _ => w
  end.

Fixpoint run (txs : list (Env * Call)) (w : World) : World :=
  match txs with
  | [] => w
  | (e, c) :: rest => run rest (exec e c w)
  end.

(** What the chain guarantees of a transaction the contract receives: the
    sender is an account other than the zero address and other than the
    contract itself (which never calls out except from its own functions),
    and the block timestamp is a positive 64-bit Unix time. *)
Definition env_okb (self : address) (e : Env) : bool :=
  negb (msg_sender e =? 0) && negb (msg_sender e =? self)
  && (0 <? block_timestamp e) && (block_timestamp e <? 2 ^ 64).

Definition env_ok (self : address) (e : Env) : Prop := env_okb self e = true.

Inductive reachable : World -> Prop :=
| reachable_deploy (self : address) (e : Env) (_platformFee : uint256)
    (toks : gmap address MockERC20.state) :
    env_ok self e ->
    reachable (constructor self e _platformFee toks)
| reachable_step (w : World) (e : Env) (c : Call) :
    reachable w ->
    env_ok (this w) e ->
    reachable (exec e c w).

(** ** Identifier states of the escrow state machine *)

(** Escrowed: a record exists and is not claimed. *)
Definition escrowed (w : World) (h : bytes32) : Prop :=
  timestamp (hiddenTransfer w h) <> 0 /\ claimed (hiddenTransfer w h) = false.

(** ** A test-suite scenario *)

Module Scenario.
Definition contract_addr : address := 100.
Definition deployer : address := 10.
Definition alice : address := 1.
Definition bob : address := 2.
Definition tok : address := 7.
Definition testHash : bytes32 := 12345.
Definition ether : uint256 := 10 ^ 18.
Definition at_ (who : address) (time : uint256) : Env :=
  {| msg_sender := who; block_timestamp := time |}.

(** [setUp]: deploy with a 0.5% fee, deploy the token, mint 1000 ether
    to Alice, Alice approves the contract. *)
Definition setUp : World :=
  run [ (at_ deployer 1000, TokenMint tok alice (1000 * ether));
        (at_ alice 1000, TokenApprove tok contract_addr MAX_UINT256) ]
      (constructor contract_addr (at_ deployer 1000) 50 {[ tok := MockERC20.empty ]}).

Definition published : World :=
  exec (at_ alice 2000) (Publish testHash tok (100 * ether)) setUp.
End Scenario.

(** ** Further scenario worlds *)

(** The deployer, who is the fee collector, publishes a transfer of its own. *)
Module OwnerPublishes.
Import Scenario.

Definition funded : World :=
  run [ (at_ deployer 1000, TokenMint tok deployer (1000 * ether));
        (at_ deployer 1000, TokenApprove tok contract_addr MAX_UINT256) ]
      (constructor contract_addr (at_ deployer 1000) 50 {[ tok := MockERC20.empty ]}).

Definition published : World :=
  exec (at_ deployer 2000) (Publish testHash tok (100 * ether)) funded.
End OwnerPublishes.

(** The owner's emergency withdrawal takes the escrowed tokens out of the
    contract's custody while the record stays escrowed. *)
Module Drained.
Import Scenario.

Definition escrow : uint256 := 100 * ether - 100 * ether * 50 / 10000.

Definition drained : World :=
  exec (at_ deployer 2500) (Withdraw tok escrow) published.
End Drained.

(** A record of a 100% fee: the whole amount goes to the collector and the
    record is created with amount zero. *)
Module ZeroEscrow.
Import Scenario.

Definition published : World :=
  run [ (at_ deployer 1000, TokenMint tok alice (1000 * ether));
        (at_ alice 1000, TokenApprove tok contract_addr MAX_UINT256);
        (at_ alice 2000, Publish testHash tok (100 * ether)) ]
      (constructor contract_addr (at_ deployer 1000) 10000 {[ tok := MockERC20.empty ]}).
End ZeroEscrow.

(** * Auxiliary definitions *)

(** The fee [publishHiddenTransfer] takes and the record it writes. *)
Definition fee_of (w : World) (_amount : uint256) : uint256 :=
  _amount * platformFee (storage w) / 10000.

Definition new_record (e : Env) (w : World) (_token : address) (_amount : uint256)
  : HiddenTransfer :=
  {| sender := msg_sender e;
     token := _token;
     amount := _amount - fee_of w _amount;
     timestamp := block_timestamp e;
     claimed := false |}.

(** The world after the contract has paid [amt] of the record's token out
    of its custody to [to]. *)
Definition claimed_world (e : Env) (h : bytes32) (t' : MockERC20.state) (w : World)
  : World :=
  emit (TransferClaimed h (msg_sender e) (amount (hiddenTransfer w h)))
    (with_storage
       (fun c => push_received (msg_sender e) h
                   (set_totalClaimed (totalClaimed c + 1)
                      (set_hiddenTransfer h (mark_claimed (hiddenTransfer w h)) c)))
       (with_token (token (hiddenTransfer w h)) t' w)).

Definition cancelled_world (e : Env) (h : bytes32) (t' : MockERC20.state) (w : World)
  : World :=
  emit (TransferCancelled h (msg_sender e))
    (with_storage (set_hiddenTransfer h (mark_claimed (hiddenTransfer w h)))
       (with_token (token (hiddenTransfer w h)) t' w)).

(** The storage after a successful transaction, by kind of transaction. *)
Definition storage_step (e : Env) (c : Call) (w w' : World) : Prop :=
  let s := storage w in
  let s' := storage w' in
  match c with
  | Publish h tok amt =>
      timestamp (hiddenTransfer w h) = 0 /\
      0 < amt /\ tok <> 0 /\ fee_of w amt <= amt /\
      totalTransfers s + 1 <= MAX_UINT256 /\
      s' = set_totalTransfers (totalTransfers s + 1)
             (push_sent (msg_sender e) h
                (set_hiddenTransfer h (new_record e w tok amt) s))
  | Claim h =>
      0 < timestamp (hiddenTransfer w h) /\
      claimed (hiddenTransfer w h) = false /\
      0 < amount (hiddenTransfer w h) /\
      totalClaimed s + 1 <= MAX_UINT256 /\
      s' = push_received (msg_sender e) h
             (set_totalClaimed (totalClaimed s + 1)
                (set_hiddenTransfer h (mark_claimed (hiddenTransfer w h)) s))
  | Cancel h =>
      sender (hiddenTransfer w h) = msg_sender e /\
      claimed (hiddenTransfer w h) = false /\
      timestamp (hiddenTransfer w h) + SEVEN_DAYS <= block_timestamp e /\
      s' = set_hiddenTransfer h (mark_claimed (hiddenTransfer w h)) s
  | SetFee n =>
      msg_sender e = owner s /\ n <= 500 /\ s' = set_platformFee n s
  | SetCollector a =>
      msg_sender e = owner s /\ a <> 0 /\ s' = set_feeCollector a s
  | Withdraw _ _ => msg_sender e = owner s /\ s' = s
  | TokenMint _ _ _ | TokenTransfer _ _ _ | TokenTransferFrom _ _ _ _
  | TokenApprove _ _ _ => s' = s
  end.

(** Every record the contract has written carries a positive 64-bit
    timestamp, the address of the account that published it, and a
    deployed token.  So the [timestamp == 0] sentinel tells exactly the
    records that were never written. *)
Definition record_ok (w : World) (r : HiddenTransfer) : Prop :=
  timestamp r <> 0 /\ timestamp r < 2 ^ 64 /\
  sender r <> 0 /\ sender r <> this w /\
  token r <> 0 /\ is_Some (tokens w !! token r).

Definition wf (w : World) : Prop :=
  forall h r, hiddenTransfers (storage w) !! h = Some r -> record_ok w r.

(** The records whose [claimed] flag is still false. *)
Definition unclaimed (w : World) : gmap bytes32 HiddenTransfer :=
  filter (fun kr => claimed (snd kr) = false) (hiddenTransfers (storage w)).

(** [totalTransfers] counts every record and never overflows;
    [totalClaimed] counts only records settled through a claim, so the
    records still unclaimed fit in the difference. *)
Definition counted (w : World) : Prop :=
  totalTransfers (storage w) <= MAX_UINT256 /\
  totalClaimed (storage w) + N.of_nat (size (unclaimed w)) <= totalTransfers (storage w).

(** The four fields fixed when a record is created. *)
Definition same_creation (r r' : HiddenTransfer) : Prop :=
  sender r' = sender r /\ token r' = token r /\
  amount r' = amount r /\ timestamp r' = timestamp r.

(** * Further definitions: sums, supply, custody, the event log *)

(** The sum of [f] over the values of a finite map. *)
Definition sum_of {K A : Type} `{Countable K} (f : A -> N) (m : gmap K A) : N :=
  map_fold (fun _ a acc => f a + acc) 0 m.

(** The supply of a token: the sum of all its balances. *)
Definition totalSupply (t : MockERC20.state) : N :=
  sum_of (fun b => b) (MockERC20.balances t).







(** The events of one kind in a log. *)
Definition is_published (ev : Event) : bool :=
  match ev with TransferPublished _ _ _ _ => true | _ => false end.

Definition is_claimed (ev : Event) : bool :=
  match ev with TransferClaimed _ _ _ => true | _ => false end.

Definition count_events (p : Event -> bool) (l : list Event) : N :=
  N.of_nat (length (List.filter p l)).

(** The identifier a settlement event (claim or cancel) names. *)
Definition settles (h : bytes32) (ev : Event) : bool :=
  match ev with
  | TransferClaimed h' _ _ => h' =? h
  | TransferCancelled h' _ => h' =? h
  | _ => false
  end.

(** The length of a list, as a [uint256]-style natural. *)
Definition list_length {A : Type} (l : list A) : N := N.of_nat (length l).


(** The supply of the token at [tok] in a world, zero where none is
    deployed. *)
Definition supply (w : World) (tok : address) : N :=
  match tokens w !! tok with
  | Some t => totalSupply t
  | None => 0
  end.

Definition is_mint (c : Call) : bool :=
  match c with
  | TokenMint _ _ _ => true
  | _ => false
  end.


(** [IERC20(tok).allowance(from, spender)], zero where no token is
    deployed. *)
Definition tokenAllowance (w : World) (tok from spender : address) : uint256 :=
  match tokens w !! tok with
  | Some t => MockERC20.allowance t from spender
  | None => 0
  end.



(** * The token wrapper (TokenWrapper) *)

(** The wrapper's world: its own storage, its event log, and the tokens
    it calls, each a [MockERC20] ledger as in the test suite.  [decimals]
    is a [uint8] in the source; it is only stored and returned. *)
Module TokenWrapper.

Record TokenInfo : Type := {
  tokenAddress : address;
  symbol : string;
  decimals : N;
  isSupported : bool
}.

(** The value a [mapping(string => TokenInfo)] holds at a key that was
    never written. *)
Definition no_token : TokenInfo :=
  {| tokenAddress := 0; symbol := ""; decimals := 0; isSupported := false |}.

Inductive Event : Type :=
| TokenAdded (sym : string) (tok : address) (dec : N)
| TokenRemoved (sym : string)
| TokensWrapped (user tok : address) (amt : uint256)
| TokensUnwrapped (user tok : address) (amt : uint256).

Record Storage : Type := {
  supportedTokens : gmap string TokenInfo;
  tokenSymbols : list string;
  owner : address
}.

Record World : Type := {
  this : address;
  storage : Storage;
  tokens : gmap address MockERC20.state;
  logs : list Event
}.

(** [supportedTokens[_symbol]] *)
Definition supportedToken (w : World) (_symbol : string) : TokenInfo :=
  default no_token (supportedTokens (storage w) !! _symbol).

Definition tokenBalance (w : World) (tok a : address) : uint256 :=
  match tokens w !! tok with
  | Some t => MockERC20.balanceOf t a
  | None => 0
  end.

Definition with_storage (f : Storage -> Storage) (w : World) : World :=
  {| this := this w; storage := f (storage w); tokens := tokens w; logs := logs w |}.

Definition with_token (tok : address) (t : MockERC20.state) (w : World) : World :=
  {| this := this w; storage := storage w;
     tokens := <[tok := t]> (tokens w); logs := logs w |}.

Definition emit (ev : Event) (w : World) : World :=
  {| this := this w; storage := storage w; tokens := tokens w; logs := logs w ++ [ev] |}.

Definition set_supportedToken (_symbol : string) (info : TokenInfo) (s : Storage)
  : Storage :=
  {| supportedTokens := <[_symbol := info]> (supportedTokens s);
     tokenSymbols := tokenSymbols s;
     owner := owner s |}.

Definition push_symbol (_symbol : string) (s : Storage) : Storage :=
  {| supportedTokens := supportedTokens s;
     tokenSymbols := tokenSymbols s ++ [_symbol];
     owner := owner s |}.

(** [supportedTokens[_symbol].isSupported = false]: the other fields of
    the entry stay. *)
Definition unsupport (info : TokenInfo) : TokenInfo :=
  {| tokenAddress := tokenAddress info; symbol := symbol info;
     decimals := decimals info; isSupported := false |}.

Definition token_call (tok : address)
    (f : MockERC20.state -> result (bool * MockERC20.state))
    (msg : string) (w : World) : result World :=
  match tokens w !! tok with
  | None => Revert NoCode
  | Some t =>
      let! r := f t in
      require (fst r) msg ;;;
      Ok (with_token tok (snd r) w)
  end.

Definition constructor (self : address) (e : Env)
    (toks : gmap address MockERC20.state) : World :=
  {| this := self;
     storage := {| supportedTokens := ∅; tokenSymbols := []; owner := msg_sender e |};
     tokens := toks;
     logs := [] |}.

Definition onlyOwner (e : Env) (w : World) : result unit :=
  require (msg_sender e =? owner (storage w)) "Not owner".

Definition addSupportedToken (e : Env) (_symbol : string) (_tokenAddress : address)
    (_decimals : N) (w : World) : result World :=
  onlyOwner e w ;;;
  require (negb (_tokenAddress =? 0)) "Invalid token address" ;;;
  require (negb (isSupported (supportedToken w _symbol))) "Token already supported" ;;;
  let w1 := with_storage
              (set_supportedToken _symbol
                 {| tokenAddress := _tokenAddress;
                    symbol := _symbol;
                    decimals := _decimals;
                    isSupported := true |}) w in
  let w2 := with_storage (push_symbol _symbol) w1 in
  Ok (emit (TokenAdded _symbol _tokenAddress _decimals) w2).

Definition removeSupportedToken (e : Env) (_symbol : string) (w : World)
  : result World :=
  onlyOwner e w ;;;
  require (isSupported (supportedToken w _symbol)) "Token not supported" ;;;
  let w1 := with_storage
              (set_supportedToken _symbol (unsupport (supportedToken w _symbol))) w in
  Ok (emit (TokenRemoved _symbol) w1).

Definition getTokenAddress (w : World) (_symbol : string) : result address :=
  require (isSupported (supportedToken w _symbol)) "Token not supported" ;;;
  Ok (tokenAddress (supportedToken w _symbol)).

Definition isTokenSupported (w : World) (_symbol : string) : bool :=
  isSupported (supportedToken w _symbol).

Definition getAllSupportedTokens (w : World) : list string :=
  tokenSymbols (storage w).

Definition getTokenInfo (w : World) (_symbol : string)
  : address * string * N * bool :=
  let info := supportedToken w _symbol in
  (tokenAddress info, symbol info, decimals info, isSupported info).

Definition wrapTokens (e : Env) (_symbol : string) (_amount : uint256) (w : World)
  : result World :=
  require (isSupported (supportedToken w _symbol)) "Token not supported" ;;;
  require (0 <? _amount) "Amount must be positive" ;;;
  let tokenAddress := tokenAddress (supportedToken w _symbol) in
  let! w1 := token_call tokenAddress
               (MockERC20.transferFrom (this w) (msg_sender e) (this w) _amount)
               "Transfer failed" w in
  Ok (emit (TokensWrapped (msg_sender e) tokenAddress _amount) w1).

Definition unwrapTokens (e : Env) (_symbol : string) (_amount : uint256) (w : World)
  : result World :=
  require (isSupported (supportedToken w _symbol)) "Token not supported" ;;;
  require (0 <? _amount) "Amount must be positive" ;;;
  let tokenAddress := tokenAddress (supportedToken w _symbol) in
  let! w1 := token_call tokenAddress
               (MockERC20.transfer (this w) (msg_sender e) _amount)
               "Transfer failed" w in
  Ok (emit (TokensUnwrapped (msg_sender e) tokenAddress _amount) w1).

(** [IERC20(tok).balanceOf(a)] as an external call: it reverts where no
    token is deployed. *)
Definition balance_call (w : World) (tok a : address) : result uint256 :=
  match tokens w !! tok with
  | None => Revert NoCode
  | Some t => Ok (MockERC20.balanceOf t a)
  end.

Definition getContractBalance (w : World) (_symbol : string) : result uint256 :=
  require (isSupported (supportedToken w _symbol)) "Token not supported" ;;;
  balance_call w (tokenAddress (supportedToken w _symbol)) (this w).

Definition getUserBalance (w : World) (_symbol : string) (_user : address)
  : result uint256 :=
  require (isSupported (supportedToken w _symbol)) "Token not supported" ;;;
  balance_call w (tokenAddress (supportedToken w _symbol)) _user.

Definition emergencyWithdraw (e : Env) (_token : address) (_amount : uint256) (w : World)
  : result World :=
  onlyOwner e w ;;;
  token_call _token
    (MockERC20.transfer (this w) (owner (storage w)) _amount)
    "Emergency withdrawal failed" w.

(** The transactions that change the wrapper's world: its five
    state-changing functions and the four of the token. *)
Inductive Call : Type :=
| Add (sym : string) (tok : address) (dec : N)
| Remove (sym : string)
| Wrap (sym : string) (amt : uint256)
| Unwrap (sym : string) (amt : uint256)
| Withdraw (tok : address) (amt : uint256)
| TokenMint (tok to : address) (amt : uint256)
| TokenTransfer (tok to : address) (amt : uint256)
| TokenTransferFrom (tok from to : address) (amt : uint256)
| TokenApprove (tok spender : address) (amt : uint256).

Definition token_tx (tok : address) (f : MockERC20.state -> result MockERC20.state)
    (w : World) : result World :=
  match tokens w !! tok with
  | None => Revert NoCode
  | Some t =>
      let! t' := f t in
      Ok (with_token tok t' w)
  end.

Definition call (e : Env) (c : Call) (w : World) : result World :=
  match c with
  | Add sym tok dec => addSupportedToken e sym tok dec w
  | Remove sym => removeSupportedToken e sym w
  | Wrap sym amt => wrapTokens e sym amt w
  | Unwrap sym amt => unwrapTokens e sym amt w
  | Withdraw tok amt => emergencyWithdraw e tok amt w
  | TokenMint tok to amt => token_tx tok (MockERC20.mint to amt) w
  | TokenTransfer tok to amt =>
      token_tx tok (fun t => returned (MockERC20.transfer (msg_sender e) to amt t)) w
  | TokenTransferFrom tok from to amt =>
      token_tx tok (fun t => returned (MockERC20.transferFrom (msg_sender e) from to amt t)) w
  | TokenApprove tok spender amt =>
      token_tx tok (fun t => returned (MockERC20.approve (msg_sender e) spender amt t)) w
  end.

(** The world after a transaction: a revert rolls every change back. *)
Definition exec (e : Env) (c : Call) (w : World) : World :=
  match call e c w with
  | Ok w' => w'
  | Revert _ => w
  end.

Fixpoint run (txs : list (Env * Call)) (w : World) : World :=
  match txs with
  | [] => w
  | (e, c) :: rest => run rest (exec e c w)
  end.

Inductive reachable : World -> Prop :=
| reachable_deploy (self : address) (e : Env) (toks : gmap address MockERC20.state) :
    env_ok self e ->
    reachable (constructor self e toks)
| reachable_step (w : World) (e : Env) (c : Call) :
    reachable w ->
    env_ok (this w) e ->
    reachable (exec e c w).

(** The number of [TokenAdded] events for a symbol. *)
Definition added (sym : string) (ev : Event) : bool :=
  match ev with
  | TokenAdded s _ _ => if decide (s = sym) then true else false
  | _ => false
  end.

Definition times_added (sym : string) (l : list Event) : nat :=
  length (List.filter (added sym) l).

Definition occurrences (sym : string) (l : list string) : nat :=
  length (List.filter (fun s => if decide (s = sym) then true else false) l).

(** A scenario: the owner lists a token; Alice, funded and having
    approved the wrapper, wraps 100. *)
Module Scenario.
Definition wrapper : address := 200.
Definition deployer : address := 10.
Definition alice : address := 1.
Definition bob : address := 2.
Definition tok : address := 7.
Definition at_ (who : address) (time : uint256) : Env :=
  {| msg_sender := who; block_timestamp := time |}.

Definition listed : World :=
  run [ (at_ deployer 1000, Add "TKN" tok 18);
        (at_ deployer 1000, TokenMint tok alice 1000);
        (at_ alice 1000, TokenApprove tok wrapper 1000) ]
      (constructor wrapper (at_ deployer 1000) {[ tok := MockERC20.empty ]}).

Definition wrapped : World := exec (at_ alice 2000) (Wrap "TKN" 100) listed.

Definition removed : World := exec (at_ deployer 3000) (Remove "TKN") wrapped.

Definition relisted : World := exec (at_ deployer 4000) (Add "TKN" tok 18) removed.
End Scenario.

End TokenWrapper.

(** * The swap hook (InvisibleTransferHook) *)

(** ** ABI encoding of static words *)

Definition byte_of (n : N) : Byte.byte := default Byte.x00 (Byte.of_N (n mod 256)).

(** The big-endian bytes of [v], [width] of them. *)
Fixpoint be_bytes (width : nat) (v : N) : list Byte.byte :=
  match width with
  | O => []
  | S k => be_bytes k (v / 256) ++ [byte_of v]
  end.

(** The number a big-endian byte string denotes. *)
Definition be_value (l : list Byte.byte) : N :=
  fold_left (fun acc b => acc * 256 + Byte.to_N b) l 0.

(** [abi.encode(bytes32, bool)]: two 32-byte words. *)
Definition abi_encode_bytes32_bool (h : bytes32) (b : bool) : list Byte.byte :=
  be_bytes 32 h ++ be_bytes 32 (if b then 1 else 0).

(** [abi.decode(data, (bytes32, bool))]: fails on fewer than 64 bytes and
    on a second word that is neither 0 nor 1; bytes past the two words
    are ignored. *)
Definition abi_decode_bytes32_bool (data : list Byte.byte) : option (bytes32 * bool) :=
  if (length data <? 64)%nat then None
  else
    let h := be_value (take 32 data) in
    let b := be_value (take 32 (drop 32 data)) in
    if b =? 0 then Some (h, false)
    else if b =? 1 then Some (h, true)
    else None.

Module Hook.

Record SwapMetadata : Type := {
  hiddenTransferHash : bytes32;
  recipient : address;
  isInvisible : bool
}.

(** The value [swapMetadata] holds at a key that was never written. *)
Definition no_metadata : SwapMetadata :=
  {| hiddenTransferHash := 0; recipient := 0; isInvisible := false |}.

Inductive Event : Type :=
| InvisibleSwapExecuted (swapId hiddenHash : bytes32)
| HookInitialized (poolManager invisibleContract : address).

Record State : Type := {
  poolManager : address;
  swapMetadata : gmap bytes32 SwapMetadata;
  invisibleTransferContract : address;
  logs : list Event
}.

(** How a call of the hook ends: with a value, or reverted, with the
    message of a [require] or without one (a failed [abi.decode]). *)
Inductive outcome (A : Type) : Type :=
| Done (a : A)
| Reverted (reason : option string).
Arguments Done {A} a.
Arguments Reverted {A} reason.

Definition getSwapMetadata (st : State) (swapId : bytes32) : bytes32 * address * bool :=
  let metadata := default no_metadata (swapMetadata st !! swapId) in
  (hiddenTransferHash metadata, recipient metadata, isInvisible metadata).

Definition encodeInvisibleSwapData (hiddenHash : bytes32) : list Byte.byte :=
  abi_encode_bytes32_bool hiddenHash true.

(** The constructor's own body; the [BaseHook] constructor it chains to
    stores the pool manager. *)
Definition constructor (_poolManager _invisibleTransferContract : address) : State :=
  {| poolManager := _poolManager;
     swapMetadata := ∅;
     invisibleTransferContract := _invisibleTransferContract;
     logs := [HookInitialized _poolManager _invisibleTransferContract] |}.

Definition updateInvisibleTransferContract (e : Env) (_newContract : address) (st : State)
  : outcome State :=
  if negb (msg_sender e =? poolManager st) then Reverted (Some "Only pool manager"%string)
  else if _newContract =? 0 then Reverted (Some "Invalid address"%string)
  else Done {| poolManager := poolManager st;
               swapMetadata := swapMetadata st;
               invisibleTransferContract := _newContract;
               logs := logs st |}.

(** The chain's side of the hook: the pool key type with its [toId], the
    hash function, and the two selectors of [BaseHook]. *)
Section Chain.
Variable PoolKey : Type.
Variable toId : PoolKey -> bytes32.
Variable keccak256 : list Byte.byte -> bytes32.
Variable beforeSwap_selector : N.
Variable afterSwap_selector : N.

(** [keccak256(abi.encodePacked(sender, key.toId(), block.timestamp))] *)
Definition swapId (e : Env) (sender : address) (key : PoolKey) : bytes32 :=
  keccak256 (be_bytes 20 sender ++ be_bytes 32 (toId key)
             ++ be_bytes 32 (block_timestamp e)).

Definition record_swap (swap hiddenHash : bytes32) (sender : address) (st : State)
  : State :=
  {| poolManager := poolManager st;
     swapMetadata := <[swap := {| hiddenTransferHash := hiddenHash;
                                  recipient := sender;
                                  isInvisible := true |}]> (swapMetadata st);
     invisibleTransferContract := invisibleTransferContract st;
     logs := logs st ++ [InvisibleSwapExecuted swap hiddenHash] |}.

(** [beforeSwap]; its [params] argument is never read. *)
Definition beforeSwap (e : Env) (sender : address) (key : PoolKey)
    (hookData : list Byte.byte) (st : State) : outcome (N * State) :=
  if (0 <? length hookData)%nat then
    match abi_decode_bytes32_bool hookData with
    | None => Reverted None
    | Some (hiddenHash, isInvisible) =>
        if isInvisible && negb (hiddenHash =? 0)
        then Done (beforeSwap_selector, record_swap (swapId e sender key) hiddenHash sender st)
        else Done (beforeSwap_selector, st)
    end
  else Done (beforeSwap_selector, st).

(** [afterSwap]; it reads none of its arguments. *)
Definition afterSwap (e : Env) (sender : address) (key : PoolKey)
    (hookData : list Byte.byte) (st : State) : outcome (N * State) :=
  Done (afterSwap_selector, st).

(** The calls that reach the hook. *)
Inductive Call : Type :=
| BeforeSwap (sender : address) (key : PoolKey) (hookData : list Byte.byte)
| AfterSwap (sender : address) (key : PoolKey) (hookData : list Byte.byte)
| Update (_newContract : address).

(** The state after a call: a revert rolls every change back. *)
Definition exec (e : Env) (c : Call) (st : State) : State :=
  match c with
  | BeforeSwap sender key hookData =>
      match beforeSwap e sender key hookData st with
      | Done (_, st') => st'
      | Reverted _ => st
      end
  | AfterSwap sender key hookData =>
      match afterSwap e sender key hookData st with
      | Done (_, st') => st'
      | Reverted _ => st
      end
  | Update _newContract =>
      match updateInvisibleTransferContract e _newContract st with
      | Done st' => st'
      | Reverted _ => st
      end
  end.

Fixpoint run (txs : list (Env * Call)) (st : State) : State :=
  match txs with
  | [] => st
  | (e, c) :: rest => run rest (exec e c st)
  end.

(** The updates of the contract reference that the pool manager sends. *)
Definition is_manager_update (st : State) (tx : Env * Call) : bool :=
  match snd tx with
  | Update _ => msg_sender (fst tx) =? poolManager st
  | _ => false
  end.

End Chain.

End Hook.

(** * Tokens that call back *)

(** [publishHiddenTransfer], [claimHiddenTransfer], [cancelHiddenTransfer]
    and [emergencyWithdraw] call code at an address the caller (or the
    record) names.  Where that address holds one of the world's ledgers
    the call is the ledger's; where it does not, the code there is
    arbitrary: before it returns it may call the contract and the
    ledgers, any number of times, itself or through any other account.
    Such a run is described by the transaction itself: every call to a
    token carries the [Reaction] of the callee, the calls made before
    it returns (each with its sender and with the reactions of the
    tokens it reaches in turn) and what the callee finally returns.
    Every run of every token is one such finite tree. *)
Module Callback.

(** How the callee ends its own call. *)
Inductive Return : Type :=
| Returns (b : bool)
| Reverts (err : revert).

Inductive Tx : Type :=
| XPublish (_hash : bytes32) (_token : address) (_amount : uint256)
    (deposit fee : Reaction)
| XClaim (_hash : bytes32) (payout : Reaction)
| XCancel (_hash : bytes32) (refund : Reaction)
| XSetFee (_newFee : uint256)
| XSetCollector (_newCollector : address)
| XWithdraw (_token : address) (_amount : uint256) (payout : Reaction)
| XTokenMint (tok to : address) (amt : uint256)
| XTokenTransfer (tok to : address) (amt : uint256)
| XTokenTransferFrom (tok from to : address) (amt : uint256)
| XTokenApprove (tok spender : address) (amt : uint256)
with Reaction : Type :=
| Silent
| Calls (script : Script) (ret : Return)
with Script : Type :=
| Stop
| Then (who : address) (c : Tx) (rest : Script).

Scheme Tx_mut := Induction for Tx Sort Prop
  with Reaction_mut := Induction for Reaction Sort Prop
  with Script_mut := Induction for Script Sort Prop.

(** What the code at a called address does, once its calls back are
    resolved: its effect on the world and how it ends.  [None]: it makes
    no calls (a ledger, or an address without code). *)
Definition behaviour : Type := option ((World -> World) * Return).

(** A call of the contract into the token at [tok].  A ledger of the
    world answers as [f]; the zero address and the contract itself hold
    no token code; any other address behaves as [b] says. *)
Definition token_call (tok : address) (b : behaviour)
    (f : MockERC20.state -> result (bool * MockERC20.state))
    (msg : string) (w : World) : result World :=
  match tokens w !! tok with
  | Some t =>
      let! r := f t in
      require (fst r) msg ;;;
      Ok (with_token tok (snd r) w)
  | None =>
      match b with
      | None => Revert NoCode
      | Some (effect, ret) =>
          if (tok =? 0) || (tok =? this w) then Revert NoCode
          else match ret with
               | Returns ok => require ok msg ;;; Ok (effect w)
               | Reverts err => Revert err
               end
      end
  end.

Definition publishHiddenTransfer (e : Env) (_hash : bytes32) (_token : address)
    (_amount : uint256) (deposit fee_payment : behaviour) (w : World) : result World :=
  require (0 <? _amount) "Amount must be positive" ;;;
  require (timestamp (hiddenTransfer w _hash) =? 0) "Hash already exists" ;;;
  require (negb (_token =? 0)) "Invalid token address" ;;;
  let! product := checked_mul _amount (platformFee (storage w)) in
  let fee := product / 10000 in
  let! amountAfterFee := checked_sub _amount fee in
  let! w1 := token_call _token deposit
               (MockERC20.transferFrom (this w) (msg_sender e) (this w) _amount)
               "Token transfer failed" w in
  let! w2 := (if 0 <? fee
              then token_call _token fee_payment
                     (MockERC20.transfer (this w1) (feeCollector (storage w1)) fee)
                     "Fee transfer failed" w1
              else Ok w1) in
  let w3 := with_storage
              (set_hiddenTransfer _hash
                 {| sender := msg_sender e;
                    token := _token;
                    amount := amountAfterFee;
                    timestamp := block_timestamp e;
                    claimed := false |}) w2 in
  let w4 := with_storage (push_sent (msg_sender e) _hash) w3 in
  let! n := checked_add (totalTransfers (storage w4)) 1 in
  let w5 := with_storage (set_totalTransfers n) w4 in
  Ok (emit (TransferPublished _hash (msg_sender e) _token amountAfterFee) w5).

(** [transfer] is a storage pointer: the token and the amount passed to
    the token are read before the call, the amount of the event after
    it. *)
Definition claimHiddenTransfer (e : Env) (_hash : bytes32) (payout : behaviour)
    (w : World) : result World :=
  let transfer := hiddenTransfer w _hash in
  require (0 <? timestamp transfer) "Transfer does not exist" ;;;
  require (negb (claimed transfer)) "Already claimed" ;;;
  require (0 <? amount transfer) "No amount to claim" ;;;
  let w1 := with_storage (set_hiddenTransfer _hash (mark_claimed transfer)) w in
  let! n := checked_add (totalClaimed (storage w1)) 1 in
  let w2 := with_storage (set_totalClaimed n) w1 in
  let w3 := with_storage (push_received (msg_sender e) _hash) w2 in
  let! w4 := token_call (token (hiddenTransfer w3 _hash)) payout
               (MockERC20.transfer (this w3) (msg_sender e)
                  (amount (hiddenTransfer w3 _hash)))
               "Claim transfer failed" w3 in
  Ok (emit (TransferClaimed _hash (msg_sender e) (amount (hiddenTransfer w4 _hash))) w4).

Definition cancelHiddenTransfer (e : Env) (_hash : bytes32) (refund : behaviour)
    (w : World) : result World :=
  let transfer := hiddenTransfer w _hash in
  require (sender transfer =? msg_sender e) "Not the sender" ;;;
  require (negb (claimed transfer)) "Already claimed" ;;;
  let! deadline := checked_add (timestamp transfer) SEVEN_DAYS in
  require (deadline <=? block_timestamp e) "Too early to cancel" ;;;
  let amountToReturn := amount transfer in
  let tokenToReturn := token transfer in
  let w1 := with_storage (set_hiddenTransfer _hash (mark_claimed transfer)) w in
  let! w2 := token_call tokenToReturn refund
               (MockERC20.transfer (this w1) (msg_sender e) amountToReturn)
               "Cancel transfer failed" w1 in
  Ok (emit (TransferCancelled _hash (msg_sender e)) w2).

Definition emergencyWithdraw (e : Env) (_token : address) (_amount : uint256)
    (payout : behaviour) (w : World) : result World :=
  onlyOwner e w ;;;
  token_call _token payout
    (MockERC20.transfer (this w) (owner (storage w)) _amount)
    "Emergency withdrawal failed" w.

(** The environment of a call [who] makes during a transaction: [who]
    is the sender, the block is the same. *)
Definition callback_env (e : Env) (who : address) : Env :=
  {| msg_sender := who; block_timestamp := block_timestamp e |}.

(** A transaction, with the calls back resolved in place.  A call back
    that reverts is rolled back alone and the token goes on.  The zero
    address and the contract itself make no call back: the contract
    calls nothing but tokens. *)
Fixpoint xcall (e : Env) (c : Tx) (w : World) {struct c} : result World :=
  match c with
  | XPublish h tok amt r1 r2 =>
      publishHiddenTransfer e h tok amt (behave e r1) (behave e r2) w
  | XClaim h r =>
      claimHiddenTransfer e h (behave e r) w
  | XCancel h r =>
      cancelHiddenTransfer e h (behave e r) w
  | XSetFee n => updatePlatformFee e n w
  | XSetCollector a => updateFeeCollector e a w
  | XWithdraw tok amt r => emergencyWithdraw e tok amt (behave e r) w
  | XTokenMint tok to amt => token_tx tok (MockERC20.mint to amt) w
  | XTokenTransfer tok to amt =>
      token_tx tok (fun t => returned (MockERC20.transfer (msg_sender e) to amt t)) w
  | XTokenTransferFrom tok from to amt =>
      token_tx tok (fun t => returned (MockERC20.transferFrom (msg_sender e) from to amt t)) w
  | XTokenApprove tok spender amt =>
      token_tx tok (fun t => returned (MockERC20.approve (msg_sender e) spender amt t)) w
  end
with behave (e : Env) (r : Reaction) {struct r} : behaviour :=
  match r with
  | Silent => None
  | Calls script ret => Some (run_script e script, ret)
  end
with run_script (e : Env) (s : Script) (w : World) {struct s} : World :=
  match s with
  | Stop => w
  | Then who c rest =>
      run_script e rest
        (if (who =? 0) || (who =? this w) then w
         else match xcall (callback_env e who) c w with
              | Ok w' => w'
              | Revert _ => w
              end)
  end.

(** The world after a transaction: a revert rolls every change back. *)
Definition xexec (e : Env) (c : Tx) (w : World) : World :=
  match xcall e c w with
  | Ok w' => w'
  | Revert _ => w
  end.

Fixpoint xrun (txs : list (Env * Tx)) (w : World) : World :=
  match txs with
  | [] => w
  | (e, c) :: rest => xrun rest (xexec e c w)
  end.

(** The worlds between transactions. *)
Inductive reachable : World -> Prop :=
| reachable_deploy (self : address) (e : Env) (_platformFee : uint256)
    (toks : gmap address MockERC20.state) :
    env_ok self e ->
    reachable (constructor self e _platformFee toks)
| reachable_step (w : World) (e : Env) (c : Tx) :
    reachable w ->
    env_ok (this w) e ->
    reachable (xexec e c w).

(** A transaction in which no token calls back. *)
Definition quiet (c : Call) : Tx :=
  match c with
  | Publish h tok amt => XPublish h tok amt Silent Silent
  | Claim h => XClaim h Silent
  | Cancel h => XCancel h Silent
  | SetFee n => XSetFee n
  | SetCollector a => XSetCollector a
  | Withdraw tok amt => XWithdraw tok amt Silent
  | TokenMint tok to amt => XTokenMint tok to amt
  | TokenTransfer tok to amt => XTokenTransfer tok to amt
  | TokenTransferFrom tok from to amt => XTokenTransferFrom tok from to amt
  | TokenApprove tok spender amt => XTokenApprove tok spender amt
  end.

(** ** The writes of each function, and one call without its calls back *)

Definition publish_writes (e : Env) (h : bytes32) (tok : address)
    (amountAfterFee : uint256) (w : World) : World :=
  emit (TransferPublished h (msg_sender e) tok amountAfterFee)
    (with_storage
       (fun c => set_totalTransfers (totalTransfers c + 1)
                   (push_sent (msg_sender e) h
                      (set_hiddenTransfer h
                         {| sender := msg_sender e;
                            token := tok;
                            amount := amountAfterFee;
                            timestamp := block_timestamp e;
                            claimed := false |} c))) w).

Definition claim_writes (e : Env) (h : bytes32) (w : World) : World :=
  with_storage
    (fun c => push_received (msg_sender e) h
                (set_totalClaimed (totalClaimed c + 1)
                   (set_hiddenTransfer h (mark_claimed (hiddenTransfer w h)) c))) w.

Definition cancel_writes (h : bytes32) (w : World) : World :=
  with_storage (set_hiddenTransfer h (mark_claimed (hiddenTransfer w h))) w.

(** What a call to the token at [tok] does to the world: a ledger
    changes its own state; any other code changes the world as its calls
    back do, which [N] relates. *)
Definition token_effect (N : World -> World -> Prop) (tok : address) (w w1 : World)
  : Prop :=
  (exists t t', tokens w !! tok = Some t /\ w1 = with_token tok t' w) \/
  (tokens w !! tok = None /\ tok <> 0 /\ tok <> this w /\ N w w1).

(** A successful call of the contract, with the effect of the calls back
    it triggers taken from [N]. *)
Definition frame (N : World -> World -> Prop) (e : Env) (c : Tx) (w w' : World) : Prop :=
  match c with
  | XPublish h tok amt _ _ =>
      0 < amt /\ timestamp (hiddenTransfer w h) = 0 /\ tok <> 0 /\
      fee_of w amt <= amt /\
      exists w1 w2,
        token_effect N tok w w1 /\
        (w2 = w1 \/ token_effect N tok w1 w2) /\
        totalTransfers (storage w2) + 1 <= MAX_UINT256 /\
        w' = publish_writes e h tok (amt - fee_of w amt) w2
  | XClaim h _ =>
      0 < timestamp (hiddenTransfer w h) /\
      claimed (hiddenTransfer w h) = false /\
      0 < amount (hiddenTransfer w h) /\
      totalClaimed (storage w) + 1 <= MAX_UINT256 /\
      exists w1,
        token_effect N (token (hiddenTransfer w h)) (claim_writes e h w) w1 /\
        w' = emit (TransferClaimed h (msg_sender e) (amount (hiddenTransfer w1 h))) w1
  | XCancel h _ =>
      sender (hiddenTransfer w h) = msg_sender e /\
      claimed (hiddenTransfer w h) = false /\
      timestamp (hiddenTransfer w h) + SEVEN_DAYS <= block_timestamp e /\
      exists w1,
        token_effect N (token (hiddenTransfer w h)) (cancel_writes h w) w1 /\
        w' = emit (TransferCancelled h (msg_sender e)) w1
  | XSetFee n =>
      msg_sender e = owner (storage w) /\ n <= 500 /\
      w' = emit (FeeUpdated n) (with_storage (set_platformFee n) w)
  | XSetCollector a =>
      msg_sender e = owner (storage w) /\ a <> 0 /\
      w' = with_storage (set_feeCollector a) w
  | XWithdraw tok amt _ =>
      msg_sender e = owner (storage w) /\ token_effect N tok w w'
  | XTokenMint tok _ _ | XTokenTransfer tok _ _ | XTokenTransferFrom tok _ _ _
  | XTokenApprove tok _ _ =>
      exists t t', tokens w !! tok = Some t /\ w' = with_token tok t' w
  end.

(** A record that exists keeps its creation, and its flag once set. *)
Definition record_kept (r r' : HiddenTransfer) : Prop :=
  timestamp r <> 0 ->
  same_creation r r' /\ (claimed r = true -> claimed r' = true).

(** What no call takes back: the contract's address, the log and the two
    lists of every user only grow, and a record that exists stays as
    created, with its flag once set. *)
Definition grows (w w' : World) : Prop :=
  this w' = this w /\
  (exists l, logs w' = logs w ++ l) /\
  (forall u, exists l, sentTransfers w' u = sentTransfers w u ++ l) /\
  (forall u, exists l, receivedTransfers w' u = receivedTransfers w u ++ l) /\
  (forall h, record_kept (hiddenTransfer w h) (hiddenTransfer w' h)).

(** Every stored record was written by a publish: it carries the block
    timestamp and the sender of that call, neither of them zero. *)
Definition stored_ok (w : World) : Prop :=
  forall h r, hiddenTransfers (storage w) !! h = Some r ->
              timestamp r <> 0 /\ sender r <> 0.

End Callback.

(** ** Claim events of one identifier *)

(** The [TransferClaimed] events of the identifier [h]. *)
Definition claims (h : bytes32) (ev : Event) : bool :=
  match ev with
  | TransferClaimed h' _ _ => h' =? h
  | _ => false
  end.

(** [w'] keeps the settlement of [h] in [w]: where the record of [h]
    is settled in [w], it is settled in [w'] and the log of [w'] has no
    further [TransferClaimed] event for [h]. *)
Definition sealed (h : bytes32) (w w' : World) : Prop :=
  timestamp (hiddenTransfer w h) <> 0 ->
  claimed (hiddenTransfer w h) = true ->
  (timestamp (hiddenTransfer w' h) <> 0 /\ claimed (hiddenTransfer w' h) = true) /\
  count_events (claims h) (logs w') = count_events (claims h) (logs w).

(** ** A token that publishes and claims while it is asked for the deposit *)

(** The code at [evil] is not one of the world's ledgers.  Asked by
    [publishHiddenTransfer] for the deposit (l.79), it approves the
    contract for ledger tokens of its own, publishes the identifier it
    is itself being published under, claims that record, and returns
    true; asked for anything else it just returns true. *)
Module Reentry.
Import Scenario.

Definition evil : address := 66.
Definition mallory : address := 3.

Definition funded : World :=
  Callback.xrun [ (at_ deployer 1000, Callback.XTokenMint tok evil (100 * ether)) ]
    (constructor contract_addr (at_ deployer 1000) 50 {[ tok := MockERC20.empty ]}).

Definition nested : Callback.Script :=
  Callback.Then evil (Callback.XTokenApprove tok contract_addr (100 * ether))
    (Callback.Then evil
       (Callback.XPublish testHash tok (100 * ether) Callback.Silent Callback.Silent)
       (Callback.Then evil (Callback.XClaim testHash Callback.Silent) Callback.Stop)).

Definition on_deposit : Callback.Reaction := Callback.Calls nested (Callback.Returns true).

Definition agrees : Callback.Reaction :=
  Callback.Calls Callback.Stop (Callback.Returns true).

(** Mallory publishes [testHash] with the token at [evil]. *)
Definition attack : Callback.Tx :=
  Callback.XPublish testHash evil (40 * ether) on_deposit agrees.

(** The world when [evil] returns from the deposit call: still inside
    Mallory's [publishHiddenTransfer], before its l.92. *)
Definition inside : World :=
  Callback.run_script (at_ mallory 2000) nested funded.

(** The world after Mallory's transaction. *)
Definition after : World := Callback.xexec (at_ mallory 2000) attack funded.

(** Bob claims the identifier afterwards. *)
Definition claimed_again : World :=
  Callback.xexec (at_ bob 3000) (Callback.XClaim testHash agrees) after.
End Reentry.

(** ** The counters, the flags and the lists against the log, over a call *)

(** The counters and the log move together: what a call adds to
    [totalTransfers] and [totalClaimed] it adds to the
    [TransferPublished] and [TransferClaimed] events of the log. *)
Definition tally (w w' : World) : Prop :=
  totalTransfers (storage w') + count_events is_published (logs w)
  = totalTransfers (storage w) + count_events is_published (logs w') /\
  totalClaimed (storage w') + count_events is_claimed (logs w)
  = totalClaimed (storage w) + count_events is_claimed (logs w').

(** A flag that is set when a call ends was set when it started, or the
    log holds a settlement event of the identifier. *)
Definition accounted (h : bytes32) (w w' : World) : Prop :=
  Callback.grows w w' /\
  (claimed (hiddenTransfer w' h) = true ->
   claimed (hiddenTransfer w h) = true \/ existsb (settles h) (logs w') = true).

(** An identifier in a received list when a call ends was there when it
    started, or the log holds the user's claim of it. *)
Definition receipt (u : address) (h : bytes32) (w w' : World) : Prop :=
  Callback.grows w w' /\
  (h ∈ receivedTransfers w' u ->
   h ∈ receivedTransfers w u \/ exists a, TransferClaimed h u a ∈ logs w').

(** * The test suite, replayed on the model *)

Example testPublishHiddenTransfer :
  let '(sender, tokenAddr, amt, _, claimed) :=
    getHiddenTransfer Scenario.published Scenario.testHash in
  sender = Scenario.alice /\ tokenAddr = Scenario.tok /\ claimed = false /\ 0 < amt.
Proof. vm_compute. repeat split. Qed.

Example testClaimHiddenTransfer :
  let after := exec (Scenario.at_ Scenario.bob 3000) (Claim Scenario.testHash)
                 Scenario.published in
  tokenBalance Scenario.published Scenario.tok Scenario.bob
  < tokenBalance after Scenario.tok Scenario.bob /\
  claimed (hiddenTransfer after Scenario.testHash) = true.
Proof. vm_compute. repeat split. Qed.

Example testCannotClaimTwice :
  call (Scenario.at_ Scenario.bob 3000) (Claim Scenario.testHash)
    (exec (Scenario.at_ Scenario.bob 3000) (Claim Scenario.testHash) Scenario.published)
  = Revert (Reason "Already claimed").
Proof. vm_compute. reflexivity. Qed.

Example testCannotPublishSameHashTwice :
  call (Scenario.at_ Scenario.alice 2000)
    (Publish Scenario.testHash Scenario.tok (100 * Scenario.ether)) Scenario.published
  = Revert (Reason "Hash already exists").
Proof. vm_compute. reflexivity. Qed.

(** The specification's scenario: 100 units at 50 basis points escrow 99.5
    units and pay 0.5 units to the fee collector. *)
Example scenario_fee :
  amount (hiddenTransfer Scenario.published Scenario.testHash) = 995 * 10 ^ 17 /\
  tokenBalance Scenario.published Scenario.tok Scenario.deployer = 5 * 10 ^ 17 /\
  tokenBalance Scenario.published Scenario.tok Scenario.contract_addr = 995 * 10 ^ 17.
Proof. vm_compute. repeat split. Qed.


(** * Basic facts *)

(** ** The result monad and checked arithmetic *)

Lemma bind_Ok {A B : Type} (m : result A) (k : A -> result B) (b : B) :
  bind m k = Ok b <-> exists a, m = Ok a /\ k a = Ok b.
Proof.
  split.
  - destruct m as [a|e]; simpl; [eauto | discriminate].
  - intros (a & -> & Hk). exact Hk.
Qed.

Lemma require_Ok (cond : bool) (msg : string) (u : unit) :
  require cond msg = Ok u <-> cond = true.
Proof. destruct cond, u; simpl; split; congruence. Qed.

Lemma require_true (msg : string) : require true msg = Ok tt.
Proof. reflexivity. Qed.

Lemma require_false (msg : string) : require false msg = Revert (Reason msg).
Proof. reflexivity. Qed.

Lemma checked_add_Ok (a b c : N) :
  checked_add a b = Ok c <-> a + b <= MAX_UINT256 /\ c = a + b.
Proof.
  unfold checked_add. destruct (N.leb_spec (a + b) MAX_UINT256); split.
  - intros [= <-]. split; [assumption | reflexivity].
  - intros [_ ->]. reflexivity.
  - discriminate.
  - intros [Hle _]. lia.
Qed.

Lemma checked_sub_Ok (a b c : N) :
  checked_sub a b = Ok c <-> b <= a /\ c = a - b.
Proof.
  unfold checked_sub. destruct (N.leb_spec b a); split.
  - intros [= <-]. split; [assumption | reflexivity].
  - intros [_ ->]. reflexivity.
  - discriminate.
  - intros [Hle _]. lia.
Qed.

Lemma checked_mul_Ok (a b c : N) :
  checked_mul a b = Ok c <-> a * b <= MAX_UINT256 /\ c = a * b.
Proof.
  unfold checked_mul. destruct (N.leb_spec (a * b) MAX_UINT256); split.
  - intros [= <-]. split; [assumption | reflexivity].
  - intros [_ ->]. reflexivity.
  - discriminate.
  - intros [Hle _]. lia.
Qed.

(** Break a hypothesis [m = Ok x] of a monadic computation into the
    successes of its steps. *)
Ltac inv_ok H :=
  repeat match type of H with
  | bind _ _ = Ok _ =>
      let a := fresh "v" in
      let Ha := fresh "Hstep" in
      apply bind_Ok in H; destruct H as (a & Ha & H);
      try (apply require_Ok in Ha);
      try (apply checked_add_Ok in Ha; destruct Ha as [? ->]);
      try (apply checked_sub_Ok in Ha; destruct Ha as [? ->]);
      try (apply checked_mul_Ok in Ha; destruct Ha as [? ->])
  end.

(** ** MockERC20 *)

Module MockERC20Facts.
Import MockERC20.

Lemma balanceOf_set_balance (t : state) (a b : address) (v : uint256) :
  balanceOf (set_balance a v t) b = if decide (a = b) then v else balanceOf t b.
Proof.
  unfold balanceOf, set_balance; simpl. rewrite lookup_insert.
  destruct (decide (a = b)); reflexivity.
Qed.

Lemma balanceOf_set_allowance (t : state) (f s : address) (v : uint256) (b : address) :
  balanceOf (set_allowance f s v t) b = balanceOf t b.
Proof. reflexivity. Qed.

(** What a successful [transfer] does to every balance. *)
Lemma transfer_Ok (s to : address) (amt : uint256) (t : state) (r : bool * state) :
  transfer s to amt t = Ok r ->
  fst r = true /\
  amt <= balanceOf t s /\
  allowances (snd r) = allowances t /\
  forall a, balanceOf (snd r) a =
            if decide (to = a) then
              (if decide (s = to) then balanceOf t to else balanceOf t to + amt)
            else if decide (s = a) then balanceOf t s - amt
            else balanceOf t a.
Proof.
  unfold transfer. intros H. inv_ok H. injection H as <-. simpl.
  apply N.leb_le in Hstep.
  split; [reflexivity|]. split; [assumption|]. split; [reflexivity|].
  intros a. rewrite !balanceOf_set_balance in *.
  repeat case_decide; subst; try congruence; lia.
Qed.

(** When [transfer] succeeds. *)
Lemma transfer_succeeds (s to : address) (amt : uint256) (t : state) :
  s <> to ->
  amt <= balanceOf t s ->
  balanceOf t to + amt <= MAX_UINT256 ->
  exists t', transfer s to amt t = Ok (true, t').
Proof.
  intros Hne Hbal Hmax. unfold transfer.
  apply N.leb_le in Hbal as Hb. rewrite Hb. simpl.
  unfold checked_sub. rewrite Hb. simpl.
  rewrite balanceOf_set_balance. rewrite decide_False by assumption.
  unfold checked_add. apply N.leb_le in Hmax. rewrite Hmax. simpl. eauto.
Qed.

Lemma transfer_insufficient (s to : address) (amt : uint256) (t : state) :
  balanceOf t s < amt ->
  transfer s to amt t = Revert (Reason "Insufficient balance").
Proof.
  intros Hlt. unfold transfer. apply N.leb_gt in Hlt. rewrite Hlt. reflexivity.
Qed.

(** What a successful [transferFrom] does to every balance. *)
Lemma transferFrom_Ok (s from to : address) (amt : uint256) (t : state)
    (r : bool * state) :
  transferFrom s from to amt t = Ok r ->
  fst r = true /\
  amt <= balanceOf t from /\
  amt <= allowance t from s /\
  forall a, balanceOf (snd r) a =
            if decide (to = a) then
              (if decide (from = to) then balanceOf t to else balanceOf t to + amt)
            else if decide (from = a) then balanceOf t from - amt
            else balanceOf t a.
Proof.
  unfold transferFrom. intros H. inv_ok H. injection H as <-. simpl.
  apply N.leb_le in Hstep, Hstep0.
  split; [reflexivity|]. split; [assumption|]. split; [assumption|].
  intros a. rewrite balanceOf_set_allowance, !balanceOf_set_balance in *.
  repeat case_decide; subst; try congruence; lia.
Qed.

End MockERC20Facts.

(** ** Calls from the contract into a token *)


Lemma token_call_Ok (tok : address) (f : MockERC20.state -> result (bool * MockERC20.state))
    (msg : string) (w w' : World) :
  token_call tok f msg w = Ok w' <->
  exists t t', tokens w !! tok = Some t /\ f t = Ok (true, t') /\ w' = with_token tok t' w.
Proof.
  unfold token_call. split.
  - destruct (tokens w !! tok) as [t|]; [|discriminate].
    intros H. inv_ok H. injection H as <-.
    destruct v as [b t']. simpl in *. subst b. eauto.
  - intros (t & t' & -> & Hf & ->). rewrite Hf. reflexivity.
Qed.

Lemma tokenBalance_with_token (tok : address) (t : MockERC20.state) (w : World)
    (tok' a : address) :
  tokenBalance (with_token tok t w) tok' a =
  if decide (tok = tok') then MockERC20.balanceOf t a else tokenBalance w tok' a.
Proof.
  unfold tokenBalance, with_token; simpl. rewrite lookup_insert.
  destruct (decide (tok = tok')); reflexivity.
Qed.

Lemma tokenBalance_with_storage (f : InvisibleTransfer -> InvisibleTransfer) (w : World)
    (tok a : address) :
  tokenBalance (with_storage f w) tok a = tokenBalance w tok a.
Proof. reflexivity. Qed.

Lemma tokenBalance_emit (ev : Event) (w : World) (tok a : address) :
  tokenBalance (emit ev w) tok a = tokenBalance w tok a.
Proof. reflexivity. Qed.

Lemma tokenBalance_Some (w : World) (tok a : address) (t : MockERC20.state) :
  tokens w !! tok = Some t -> tokenBalance w tok a = MockERC20.balanceOf t a.
Proof. unfold tokenBalance. intros ->. reflexivity. Qed.

(** A positive balance is held in a deployed token. *)
Lemma tokenBalance_pos_deployed (w : World) (tok a : address) :
  0 < tokenBalance w tok a -> is_Some (tokens w !! tok).
Proof.
  unfold tokenBalance. destruct (tokens w !! tok); [eauto | lia].
Qed.

(** ** The three protocol functions, inverted *)


Lemma publish_Ok (e : Env) (h : bytes32) (tok : address) (amt : uint256) (w w' : World) :
  publishHiddenTransfer e h tok amt w = Ok w' ->
  exists t t1 t2,
    0 < amt /\
    timestamp (hiddenTransfer w h) = 0 /\
    tok <> 0 /\
    fee_of w amt <= amt /\
    totalTransfers (storage w) + 1 <= MAX_UINT256 /\
    tokens w !! tok = Some t /\
    MockERC20.transferFrom (this w) (msg_sender e) (this w) amt t = Ok (true, t1) /\
    (if 0 <? fee_of w amt
     then MockERC20.transfer (this w) (feeCollector (storage w)) (fee_of w amt) t1
          = Ok (true, t2)
     else t2 = t1) /\
    w' = emit (TransferPublished h (msg_sender e) tok (amt - fee_of w amt))
           (with_storage
              (fun c => set_totalTransfers (totalTransfers c + 1)
                          (push_sent (msg_sender e) h
                             (set_hiddenTransfer h (new_record e w tok amt) c)))
              (with_token tok t2 w)).
Proof.
  unfold publishHiddenTransfer. intros H. inv_ok H.
  apply N.ltb_lt in Hstep. apply N.eqb_eq in Hstep0.
  apply negb_true_iff, N.eqb_neq in Hstep1.
  apply token_call_Ok in Hstep2 as (t & t1 & Ht & Hfrom & ->).
  injection H as <-. fold (fee_of w amt) in *.
  destruct (0 <? fee_of w amt) eqn:Hfee.
  - apply token_call_Ok in Hstep3 as (t1' & t2 & Ht1 & Hto & ->).
    simpl in Ht1. rewrite lookup_insert_eq in Ht1. injection Ht1 as <-.
    exists t, t1, t2. repeat (split; [assumption || reflexivity|]).
    unfold with_token, with_storage, emit; simpl. rewrite insert_insert_eq. reflexivity.
  - injection Hstep3 as <-.
    exists t, t1, t1. repeat (split; [assumption || reflexivity|]).
    reflexivity.
Qed.

Lemma claim_Ok (e : Env) (h : bytes32) (w w' : World) :
  claimHiddenTransfer e h w = Ok w' ->
  let r := hiddenTransfer w h in
  exists t t',
    0 < timestamp r /\
    claimed r = false /\
    0 < amount r /\
    totalClaimed (storage w) + 1 <= MAX_UINT256 /\
    tokens w !! token r = Some t /\
    MockERC20.transfer (this w) (msg_sender e) (amount r) t = Ok (true, t') /\
    w' = emit (TransferClaimed h (msg_sender e) (amount r))
           (with_storage
              (fun c => push_received (msg_sender e) h
                          (set_totalClaimed (totalClaimed c + 1)
                             (set_hiddenTransfer h (mark_claimed r) c)))
              (with_token (token r) t' w)).
Proof.
  intros H r. unfold claimHiddenTransfer in H. fold r in H. inv_ok H.
  apply N.ltb_lt in Hstep, Hstep1. apply negb_true_iff in Hstep0.
  apply token_call_Ok in Hstep2 as (t & t' & Ht & Htr & ->).
  injection H as <-.
  exists t, t'. repeat (split; [assumption || reflexivity|]). reflexivity.
Qed.

Lemma cancel_Ok (e : Env) (h : bytes32) (w w' : World) :
  cancelHiddenTransfer e h w = Ok w' ->
  let r := hiddenTransfer w h in
  exists t t',
    sender r = msg_sender e /\
    claimed r = false /\
    timestamp r + SEVEN_DAYS <= block_timestamp e /\
    tokens w !! token r = Some t /\
    MockERC20.transfer (this w) (msg_sender e) (amount r) t = Ok (true, t') /\
    w' = emit (TransferCancelled h (msg_sender e))
           (with_storage (set_hiddenTransfer h (mark_claimed r)) (with_token (token r) t' w)).
Proof.
  intros H r. unfold cancelHiddenTransfer in H. fold r in H. inv_ok H.
  apply N.eqb_eq in Hstep. apply negb_true_iff in Hstep0. apply N.leb_le in Hstep1.
  apply token_call_Ok in Hstep2 as (t & t' & Ht & Htr & ->).
  injection H as <-.
  exists t, t'. repeat (split; [assumption || reflexivity|]). reflexivity.
Qed.

(** ** What each transaction does to the contract's storage *)


Lemma exec_Revert (e : Env) (c : Call) (w : World) (err : revert) :
  call e c w = Revert err -> exec e c w = w.
Proof. unfold exec. intros ->. reflexivity. Qed.

Lemma exec_cases (e : Env) (c : Call) (w : World) :
  call e c w = Ok (exec e c w) \/ ((exists err, call e c w = Revert err) /\ exec e c w = w).
Proof.
  unfold exec. destruct (call e c w) as [w'|err]; [left | right]; eauto.
Qed.

Lemma token_tx_Ok (tok : address) (f : MockERC20.state -> result MockERC20.state)
    (w w' : World) :
  token_tx tok f w = Ok w' ->
  exists t t', tokens w !! tok = Some t /\ f t = Ok t' /\ w' = with_token tok t' w.
Proof.
  unfold token_tx. destruct (tokens w !! tok) as [t|]; [|discriminate].
  intros H. inv_ok H. injection H as <-. eauto.
Qed.


Lemma call_storage (e : Env) (c : Call) (w w' : World) :
  call e c w = Ok w' -> storage_step e c w w'.
Proof.
  destruct c; simpl; intros H.
  - apply publish_Ok in H as (t & t1 & t2 & ? & ? & ? & ? & ? & ? & ? & ? & ->).
    repeat (split; [assumption|]). reflexivity.
  - apply claim_Ok in H as (t & t' & ? & ? & ? & ? & ? & ? & ->).
    repeat (split; [assumption|]). reflexivity.
  - apply cancel_Ok in H as (t & t' & ? & ? & ? & ? & ? & ->).
    repeat (split; [assumption|]). reflexivity.
  - unfold updatePlatformFee in H. inv_ok H. injection H as <-.
    apply N.eqb_eq in Hstep. apply N.leb_le in Hstep0. auto.
  - unfold updateFeeCollector in H. inv_ok H. injection H as <-.
    apply N.eqb_eq in Hstep. apply negb_true_iff, N.eqb_neq in Hstep0. auto.
  - unfold emergencyWithdraw in H. inv_ok H.
    apply N.eqb_eq in Hstep.
    apply token_call_Ok in H as (t & t' & _ & _ & ->). auto.
  - apply token_tx_Ok in H as (t & t' & _ & _ & ->). reflexivity.
  - apply token_tx_Ok in H as (t & t' & _ & _ & ->). reflexivity.
  - apply token_tx_Ok in H as (t & t' & _ & _ & ->). reflexivity.
  - apply token_tx_Ok in H as (t & t' & _ & _ & ->). reflexivity.
Qed.

(** No transaction moves the contract or deploys or removes a token. *)
Lemma call_this_tokens (e : Env) (c : Call) (w w' : World) :
  call e c w = Ok w' ->
  this w' = this w /\
  forall tok, is_Some (tokens w' !! tok) <-> is_Some (tokens w !! tok).
Proof.
  assert (Hwt : forall tok t w0, is_Some (tokens w0 !! tok) ->
            forall x, is_Some (tokens (with_token tok t w0) !! x)
                      <-> is_Some (tokens w0 !! x)).
  { intros tok t w0 Hsome x. unfold with_token; simpl.
    rewrite lookup_insert. case_decide; subst; [|reflexivity].
    split; intros _; [assumption | eauto]. }
  destruct c; simpl; intros H.
  - apply publish_Ok in H as (t & t1 & t2 & _ & _ & _ & _ & _ & Ht & _ & _ & ->).
    split; [reflexivity|]. simpl. apply (Hwt _ t2 w). eauto.
  - apply claim_Ok in H as (t & t' & _ & _ & _ & _ & Ht & _ & ->).
    split; [reflexivity|]. simpl. apply (Hwt _ t' w). eauto.
  - apply cancel_Ok in H as (t & t' & _ & _ & _ & Ht & _ & ->).
    split; [reflexivity|]. simpl. apply (Hwt _ t' w). eauto.
  - unfold updatePlatformFee in H. inv_ok H. injection H as <-. split; reflexivity.
  - unfold updateFeeCollector in H. inv_ok H. injection H as <-. split; reflexivity.
  - unfold emergencyWithdraw in H. inv_ok H.
    apply token_call_Ok in H as (t & t' & Ht & _ & ->).
    split; [reflexivity|]. apply (Hwt _ t' w). eauto.
  - apply token_tx_Ok in H as (t & t' & Ht & _ & ->).
    split; [reflexivity|]. apply (Hwt _ t' w). eauto.
  - apply token_tx_Ok in H as (t & t' & Ht & _ & ->).
    split; [reflexivity|]. apply (Hwt _ t' w). eauto.
  - apply token_tx_Ok in H as (t & t' & Ht & _ & ->).
    split; [reflexivity|]. apply (Hwt _ t' w). eauto.
  - apply token_tx_Ok in H as (t & t' & Ht & _ & ->).
    split; [reflexivity|]. apply (Hwt _ t' w). eauto.
Qed.

Lemma exec_this (e : Env) (c : Call) (w : World) : this (exec e c w) = this w.
Proof.
  destruct (exec_cases e c w) as [H | [_ ->]]; [|reflexivity].
  apply call_this_tokens in H. tauto.
Qed.

(** Reading a record after one record has been written. *)
Lemma hiddenTransfer_set (h h' : bytes32) (r : HiddenTransfer) (w w' : World) :
  hiddenTransfers (storage w') = <[h := r]> (hiddenTransfers (storage w)) ->
  hiddenTransfer w' h' = if decide (h = h') then r else hiddenTransfer w h'.
Proof.
  unfold hiddenTransfer. intros ->. rewrite lookup_insert.
  destruct (decide (h = h')); reflexivity.
Qed.

(** The record under [h'] after a successful transaction. *)
Lemma call_hiddenTransfer (e : Env) (c : Call) (w w' : World) (h' : bytes32) :
  call e c w = Ok w' ->
  hiddenTransfer w' h' =
  match c with
  | Publish h tok amt =>
      if decide (h = h') then new_record e w tok amt else hiddenTransfer w h'
  | Claim h | Cancel h =>
      if decide (h = h') then mark_claimed (hiddenTransfer w h) else hiddenTransfer w h'
  | _ => hiddenTransfer w h'
  end.
Proof.
  intros H. apply call_storage in H. destruct c; simpl in H.
  - destruct H as (_ & _ & _ & _ & _ & Hs). apply hiddenTransfer_set. rewrite Hs. reflexivity.
  - destruct H as (_ & _ & _ & _ & Hs). apply hiddenTransfer_set. rewrite Hs. reflexivity.
  - destruct H as (_ & _ & _ & Hs). apply hiddenTransfer_set. rewrite Hs. reflexivity.
  - destruct H as (_ & _ & Hs). unfold hiddenTransfer. rewrite Hs. reflexivity.
  - destruct H as (_ & _ & Hs). unfold hiddenTransfer. rewrite Hs. reflexivity.
  - destruct H as (_ & Hs). unfold hiddenTransfer. rewrite Hs. reflexivity.
  - unfold hiddenTransfer. rewrite H. reflexivity.
  - unfold hiddenTransfer. rewrite H. reflexivity.
  - unfold hiddenTransfer. rewrite H. reflexivity.
  - unfold hiddenTransfer. rewrite H. reflexivity.
Qed.

(** * Invariants of the reachable worlds *)


Lemma env_ok_spec (self : address) (e : Env) :
  env_ok self e <->
  msg_sender e <> 0 /\ msg_sender e <> self /\
  0 < block_timestamp e /\ block_timestamp e < 2 ^ 64.
Proof.
  unfold env_ok, env_okb.
  rewrite !andb_true_iff, !negb_true_iff, !N.eqb_neq, !N.ltb_lt. tauto.
Qed.

Lemma wf_written (w : World) (h : bytes32) :
  wf w ->
  timestamp (hiddenTransfer w h) <> 0 \/ sender (hiddenTransfer w h) <> 0 ->
  hiddenTransfers (storage w) !! h = Some (hiddenTransfer w h).
Proof.
  intros _. unfold hiddenTransfer.
  destruct (hiddenTransfers (storage w) !! h) as [r|]; simpl; [reflexivity|].
  intros [H|H]; congruence.
Qed.

Lemma wf_unwritten (w : World) (h : bytes32) :
  wf w -> timestamp (hiddenTransfer w h) = 0 -> hiddenTransfer w h = no_transfer.
Proof.
  intros Hwf. unfold hiddenTransfer.
  destruct (hiddenTransfers (storage w) !! h) as [r|] eqn:Hr; simpl; [|reflexivity].
  intros Hts. apply Hwf in Hr as (Hne & _). congruence.
Qed.

Lemma record_ok_frame (w w' : World) (r : HiddenTransfer) :
  this w' = this w ->
  (forall tok, is_Some (tokens w' !! tok) <-> is_Some (tokens w !! tok)) ->
  record_ok w r -> record_ok w' r.
Proof.
  unfold record_ok. intros -> Hdom (? & ? & ? & ? & ? & ?).
  rewrite Hdom. tauto.
Qed.

Lemma record_ok_mark_claimed (w : World) (r : HiddenTransfer) :
  record_ok w r -> record_ok w (mark_claimed r).
Proof. unfold record_ok. destruct r; simpl. tauto. Qed.

Lemma wf_step (e : Env) (c : Call) (w : World) :
  wf w -> env_ok (this w) e -> wf (exec e c w).
Proof.
  intros Hwf He. apply env_ok_spec in He as (Hs0 & Hsthis & Hpos & H64).
  destruct (exec_cases e c w) as [Hok | [_ ->]]; [|assumption].
  set (w' := exec e c w) in *.
  pose proof (call_this_tokens _ _ _ _ Hok) as [Hthis Hdom].
  pose proof (call_storage _ _ _ _ Hok) as Hst.
  assert (Hframe : forall r, record_ok w r -> record_ok w' r).
  { intros r. apply record_ok_frame; assumption. }
  assert (Hsame : hiddenTransfers (storage w') = hiddenTransfers (storage w) -> wf w').
  { intros Heq h r Hr. rewrite Heq in Hr. eauto. }
  assert (Hmark : forall h,
            timestamp (hiddenTransfer w h) <> 0 \/ sender (hiddenTransfer w h) <> 0 ->
            hiddenTransfers (storage w')
            = <[h := mark_claimed (hiddenTransfer w h)]> (hiddenTransfers (storage w)) ->
            wf w').
  { intros h Hw Heq h' r Hr. rewrite Heq, lookup_insert in Hr.
    destruct (decide (h = h')) as [<-|Hne]; [|eauto].
    injection Hr as <-. apply Hframe, record_ok_mark_claimed.
    eapply Hwf, wf_written; eassumption. }
  destruct c; simpl in Hst.
  - destruct Hst as (_ & _ & Htok & _ & _ & Hs).
    intros h r Hr. rewrite Hs in Hr. simpl in Hr. rewrite lookup_insert in Hr.
    destruct (decide (_hash = h)) as [<-|Hne]; [|eauto].
    injection Hr as <-. apply Hframe.
    simpl in Hok. apply publish_Ok in Hok as (t & _ & _ & _ & _ & _ & _ & _ & Ht & _).
    unfold record_ok, new_record; simpl. rewrite Ht.
    repeat split; try assumption; try lia. eauto.
  - destruct Hst as (Hts & _ & _ & _ & Hs). apply (Hmark _hash); [left; lia|].
    rewrite Hs. reflexivity.
  - destruct Hst as (Hsnd & _ & _ & Hs). apply (Hmark _hash); [right; congruence|].
    rewrite Hs. reflexivity.
  - destruct Hst as (_ & _ & Hs). apply Hsame. rewrite Hs. reflexivity.
  - destruct Hst as (_ & _ & Hs). apply Hsame. rewrite Hs. reflexivity.
  - destruct Hst as (_ & Hs). apply Hsame. rewrite Hs. reflexivity.
  - apply Hsame. rewrite Hst. reflexivity.
  - apply Hsame. rewrite Hst. reflexivity.
  - apply Hsame. rewrite Hst. reflexivity.
  - apply Hsame. rewrite Hst. reflexivity.
Qed.

Lemma reachable_wf (w : World) : reachable w -> wf w.
Proof.
  induction 1 as [self e fee toks He | w e c Hr IH He].
  - intros h r Hr. simpl in Hr. rewrite lookup_empty in Hr. discriminate.
  - apply wf_step; assumption.
Qed.


Lemma reachable_record_ok (w : World) (h : bytes32) :
  reachable w -> timestamp (hiddenTransfer w h) <> 0 -> record_ok w (hiddenTransfer w h).
Proof.
  intros Hr Hts. apply reachable_wf in Hr as Hwf.
  eapply Hwf, wf_written; eauto.
Qed.

Lemma reachable_run (txs : list (Env * Call)) (w : World) :
  reachable w ->
  forallb (fun tx => env_okb (this w) (fst tx)) txs = true ->
  reachable (run txs w).
Proof.
  revert w. induction txs as [|[e c] txs IH]; intros w Hr Hok; simpl in *; [assumption|].
  apply andb_true_iff in Hok as [He Hrest].
  apply IH.
  - apply reachable_step; assumption.
  - rewrite exec_this. assumption.
Qed.

Lemma run_this (txs : list (Env * Call)) (w : World) : this (run txs w) = this w.
Proof.
  revert w. induction txs as [|[e c] txs IH]; intros w; simpl; [reflexivity|].
  rewrite IH. apply exec_this.
Qed.

Lemma run_app (txs1 txs2 : list (Env * Call)) (w : World) :
  run (txs1 ++ txs2) w = run txs2 (run txs1 w).
Proof.
  revert w. induction txs1 as [|[e c] txs1 IH]; intros w; simpl; [reflexivity|]. apply IH.
Qed.

(** ** The counters *)



Lemma unclaimed_mark (w w' : World) (h : bytes32) :
  unclaimed w !! h = Some (hiddenTransfer w h) ->
  hiddenTransfers (storage w')
  = <[h := mark_claimed (hiddenTransfer w h)]> (hiddenTransfers (storage w)) ->
  size (unclaimed w) = S (size (unclaimed w')).
Proof.
  intros Hl Heq. unfold unclaimed in *. rewrite Heq.
  rewrite map_filter_insert_False by (simpl; discriminate).
  rewrite map_filter_delete, map_size_delete, Hl.
  assert (size (filter (fun kr => claimed (snd kr) = false)
                  (hiddenTransfers (storage w))) <> 0%nat).
  { apply map_size_ne_0_lookup_2 with h. rewrite Hl. eauto. }
  simpl. lia.
Qed.




(** * The escrow state machine *)


Lemma same_creation_refl (r : HiddenTransfer) : same_creation r r.
Proof. repeat split. Qed.

Lemma same_creation_mark_claimed (r : HiddenTransfer) : same_creation r (mark_claimed r).
Proof. repeat split. Qed.

Lemma same_creation_trans (r1 r2 r3 : HiddenTransfer) :
  same_creation r1 r2 -> same_creation r2 r3 -> same_creation r1 r3.
Proof. unfold same_creation. intros (?&?&?&?) (?&?&?&?). repeat split; congruence. Qed.

(** The record under [h'] after the transaction [c], whether it succeeded
    or reverted. *)
Lemma exec_hiddenTransfer (e : Env) (c : Call) (w : World) (h' : bytes32) :
  hiddenTransfer (exec e c w) h' = hiddenTransfer w h' \/
  (exists tok amt, c = Publish h' tok amt /\ timestamp (hiddenTransfer w h') = 0 /\
                   hiddenTransfer (exec e c w) h' = new_record e w tok amt) \/
  ((c = Claim h' \/ c = Cancel h') /\
   hiddenTransfer (exec e c w) h' = mark_claimed (hiddenTransfer w h')).
Proof.
  destruct (exec_cases e c w) as [Hok | [_ ->]]; [|left; reflexivity].
  pose proof (call_hiddenTransfer _ _ _ _ h' Hok) as Hrec.
  pose proof (call_storage _ _ _ _ Hok) as Hst.
  destruct c; simpl in Hrec, Hst; try (left; assumption).
  - destruct (decide (_hash = h')) as [->|]; [|left; assumption].
    right; left. exists _token, _amount. tauto.
  - destruct (decide (_hash = h')) as [->|]; [|left; assumption].
    right; right. tauto.
  - destruct (decide (_hash = h')) as [->|]; [|left; assumption].
    right; right. tauto.
Qed.

(** An existing record keeps its creation fields, and its flag once set. *)
Lemma exec_existing (e : Env) (c : Call) (w : World) (h : bytes32) :
  timestamp (hiddenTransfer w h) <> 0 ->
  same_creation (hiddenTransfer w h) (hiddenTransfer (exec e c w) h) /\
  (claimed (hiddenTransfer w h) = true -> claimed (hiddenTransfer (exec e c w) h) = true).
Proof.
  intros Hts.
  destruct (exec_hiddenTransfer e c w h) as [-> | [(tok & amt & _ & Hz & _) | [_ ->]]].
  - split; [apply same_creation_refl | tauto].
  - contradiction.
  - split; [apply same_creation_mark_claimed | reflexivity].
Qed.

Lemma run_existing (txs : list (Env * Call)) (w : World) (h : bytes32) :
  timestamp (hiddenTransfer w h) <> 0 ->
  same_creation (hiddenTransfer w h) (hiddenTransfer (run txs w) h) /\
  (claimed (hiddenTransfer w h) = true -> claimed (hiddenTransfer (run txs w) h) = true).
Proof.
  revert w. induction txs as [|[e c] txs IH]; intros w Hts; simpl.
  - split; [apply same_creation_refl | tauto].
  - destruct (exec_existing e c w h Hts) as [Hsame Hflag].
    assert (Hts' : timestamp (hiddenTransfer (exec e c w) h) <> 0).
    { destruct Hsame as (_ & _ & _ & ->). assumption. }
    destruct (IH _ Hts') as [Hsame' Hflag'].
    split; [eapply same_creation_trans; eassumption | tauto].
Qed.

(** ** Reachability of the scenario worlds *)

Lemma setUp_reachable : reachable Scenario.setUp.
Proof.
  unfold Scenario.setUp. apply reachable_run.
  - apply reachable_deploy. vm_compute. reflexivity.
  - vm_compute. reflexivity.
Qed.

Lemma published_reachable : reachable Scenario.published.
Proof.
  unfold Scenario.published. apply reachable_step.
  - apply setUp_reachable.
  - vm_compute. reflexivity.
Qed.

Lemma published_escrowed : escrowed Scenario.published Scenario.testHash.
Proof. split; [vm_compute; discriminate | vm_compute; reflexivity]. Qed.

Lemma drained_reachable : reachable Drained.drained.
Proof.
  unfold Drained.drained.
  apply reachable_step; [apply published_reachable | vm_compute; reflexivity].
Qed.

Lemma drained_escrowed : escrowed Drained.drained Scenario.testHash.
Proof. split; [vm_compute; discriminate | vm_compute; reflexivity]. Qed.




(** ** Counters and [getStats] *)


Lemma getStats_counted (w : World) :
  counted w ->
  getStats w = Ok (totalTransfers (storage w), totalClaimed (storage w),
                   totalTransfers (storage w) - totalClaimed (storage w)).
Proof.
  intros [_ Hcnt]. unfold getStats, checked_sub.
  assert (Hle : totalClaimed (storage w) <= totalTransfers (storage w)) by lia.
  apply N.leb_le in Hle. rewrite Hle. reflexivity.
Qed.



(** ** Publishing *)

(** C2, as the code has it.  A second [publishHiddenTransfer] under an
    identifier that already has a record always reverts and leaves the
    world, and with it the record of the first publish, as it was.  The
    revert is "Hash already exists" when the amount is positive; the
    amount check comes first, so a zero amount is rejected with "Amount
    must be positive" instead. *)
Theorem republish_rejected (e : Env) (w : World) (h : bytes32) (tok : address)
    (amt : uint256) :
  timestamp (hiddenTransfer w h) <> 0 ->
  call e (Publish h tok amt) w
  = Revert (Reason (if amt =? 0 then "Amount must be positive" else "Hash already exists")) /\
  exec e (Publish h tok amt) w = w /\
  hiddenTransfer (exec e (Publish h tok amt) w) h = hiddenTransfer w h.
Proof.
  intros Hts.
  assert (Hcall : call e (Publish h tok amt) w
                  = Revert (Reason (if amt =? 0 then "Amount must be positive"
                                    else "Hash already exists"))).
  { simpl. unfold publishHiddenTransfer.
    destruct (N.eqb_spec amt 0) as [->|Hpos]; [reflexivity|].
    assert (Hlt : (0 <? amt) = true) by (apply N.ltb_lt; lia).
    rewrite Hlt. simpl.
    apply N.eqb_neq in Hts. rewrite Hts. reflexivity. }
  split; [assumption|].
  rewrite (exec_Revert _ _ _ _ Hcall). split; reflexivity.
Qed.

Lemma republish_rejected_witness :
  call (Scenario.at_ Scenario.alice 3000)
       (Publish Scenario.testHash Scenario.tok (100 * Scenario.ether)) Scenario.published
  = Revert (Reason "Hash already exists").
Proof.
  assert (Hts : timestamp (hiddenTransfer Scenario.published Scenario.testHash) <> 0)
    by (vm_compute; discriminate).
  pose proof (republish_rejected (Scenario.at_ Scenario.alice 3000) Scenario.published
                Scenario.testHash Scenario.tok (100 * Scenario.ether) Hts) as (Hcall & _).
  rewrite Hcall. vm_compute. reflexivity.
Defined.

(** C2, as stated, fails: republishing an existing identifier with a zero
    amount is rejected by the amount check, not by the sentinel check. *)
Lemma republish_zero_amount :
  reachable Scenario.published /\
  timestamp (hiddenTransfer Scenario.published Scenario.testHash) <> 0 /\
  call (Scenario.at_ Scenario.alice 3000) (Publish Scenario.testHash Scenario.tok 0)
       Scenario.published
  = Revert (Reason "Amount must be positive") /\
  call (Scenario.at_ Scenario.alice 3000) (Publish Scenario.testHash Scenario.tok 0)
       Scenario.published
  <> Revert (Reason "Hash already exists").
Proof.
  split; [apply published_reachable|].
  split; [vm_compute; discriminate|].
  split; [vm_compute; reflexivity | vm_compute; discriminate].
Qed.

(** C3, as the code has it.  A successful publish of [amt] records the
    escrowed amount [amt - floor(amt * platformFee / 10000)]; and when the
    fee collector is neither the publishing account nor the contract
    itself, the collector's token balance grows by exactly that fee in the
    same transaction. *)
Theorem publish_fee (e : Env) (w w' : World) (h : bytes32) (tok : address)
    (amt : uint256) :
  call e (Publish h tok amt) w = Ok w' ->
  let fee := amt * platformFee (storage w) / 10000 in
  amount (hiddenTransfer w' h) = amt - fee /\
  (feeCollector (storage w) <> msg_sender e ->
   feeCollector (storage w) <> this w ->
   tokenBalance w' tok (feeCollector (storage w))
   = tokenBalance w tok (feeCollector (storage w)) + fee).
Proof.
  intros Hok fee.
  pose proof (call_hiddenTransfer _ _ _ _ h Hok) as Hrec. simpl in Hrec.
  rewrite decide_True in Hrec by reflexivity.
  split; [rewrite Hrec; reflexivity|].
  intros Hsender Hthis. simpl in Hok.
  apply publish_Ok in Hok as (t & t1 & t2 & _ & _ & _ & _ & _ & Ht & Hfrom & Hto & ->).
  fold fee in Hto. unfold fee_of in Hto. fold fee in Hto.
  rewrite tokenBalance_emit, tokenBalance_with_storage, tokenBalance_with_token.
  rewrite decide_True by reflexivity. rewrite (tokenBalance_Some _ _ _ _ Ht).
  apply MockERC20Facts.transferFrom_Ok in Hfrom as (_ & _ & _ & Hb1). simpl in Hb1.
  assert (H1 : MockERC20.balanceOf t1 (feeCollector (storage w))
               = MockERC20.balanceOf t (feeCollector (storage w))).
  { rewrite Hb1. rewrite decide_False by congruence. rewrite decide_False by congruence.
    reflexivity. }
  destruct (N.ltb_spec 0 fee) as [Hpos|Hzero].
  - apply MockERC20Facts.transfer_Ok in Hto as (_ & _ & _ & Hb2). simpl in Hb2.
    rewrite Hb2. rewrite decide_True by reflexivity. rewrite decide_False by congruence.
    rewrite H1. reflexivity.
  - subst t2. rewrite H1. lia.
Qed.

Lemma publish_fee_witness :
  amount (hiddenTransfer Scenario.published Scenario.testHash)
  = 100 * Scenario.ether - 100 * Scenario.ether * 50 / 10000 /\
  tokenBalance Scenario.published Scenario.tok Scenario.deployer
  = tokenBalance Scenario.setUp Scenario.tok Scenario.deployer
    + 100 * Scenario.ether * 50 / 10000.
Proof.
  assert (Hok : call (Scenario.at_ Scenario.alice 2000)
                  (Publish Scenario.testHash Scenario.tok (100 * Scenario.ether))
                  Scenario.setUp = Ok Scenario.published)
    by (vm_compute; reflexivity).
  assert (H1 : feeCollector (storage Scenario.setUp)
               <> msg_sender (Scenario.at_ Scenario.alice 2000))
    by (vm_compute; discriminate).
  assert (H2 : feeCollector (storage Scenario.setUp) <> this Scenario.setUp)
    by (vm_compute; discriminate).
  pose proof (publish_fee _ _ _ _ _ _ Hok) as [Hamt Hfee].
  specialize (Hfee H1 H2).
  split.
  - rewrite Hamt. vm_compute. reflexivity.
  - vm_compute in Hfee |- *. exact Hfee.
Defined.

(** C3, as stated, fails when the fee collector is the publishing account
    itself (the deployer is the collector from construction on): its
    balance goes down by the escrowed amount instead of up by the fee. *)
Lemma fee_collector_publishes :
  reachable OwnerPublishes.funded /\
  feeCollector (storage OwnerPublishes.funded) = Scenario.deployer /\
  call (Scenario.at_ Scenario.deployer 2000)
       (Publish Scenario.testHash Scenario.tok (100 * Scenario.ether))
       OwnerPublishes.funded = Ok OwnerPublishes.published /\
  tokenBalance OwnerPublishes.funded Scenario.tok Scenario.deployer
  = 1000 * Scenario.ether /\
  tokenBalance OwnerPublishes.published Scenario.tok Scenario.deployer
  = 1000 * Scenario.ether - (100 * Scenario.ether - 100 * Scenario.ether * 50 / 10000) /\
  tokenBalance OwnerPublishes.published Scenario.tok Scenario.deployer
  <> tokenBalance OwnerPublishes.funded Scenario.tok Scenario.deployer
     + 100 * Scenario.ether * 50 / 10000.
Proof.
  split.
  { unfold OwnerPublishes.funded. apply reachable_run; [|vm_compute; reflexivity].
    apply reachable_deploy. vm_compute. reflexivity. }
  split; [vm_compute; reflexivity|].
  split; [vm_compute; reflexivity|].
  split; [vm_compute; reflexivity|].
  split; [vm_compute; reflexivity|].
  vm_compute. discriminate.
Qed.

(** A successful publish puts the escrowed amount into the contract's
    custody: right after it the contract holds at least the recorded
    amount of the record's token. *)
Lemma publish_funds_escrow (e : Env) (w w' : World) (h : bytes32) (tok : address)
    (amt : uint256) :
  msg_sender e <> this w ->
  call e (Publish h tok amt) w = Ok w' ->
  token (hiddenTransfer w' h) = tok /\
  amount (hiddenTransfer w' h) <= tokenBalance w' tok (this w').
Proof.
  intros Hne Hok.
  pose proof (call_hiddenTransfer _ _ _ _ h Hok) as Hrec. simpl in Hrec.
  rewrite decide_True in Hrec by reflexivity. rewrite Hrec. clear Hrec.
  split; [reflexivity|]. simpl in Hok.
  apply publish_Ok in Hok as (t & t1 & t2 & _ & _ & _ & Hfee & _ & Ht & Hfrom & Hto & ->).
  simpl. rewrite tokenBalance_emit, tokenBalance_with_storage, tokenBalance_with_token.
  rewrite decide_True by reflexivity.
  apply MockERC20Facts.transferFrom_Ok in Hfrom as (_ & _ & _ & Hb1). simpl in Hb1.
  assert (H1 : MockERC20.balanceOf t1 (this w) = MockERC20.balanceOf t (this w) + amt).
  { rewrite Hb1. rewrite decide_True by reflexivity. rewrite decide_False by assumption.
    reflexivity. }
  destruct (N.ltb_spec 0 (fee_of w amt)) as [Hpos|Hzero].
  - apply MockERC20Facts.transfer_Ok in Hto as (_ & _ & _ & Hb2). simpl in Hb2.
    rewrite Hb2. destruct (decide (feeCollector (storage w) = this w)) as [Hc|Hc].
    + rewrite decide_True by congruence. rewrite Hc, H1. lia.
    + rewrite decide_True by reflexivity. rewrite H1. lia.
  - subst t2. rewrite H1. lia.
Qed.

(** ** Claiming and cancelling *)


(** Every way [cancelHiddenTransfer] of an existing record can end. *)
Lemma cancel_spec (e : Env) (w : World) (h : bytes32) :
  reachable w ->
  let r := hiddenTransfer w h in
  timestamp r <> 0 ->
  call e (Cancel h) w =
  if negb (sender r =? msg_sender e) then Revert (Reason "Not the sender")
  else if claimed r then Revert (Reason "Already claimed")
  else if block_timestamp e <? timestamp r + SEVEN_DAYS
       then Revert (Reason "Too early to cancel")
  else match tokens w !! token r with
       | None => Revert NoCode
       | Some t =>
           match MockERC20.transfer (this w) (msg_sender e) (amount r) t with
           | Ok (_, t') => Ok (cancelled_world e h t' w)
           | Revert err => Revert err
           end
       end.
Proof.
  intros Hr r Hnz. simpl. unfold cancelHiddenTransfer. fold r.
  destruct (sender r =? msg_sender e); [|reflexivity]. simpl.
  destruct (claimed r) eqn:Hc; [reflexivity|]. simpl.
  destruct (reachable_record_ok w h Hr Hnz) as (_ & H64 & _). fold r in H64.
  unfold checked_add.
  assert (Hle : (timestamp r + SEVEN_DAYS <=? MAX_UINT256) = true).
  { apply N.leb_le. unfold MAX_UINT256, SEVEN_DAYS.
    assert (2 ^ 64 + 7 * 24 * 60 * 60 <= 2 ^ 256 - 1) by (vm_compute; discriminate).
    lia. }
  rewrite Hle. simpl.
  rewrite N.leb_antisym.
  destruct (block_timestamp e <? timestamp r + SEVEN_DAYS); [reflexivity|]. simpl.
  unfold token_call. simpl.
  destruct (tokens w !! token r) as [t|]; [|reflexivity].
  destruct (MockERC20.transfer (this w) (msg_sender e) (amount r) t)
    as [[b t']|err] eqn:Htr; [|reflexivity].
  apply MockERC20Facts.transfer_Ok in Htr as (Hb & _). simpl in Hb. subst b.
  reflexivity.
Qed.

(** The token balances after the contract has paid [amt] to [to]. *)
Lemma payout_balances (w : World) (tok to : address) (amt : uint256)
    (t t' : MockERC20.state) (b : bool) :
  tokens w !! tok = Some t ->
  MockERC20.transfer (this w) to amt t = Ok (b, t') ->
  to <> this w ->
  tokenBalance (with_token tok t' w) tok to = tokenBalance w tok to + amt /\
  tokenBalance (with_token tok t' w) tok (this w) = tokenBalance w tok (this w) - amt /\
  forall tok' a, tok' <> tok \/ (a <> to /\ a <> this w) ->
                 tokenBalance (with_token tok t' w) tok' a = tokenBalance w tok' a.
Proof.
  intros Ht Htr Hne.
  apply MockERC20Facts.transfer_Ok in Htr as (_ & _ & _ & Hb). simpl in Hb.
  split; [|split].
  - rewrite tokenBalance_with_token, decide_True by reflexivity.
    rewrite (tokenBalance_Some _ _ _ _ Ht), Hb.
    rewrite decide_True by reflexivity. rewrite decide_False by congruence. reflexivity.
  - rewrite tokenBalance_with_token, decide_True by reflexivity.
    rewrite (tokenBalance_Some _ _ _ _ Ht), Hb.
    rewrite decide_False by congruence. rewrite decide_True by reflexivity. reflexivity.
  - intros tok' a Hor. rewrite tokenBalance_with_token.
    destruct (decide (tok = tok')) as [<-|]; [|reflexivity].
    rewrite (tokenBalance_Some _ _ _ _ Ht), Hb.
    destruct Hor as [|[H1 H2]]; [congruence|].
    rewrite decide_False by congruence. rewrite decide_False by congruence. reflexivity.
Qed.

(** When the contract can pay [amt] of [tok] to [to]. *)
Lemma payout_succeeds (w : World) (tok to : address) (amt : uint256) :
  is_Some (tokens w !! tok) ->
  to <> this w ->
  amt <= tokenBalance w tok (this w) ->
  tokenBalance w tok to + amt <= MAX_UINT256 ->
  exists t t', tokens w !! tok = Some t /\
               MockERC20.transfer (this w) to amt t = Ok (true, t').
Proof.
  intros [t Ht] Hne Hbal Hmax.
  rewrite !(tokenBalance_Some _ _ _ _ Ht) in *.
  destruct (MockERC20Facts.transfer_succeeds (this w) to amt t) as [t' Htr];
    [congruence | assumption | assumption |].
  eauto.
Qed.

(** C1, as stated, fails: after the owner's emergency withdrawal the
    record is still escrowed and unclaimed, but the first claim reverts in
    the token transfer and neither sets the flag nor pays the caller. *)
Lemma claim_of_drained_escrow :
  reachable Drained.drained /\
  escrowed Drained.drained Scenario.testHash /\
  amount (hiddenTransfer Drained.drained Scenario.testHash) = Drained.escrow /\
  call (Scenario.at_ Scenario.bob 3000) (Claim Scenario.testHash) Drained.drained
  = Revert (Reason "Insufficient balance") /\
  claimed (hiddenTransfer
             (exec (Scenario.at_ Scenario.bob 3000) (Claim Scenario.testHash)
                Drained.drained) Scenario.testHash) = false /\
  tokenBalance (exec (Scenario.at_ Scenario.bob 3000) (Claim Scenario.testHash)
                  Drained.drained) Scenario.tok Scenario.bob = 0.
Proof.
  split; [apply drained_reachable|].
  split; [apply drained_escrowed|].
  split; [vm_compute; reflexivity|]. split; [vm_compute; reflexivity|].
  split; vm_compute; reflexivity.
Qed.

(** C4, as the code has it.  For an escrowed record of a reachable world:
    a cancel by any account other than the recorded sender reverts with
    "Not the sender", whatever the time; a cancel by the sender before
    seven days have passed since the record's timestamp reverts with "Too
    early to cancel"; a cancel by the sender at or after seven days
    succeeds, sets [claimed] and moves the full recorded amount from the
    contract back to the sender, provided that amount is still in the
    contract's custody (and fits on top of the sender's balance). *)
Theorem cancel_window (e : Env) (w : World) (h : bytes32) :
  reachable w ->
  escrowed w h ->
  let r := hiddenTransfer w h in
  (msg_sender e <> sender r ->
   call e (Cancel h) w = Revert (Reason "Not the sender")) /\
  (msg_sender e = sender r ->
   block_timestamp e < timestamp r + SEVEN_DAYS ->
   call e (Cancel h) w = Revert (Reason "Too early to cancel")) /\
  (msg_sender e = sender r ->
   timestamp r + SEVEN_DAYS <= block_timestamp e ->
   amount r <= tokenBalance w (token r) (this w) ->
   tokenBalance w (token r) (sender r) + amount r <= MAX_UINT256 ->
   exists w',
     call e (Cancel h) w = Ok w' /\
     claimed (hiddenTransfer w' h) = true /\
     tokenBalance w' (token r) (sender r)
     = tokenBalance w (token r) (sender r) + amount r /\
     tokenBalance w' (token r) (this w) = tokenBalance w (token r) (this w) - amount r).
Proof.
  intros Hr [Hts Hc] r. subst r. set (r := hiddenTransfer w h) in *.
  pose proof (cancel_spec e w h Hr Hts) as Hspec. cbv zeta in Hspec. fold r in Hspec.
  rewrite Hc in Hspec.
  destruct (reachable_record_ok w h Hr Hts) as (_ & _ & _ & Hsthis & _ & Hdep).
  fold r in Hsthis, Hdep.
  split; [|split].
  - intros Hne. assert (Hneq : (sender r =? msg_sender e) = false)
      by (apply N.eqb_neq; congruence).
    rewrite Hneq in Hspec. exact Hspec.
  - intros Heq Hearly.
    assert (Hsame : (sender r =? msg_sender e) = true) by (apply N.eqb_eq; congruence).
    rewrite Hsame in Hspec. simpl in Hspec.
    apply N.ltb_lt in Hearly. rewrite Hearly in Hspec. exact Hspec.
  - intros Heq Hlate Hbal Hmax.
    assert (Hsame : (sender r =? msg_sender e) = true) by (apply N.eqb_eq; congruence).
    rewrite Hsame in Hspec. simpl in Hspec.
    assert (Hnot : (block_timestamp e <? timestamp r + SEVEN_DAYS) = false)
      by (apply N.ltb_ge; exact Hlate).
    rewrite Hnot in Hspec.
    assert (Hne : msg_sender e <> this w) by congruence.
    rewrite <- Heq in Hmax |- *.
    destruct (payout_succeeds w (token r) (msg_sender e) (amount r) Hdep Hne Hbal Hmax)
      as (t & t' & Ht & Htr).
    rewrite Ht, Htr in Hspec.
    exists (cancelled_world e h t' w). split; [exact Hspec|].
    assert (Hrec : hiddenTransfer (cancelled_world e h t' w) h = mark_claimed r).
    { rewrite (call_hiddenTransfer e (Cancel h) w _ h Hspec). apply decide_True.
      reflexivity. }
    destruct (payout_balances w (token r) (msg_sender e) (amount r) t t' true Ht Htr Hne)
      as (Hto & Hfrom & _).
    split; [rewrite Hrec; reflexivity|]. split; [exact Hto | exact Hfrom].
Qed.

Lemma cancel_window_witness :
  let r := hiddenTransfer Scenario.published Scenario.testHash in
  call (Scenario.at_ Scenario.bob (2000 + SEVEN_DAYS)) (Cancel Scenario.testHash)
    Scenario.published = Revert (Reason "Not the sender") /\
  call (Scenario.at_ Scenario.alice (2000 + SEVEN_DAYS - 1)) (Cancel Scenario.testHash)
    Scenario.published = Revert (Reason "Too early to cancel") /\
  exists w',
    call (Scenario.at_ Scenario.alice (2000 + SEVEN_DAYS)) (Cancel Scenario.testHash)
      Scenario.published = Ok w' /\
    claimed (hiddenTransfer w' Scenario.testHash) = true /\
    tokenBalance w' (token r) (sender r)
    = tokenBalance Scenario.published (token r) (sender r) + amount r.
Proof.
  intros r.
  set (bob_late := Scenario.at_ Scenario.bob (2000 + SEVEN_DAYS)).
  set (alice_early := Scenario.at_ Scenario.alice (2000 + SEVEN_DAYS - 1)).
  set (alice_late := Scenario.at_ Scenario.alice (2000 + SEVEN_DAYS)).
  assert (Hbob : msg_sender bob_late <> sender r) by (vm_compute; discriminate).
  assert (Halice1 : msg_sender alice_early = sender r) by (vm_compute; reflexivity).
  assert (Halice2 : msg_sender alice_late = sender r) by (vm_compute; reflexivity).
  assert (Hearly : block_timestamp alice_early < timestamp r + SEVEN_DAYS)
    by (vm_compute; reflexivity).
  assert (Hlate : timestamp r + SEVEN_DAYS <= block_timestamp alice_late)
    by (vm_compute; discriminate).
  assert (Hbal : amount r <= tokenBalance Scenario.published (token r)
                               (this Scenario.published))
    by (vm_compute; discriminate).
  assert (Hmax : tokenBalance Scenario.published (token r) (sender r) + amount r
                 <= MAX_UINT256)
    by (vm_compute; discriminate).
  split; [|split].
  - exact (proj1 (cancel_window bob_late Scenario.published Scenario.testHash
                    published_reachable published_escrowed) Hbob).
  - exact (proj1 (proj2 (cancel_window alice_early Scenario.published Scenario.testHash
                           published_reachable published_escrowed)) Halice1 Hearly).
  - destruct (proj2 (proj2 (cancel_window alice_late Scenario.published Scenario.testHash
                              published_reachable published_escrowed))
                Halice2 Hlate Hbal Hmax) as (w' & Hok & Hc & Hto & _).
    exists w'. split; [exact Hok|]. split; [exact Hc | exact Hto].
Defined.

(** C4, as stated, fails: after the owner's emergency withdrawal a cancel
    by the original sender at seven days reverts in the token transfer;
    the record stays unclaimed and the sender gets nothing back. *)
Lemma cancel_of_drained_escrow :
  reachable Drained.drained /\
  escrowed Drained.drained Scenario.testHash /\
  sender (hiddenTransfer Drained.drained Scenario.testHash) = Scenario.alice /\
  timestamp (hiddenTransfer Drained.drained Scenario.testHash) = 2000 /\
  call (Scenario.at_ Scenario.alice (2000 + SEVEN_DAYS)) (Cancel Scenario.testHash)
    Drained.drained = Revert (Reason "Insufficient balance") /\
  exec (Scenario.at_ Scenario.alice (2000 + SEVEN_DAYS)) (Cancel Scenario.testHash)
    Drained.drained = Drained.drained.
Proof.
  split; [apply drained_reachable|].
  split; [apply drained_escrowed|].
  split; [vm_compute; reflexivity|]. split; [vm_compute; reflexivity|].
  split; vm_compute; reflexivity.
Qed.






(** * The fee configuration *)

(** Every way [updatePlatformFee] can end. *)
Lemma updatePlatformFee_spec (e : Env) (n : uint256) (w : World) :
  call e (SetFee n) w =
  if negb (msg_sender e =? owner (storage w)) then Revert (Reason "Not owner")
  else if 500 <? n then Revert (Reason "Fee too high")
  else Ok (emit (FeeUpdated n) (with_storage (set_platformFee n) w)).
Proof.
  simpl. unfold updatePlatformFee, onlyOwner.
  destruct (msg_sender e =? owner (storage w)); [|reflexivity]. simpl.
  rewrite N.leb_antisym. destruct (500 <? n); reflexivity.
Qed.

(** The fee rate and the fee collector change only in a transaction of
    the owner, and the owner never changes. *)
Lemma fee_config_owner_only (e : Env) (c : Call) (w : World) :
  owner (storage (exec e c w)) = owner (storage w) /\
  (platformFee (storage (exec e c w)) <> platformFee (storage w) \/
   feeCollector (storage (exec e c w)) <> feeCollector (storage w) ->
   msg_sender e = owner (storage w)).
Proof.
  destruct (exec_cases e c w) as [Hok | [_ ->]]; [|split; [reflexivity | tauto]].
  apply call_storage in Hok. destruct c; simpl in Hok.
  - destruct Hok as (_ & _ & _ & _ & _ & ->). split; [reflexivity | simpl; tauto].
  - destruct Hok as (_ & _ & _ & _ & ->). split; [reflexivity | simpl; tauto].
  - destruct Hok as (_ & _ & _ & ->). split; [reflexivity | simpl; tauto].
  - destruct Hok as (Ho & _ & ->). split; [reflexivity | tauto].
  - destruct Hok as (Ho & _ & ->). split; [reflexivity | tauto].
  - destruct Hok as (Ho & ->). split; [reflexivity | tauto].
  - rewrite Hok. split; [reflexivity | tauto].
  - rewrite Hok. split; [reflexivity | tauto].
  - rewrite Hok. split; [reflexivity | tauto].
  - rewrite Hok. split; [reflexivity | tauto].
Qed.



(** C6.  The constructor stores whatever rate it is given: deployed with
    501 basis points the contract is in a reachable world whose fee rate
    exceeds the 500 that [updatePlatformFee] enforces, and the rate stays
    there through any transaction other than a fee update by the owner. *)
Theorem constructor_fee_unchecked :
  let w := constructor Scenario.contract_addr (Scenario.at_ Scenario.deployer 1000) 501
             {[ Scenario.tok := MockERC20.empty ]} in
  reachable w /\
  platformFee (storage w) = 501 /\
  500 < platformFee (storage w) /\
  500 < platformFee (storage (exec (Scenario.at_ Scenario.alice 2000)
                               (TokenMint Scenario.tok Scenario.alice 1) w)).
Proof.
  intros w. split; [|split; [|split]].
  - apply reachable_deploy. vm_compute. reflexivity.
  - reflexivity.
  - reflexivity.
  - vm_compute. reflexivity.
Qed.


(** * Further properties of the ledger *)

(** ** Sums over finite maps *)

Lemma sum_of_empty {K A : Type} `{Countable K} (f : A -> N) :
  sum_of f (∅ : gmap K A) = 0.
Proof. unfold sum_of. apply map_fold_empty. Qed.

Lemma sum_of_insert_fresh {K A : Type} `{Countable K} (f : A -> N) (m : gmap K A)
    (k : K) (a : A) :
  m !! k = None -> sum_of f (<[k := a]> m) = f a + sum_of f m.
Proof.
  intros Hk. unfold sum_of.
  apply (map_fold_insert_L (fun (_ : K) (x : A) (acc : N) => f x + acc)); [|assumption].
  intros. lia.
Qed.

Lemma sum_of_delete {K A : Type} `{Countable K} (f : A -> N) (m : gmap K A)
    (k : K) (a : A) :
  m !! k = Some a -> sum_of f m = f a + sum_of f (delete k m).
Proof.
  intros Hk. unfold sum_of.
  apply (map_fold_delete_L (fun (_ : K) (x : A) (acc : N) => f x + acc)); [|assumption].
  intros. lia.
Qed.

(** Writing [a] under [k] replaces the old summand of [k], if any, by [f a]. *)
Lemma sum_of_insert {K A : Type} `{Countable K} (f : A -> N) (m : gmap K A)
    (k : K) (a : A) :
  sum_of f (<[k := a]> m) + from_option f 0 (m !! k) = sum_of f m + f a.
Proof.
  destruct (m !! k) as [x|] eqn:Hk; simpl.
  - rewrite (sum_of_delete f m k x Hk).
    rewrite <- insert_delete_eq.
    rewrite sum_of_insert_fresh by apply lookup_delete_eq. lia.
  - rewrite sum_of_insert_fresh by assumption. lia.
Qed.


(** ** Counters, records and events *)



Lemma count_events_app (p : Event -> bool) (l : list Event) (ev : Event) :
  count_events p (l ++ [ev]) = count_events p l + (if p ev then 1 else 0).
Proof.
  unfold count_events. rewrite List.filter_app, length_app. simpl.
  destruct (p ev); simpl; lia.
Qed.

Lemma existsb_snoc {A : Type} (p : A -> bool) (l : list A) (x : A) :
  existsb p (l ++ [x]) = existsb p l || p x.
Proof. rewrite existsb_app. simpl. rewrite orb_false_r. reflexivity. Qed.

(** ** The per-user lists *)

Lemma list_length_snoc {A : Type} (l : list A) (x : A) :
  list_length (l ++ [x]) = list_length l + 1.
Proof. unfold list_length. rewrite length_app. simpl. lia. Qed.

(** ** Custody *)

Lemma transferFrom_allowance (s from to : address) (amt : uint256) (t : MockERC20.state)
    (r : bool * MockERC20.state) :
  MockERC20.transferFrom s from to amt t = Ok r ->
  forall f sp, MockERC20.allowance (snd r) f sp =
               if decide ((from, s) = (f, sp)) then MockERC20.allowance t from s - amt
               else MockERC20.allowance t f sp.
Proof.
  unfold MockERC20.transferFrom. intros H. inv_ok H. injection H as <-. simpl.
  intros f sp. unfold MockERC20.allowance, MockERC20.set_allowance; simpl.
  rewrite lookup_insert. destruct (decide ((from, s) = (f, sp))); reflexivity.
Qed.

Lemma mint_Ok (to : address) (amt : uint256) (t t' : MockERC20.state) :
  MockERC20.mint to amt t = Ok t' ->
  MockERC20.balanceOf t to + amt <= MAX_UINT256 /\
  t' = MockERC20.set_balance to (MockERC20.balanceOf t to + amt) t.
Proof.
  unfold MockERC20.mint. intros H. inv_ok H. injection H as <-. tauto.
Qed.

Lemma allowance_set_balance (a : address) (v : uint256) (t : MockERC20.state)
    (f sp : address) :
  MockERC20.allowance (MockERC20.set_balance a v t) f sp = MockERC20.allowance t f sp.
Proof. reflexivity. Qed.

Lemma allowance_same_allowances (t t' : MockERC20.state) (f sp : address) :
  MockERC20.allowances t' = MockERC20.allowances t ->
  MockERC20.allowance t' f sp = MockERC20.allowance t f sp.
Proof. unfold MockERC20.allowance. intros ->. reflexivity. Qed.

Lemma returned_Ok {A : Type} (m : result (bool * A)) (a : A) :
  returned m = Ok a -> exists b, m = Ok (b, a).
Proof.
  unfold returned. intros H. inv_ok H. injection H as <-. destruct v. eauto.
Qed.











(** * Solvency *)





(** * Settled and unknown identifiers *)

(** X7. [cancelHiddenTransfer] has no existence check of its own: on an
    identifier that was never published the stored sender is the zero
    address, which no caller is, so the cancel reverts with "Not the
    sender" and changes nothing. *)
Theorem cancel_unknown_identifier (e : Env) (w : World) (h : bytes32) :
  reachable w ->
  env_ok (this w) e ->
  timestamp (hiddenTransfer w h) = 0 ->
  call e (Cancel h) w = Revert (Reason "Not the sender") /\
  exec e (Cancel h) w = w.
Proof.
  intros Hr He Hts. apply env_ok_spec in He as (Hne & _).
  pose proof (wf_unwritten w h (reachable_wf w Hr) Hts) as Hno.
  assert (Hcall : call e (Cancel h) w = Revert (Reason "Not the sender")).
  { simpl. unfold cancelHiddenTransfer. rewrite Hno.
    change (sender no_transfer) with 0.
    assert (Hs : (0 =? msg_sender e) = false) by (apply N.eqb_neq; congruence).
    rewrite Hs. reflexivity. }
  split; [assumption | apply (exec_Revert _ _ _ _ Hcall)].
Qed.

Lemma cancel_unknown_identifier_witness :
  call (Scenario.at_ Scenario.alice 3000) (Cancel 999) Scenario.published
  = Revert (Reason "Not the sender") /\
  exec (Scenario.at_ Scenario.alice 3000) (Cancel 999) Scenario.published
  = Scenario.published.
Proof.
  assert (He : env_ok (this Scenario.published) (Scenario.at_ Scenario.alice 3000))
    by (vm_compute; reflexivity).
  assert (Hts : timestamp (hiddenTransfer Scenario.published 999) = 0)
    by (vm_compute; reflexivity).
  exact (cancel_unknown_identifier (Scenario.at_ Scenario.alice 3000) Scenario.published
           999 published_reachable He Hts).
Defined.

Lemma same_record (r r' : HiddenTransfer) :
  same_creation r r' -> claimed r' = claimed r -> r' = r.
Proof.
  destruct r, r'. unfold same_creation; simpl. intros (-> & -> & -> & ->) ->. reflexivity.
Qed.

(** * The owner and the fee configuration *)

Lemma reachable_owner (w : World) :
  reachable w -> owner (storage w) <> 0 /\ owner (storage w) <> this w.
Proof.
  induction 1 as [self e fee toks He | w e c Hr IH He].
  - apply env_ok_spec in He as (H0 & Hs & _). simpl. tauto.
  - destruct (fee_config_owner_only e c w) as [-> _]. rewrite exec_this. assumption.
Qed.

(** X9. Ownership is fixed at deployment: no sequence of transactions
    changes [owner], and a sequence in which no transaction is sent by the
    owner leaves the fee rate and the fee collector as they were. *)
Theorem owner_controls_fee_config (txs : list (Env * Call)) (w : World) :
  owner (storage (run txs w)) = owner (storage w) /\
  (forallb (fun tx => negb (msg_sender (fst tx) =? owner (storage w))) txs = true ->
   platformFee (storage (run txs w)) = platformFee (storage w) /\
   feeCollector (storage (run txs w)) = feeCollector (storage w)).
Proof.
  revert w. induction txs as [|[e c] txs IH]; intros w; simpl; [tauto|].
  destruct (fee_config_owner_only e c w) as [Ho Hcfg].
  destruct (IH (exec e c w)) as [IHo IHcfg]. rewrite Ho in IHo, IHcfg.
  split; [assumption|]. intros Hall.
  apply andb_true_iff in Hall as [Hne Hrest].
  apply negb_true_iff, N.eqb_neq in Hne.
  destruct (IHcfg Hrest) as [-> ->].
  split.
  - destruct (N.eq_dec (platformFee (storage (exec e c w))) (platformFee (storage w)));
      [assumption|]. exfalso. apply Hne, Hcfg. left. assumption.
  - destruct (N.eq_dec (feeCollector (storage (exec e c w))) (feeCollector (storage w)));
      [assumption|]. exfalso. apply Hne, Hcfg. right. assumption.
Qed.

Lemma owner_controls_fee_config_witness :
  let txs := [ (Scenario.at_ Scenario.alice 3000, SetFee 400);
               (Scenario.at_ Scenario.bob 3000, SetCollector Scenario.bob);
               (Scenario.at_ Scenario.bob 3000, Claim Scenario.testHash) ] in
  platformFee (storage (run txs Scenario.published))
  = platformFee (storage Scenario.published) /\
  feeCollector (storage (run txs Scenario.published))
  = feeCollector (storage Scenario.published).
Proof.
  intros txs.
  assert (Hall : forallb (fun tx => negb (msg_sender (fst tx)
                                          =? owner (storage Scenario.published))) txs
                 = true) by (vm_compute; reflexivity).
  exact (proj2 (owner_controls_fee_config txs Scenario.published) Hall).
Defined.






(** * The emergency withdrawal *)

(** X11. [emergencyWithdraw] is for the owner alone: from anyone else it
    reverts with "Not owner".  A withdrawal that succeeds moves the amount
    from the contract's balance to the owner's and touches nothing else:
    the storage (every record, list, counter and the fee configuration)
    and the event log are as before, so a record whose tokens were
    withdrawn is still under escrow.  It succeeds whenever the owner asks
    for at most the contract's balance of a deployed token and the
    owner's balance has room for it. *)
Theorem emergencyWithdraw_effect (e : Env) (tok : address) (amt : uint256) (w : World) :
  reachable w ->
  (msg_sender e <> owner (storage w) ->
   call e (Withdraw tok amt) w = Revert (Reason "Not owner")) /\
  (forall w', call e (Withdraw tok amt) w = Ok w' ->
     msg_sender e = owner (storage w) /\
     storage w' = storage w /\ logs w' = logs w /\
     amt <= tokenBalance w tok (this w) /\
     tokenBalance w' tok (this w) = tokenBalance w tok (this w) - amt /\
     tokenBalance w' tok (owner (storage w))
     = tokenBalance w tok (owner (storage w)) + amt /\
     forall h, escrowed w h -> escrowed w' h) /\
  (msg_sender e = owner (storage w) ->
   is_Some (tokens w !! tok) ->
   amt <= tokenBalance w tok (this w) ->
   tokenBalance w tok (owner (storage w)) + amt <= MAX_UINT256 ->
   exists w', call e (Withdraw tok amt) w = Ok w').
Proof.
  intros Hr. destruct (reachable_owner w Hr) as [_ Hown].
  split; [|split].
  - intros Hne. simpl. unfold emergencyWithdraw, onlyOwner.
    apply N.eqb_neq in Hne. rewrite Hne. reflexivity.
  - intros w' Hok. simpl in Hok. unfold emergencyWithdraw in Hok. inv_ok Hok.
    apply N.eqb_eq in Hstep.
    apply token_call_Ok in Hok as (t & t' & Ht & Htr & ->).
    pose proof (payout_balances w tok _ amt t t' true Ht Htr Hown) as (Hto & Hfrom & _).
    apply MockERC20Facts.transfer_Ok in Htr as (_ & Hle & _).
    rewrite <- (tokenBalance_Some _ _ _ _ Ht) in Hle.
    split; [assumption|]. split; [reflexivity|]. split; [reflexivity|].
    split; [assumption|]. split; [assumption|]. split; [assumption|].
    intros h Hesc. exact Hesc.
  - intros Hs Htok Hle Hroom.
    destruct (payout_succeeds w tok (owner (storage w)) amt Htok Hown Hle Hroom)
      as (t & t' & Ht & Htr).
    exists (with_token tok t' w). simpl. unfold emergencyWithdraw, onlyOwner.
    apply N.eqb_eq in Hs. rewrite Hs. simpl.
    apply token_call_Ok. eauto.
Qed.

Lemma emergencyWithdraw_effect_witness :
  call (Scenario.at_ Scenario.alice 2500) (Withdraw Scenario.tok Drained.escrow)
    Scenario.published = Revert (Reason "Not owner") /\
  storage Drained.drained = storage Scenario.published /\
  escrowed Drained.drained Scenario.testHash /\
  tokenBalance Drained.drained Scenario.tok (this Scenario.published)
  = tokenBalance Scenario.published Scenario.tok (this Scenario.published)
    - Drained.escrow.
Proof.
  destruct (emergencyWithdraw_effect (Scenario.at_ Scenario.alice 2500) Scenario.tok
              Drained.escrow Scenario.published published_reachable) as (Hdeny & _ & _).
  destruct (emergencyWithdraw_effect (Scenario.at_ Scenario.deployer 2500) Scenario.tok
              Drained.escrow Scenario.published published_reachable) as (_ & Heff & _).
  assert (Hne : msg_sender (Scenario.at_ Scenario.alice 2500)
                <> owner (storage Scenario.published)) by (vm_compute; discriminate).
  assert (Hok : call (Scenario.at_ Scenario.deployer 2500)
                  (Withdraw Scenario.tok Drained.escrow) Scenario.published
                = Ok Drained.drained) by (vm_compute; reflexivity).
  destruct (Heff Drained.drained Hok) as (_ & Hst & _ & _ & Hbal & _ & Hesc).
  split; [exact (Hdeny Hne)|]. split; [exact Hst|].
  split; [exact (Hesc Scenario.testHash published_escrowed) | exact Hbal].
Defined.

(** * The token *)

Lemma totalSupply_set_balance (a : address) (v : uint256) (t : MockERC20.state) :
  totalSupply (MockERC20.set_balance a v t) + MockERC20.balanceOf t a = totalSupply t + v.
Proof.
  unfold totalSupply, MockERC20.set_balance, MockERC20.balanceOf; simpl.
  pose proof (sum_of_insert (fun b : N => b) (MockERC20.balances t) a v) as H.
  destruct (MockERC20.balances t !! a); simpl in *; exact H.
Qed.

Lemma totalSupply_set_allowance (f s : address) (v : uint256) (t : MockERC20.state) :
  totalSupply (MockERC20.set_allowance f s v t) = totalSupply t.
Proof. reflexivity. Qed.

Lemma totalSupply_moved (from to : address) (amt : uint256) (t : MockERC20.state) :
  amt <= MockERC20.balanceOf t from ->
  let t1 := MockERC20.set_balance from (MockERC20.balanceOf t from - amt) t in
  totalSupply (MockERC20.set_balance to (MockERC20.balanceOf t1 to + amt) t1)
  = totalSupply t.
Proof.
  intros Hle t1.
  pose proof (totalSupply_set_balance from (MockERC20.balanceOf t from - amt) t) as H1.
  fold t1 in H1.
  pose proof (totalSupply_set_balance to (MockERC20.balanceOf t1 to + amt) t1) as H2.
  lia.
Qed.

Lemma transfer_supply (s to : address) (amt : uint256) (t : MockERC20.state)
    (r : bool * MockERC20.state) :
  MockERC20.transfer s to amt t = Ok r -> totalSupply (snd r) = totalSupply t.
Proof.
  intros H. unfold MockERC20.transfer in H. inv_ok H. injection H as <-. simpl.
  apply N.leb_le in Hstep. apply (totalSupply_moved s to amt t Hstep).
Qed.

Lemma transferFrom_supply (s from to : address) (amt : uint256) (t : MockERC20.state)
    (r : bool * MockERC20.state) :
  MockERC20.transferFrom s from to amt t = Ok r -> totalSupply (snd r) = totalSupply t.
Proof.
  intros H. unfold MockERC20.transferFrom in H. inv_ok H. injection H as <-. simpl.
  apply N.leb_le in Hstep. rewrite totalSupply_set_allowance.
  apply (totalSupply_moved from to amt t Hstep).
Qed.

(** X12. The mock token neither creates nor destroys tokens in a
    transfer: a successful [transfer] or [transferFrom] (also one from an
    account to itself) and an [approve] leave the sum of all balances as
    it was; only [mint] changes it, adding exactly the amount minted. *)
Theorem token_supply_conserved (s from to : address) (amt : uint256)
    (t : MockERC20.state) :
  (forall r, MockERC20.transfer s to amt t = Ok r -> totalSupply (snd r) = totalSupply t) /\
  (forall r, MockERC20.transferFrom s from to amt t = Ok r ->
             totalSupply (snd r) = totalSupply t) /\
  (forall r, MockERC20.approve s to amt t = Ok r -> totalSupply (snd r) = totalSupply t) /\
  (forall t', MockERC20.mint to amt t = Ok t' -> totalSupply t' = totalSupply t + amt).
Proof.
  split; [|split; [|split]].
  - intros r H. exact (transfer_supply _ _ _ _ _ H).
  - intros r H. exact (transferFrom_supply _ _ _ _ _ _ H).
  - intros r H. unfold MockERC20.approve in H. injection H as <-. reflexivity.
  - intros t' H. apply mint_Ok in H as (_ & ->).
    pose proof (totalSupply_set_balance to (MockERC20.balanceOf t to + amt) t). lia.
Qed.

Lemma token_supply_conserved_witness :
  let t := MockERC20.set_balance 1 100 MockERC20.empty in
  totalSupply (MockERC20.set_balance 2 30 (MockERC20.set_balance 1 70 t)) = totalSupply t.
Proof.
  intros t.
  destruct (token_supply_conserved 1 1 2 30 t) as (Htr & _).
  assert (Hok : MockERC20.transfer 1 2 30 t
                = Ok (true, MockERC20.set_balance 2 30 (MockERC20.set_balance 1 70 t)))
    by (vm_compute; reflexivity).
  exact (Htr _ Hok).
Defined.

Lemma supply_with_token (tk : address) (t t' : MockERC20.state) (w : World)
    (tok : address) :
  tokens w !! tk = Some t ->
  totalSupply t' = totalSupply t ->
  supply (with_token tk t' w) tok = supply w tok.
Proof.
  intros Ht Heq. unfold supply, with_token; simpl. rewrite lookup_insert.
  destruct (decide (tk = tok)) as [<-|]; [|reflexivity].
  rewrite Ht. assumption.
Qed.

(** X13. No function of the contract creates or destroys tokens: every
    transaction other than a mint of the token itself, whether it
    succeeds or reverts, leaves the supply of every token as it was.
    Publish, claim, cancel and the emergency withdrawal only move tokens
    between accounts. *)
Theorem contract_conserves_supply (e : Env) (c : Call) (w : World) (tok : address) :
  is_mint c = false ->
  supply (exec e c w) tok = supply w tok.
Proof.
  intros Hnm.
  destruct (exec_cases e c w) as [Hok | [_ ->]]; [|reflexivity].
  destruct c; try discriminate; simpl in Hok.
  - apply publish_Ok in Hok as (t & t1 & t2 & _ & _ & _ & _ & _ & Ht & Hfrom & Hto & ->).
    apply transferFrom_supply in Hfrom. simpl in Hfrom.
    assert (Hs2 : totalSupply t2 = totalSupply t1).
    { destruct (0 <? fee_of w _amount); [|congruence].
      apply transfer_supply in Hto. exact Hto. }
    apply (supply_with_token _ t); [assumption | congruence].
  - apply claim_Ok in Hok as (t & t' & _ & _ & _ & _ & Ht & Htr & ->).
    apply transfer_supply in Htr. apply (supply_with_token _ t); assumption.
  - apply cancel_Ok in Hok as (t & t' & _ & _ & _ & Ht & Htr & ->).
    apply transfer_supply in Htr. apply (supply_with_token _ t); assumption.
  - unfold updatePlatformFee in Hok. inv_ok Hok. injection Hok as <-. reflexivity.
  - unfold updateFeeCollector in Hok. inv_ok Hok. injection Hok as <-. reflexivity.
  - unfold emergencyWithdraw in Hok. inv_ok Hok.
    apply token_call_Ok in Hok as (t & t' & Ht & Htr & ->).
    apply transfer_supply in Htr. apply (supply_with_token _ t); assumption.
  - apply token_tx_Ok in Hok as (t & t' & Ht & Htr & ->).
    apply returned_Ok in Htr as (b & Htr).
    apply transfer_supply in Htr. apply (supply_with_token _ t); assumption.
  - apply token_tx_Ok in Hok as (t & t' & Ht & Htr & ->).
    apply returned_Ok in Htr as (b & Htr).
    apply transferFrom_supply in Htr. apply (supply_with_token _ t); assumption.
  - apply token_tx_Ok in Hok as (t & t' & Ht & Hap & ->).
    unfold returned, MockERC20.approve in Hap. simpl in Hap. injection Hap as <-.
    apply (supply_with_token _ t); [assumption | reflexivity].
Qed.

Lemma contract_conserves_supply_witness :
  supply Scenario.published Scenario.tok = supply Scenario.setUp Scenario.tok.
Proof.
  exact (contract_conserves_supply (Scenario.at_ Scenario.alice 2000)
           (Publish Scenario.testHash Scenario.tok (100 * Scenario.ether))
           Scenario.setUp Scenario.tok eq_refl).
Defined.

(** X14. [transferFrom] spends the allowance: it succeeds only within the
    allowance granted by [from] to the caller, lowers that allowance by
    exactly the amount moved (there is no unlimited allowance: one of
    [type(uint256).max] is lowered like any other) and leaves every other
    allowance as it was; with enough balance but too small an allowance it
    reverts with "Insufficient allowance".  [approve] overwrites the
    allowance rather than adding to it, and [transfer] changes none. *)
Theorem transferFrom_spends_allowance (s from to : address) (amt : uint256)
    (t : MockERC20.state) :
  (forall r, MockERC20.transferFrom s from to amt t = Ok r ->
     amt <= MockERC20.allowance t from s /\
     MockERC20.allowance (snd r) from s = MockERC20.allowance t from s - amt /\
     forall f sp, (f, sp) <> (from, s) ->
                  MockERC20.allowance (snd r) f sp = MockERC20.allowance t f sp) /\
  (amt <= MockERC20.balanceOf t from -> MockERC20.allowance t from s < amt ->
   MockERC20.transferFrom s from to amt t = Revert (Reason "Insufficient allowance")) /\
  (forall r v, MockERC20.approve from s v t = Ok r ->
     MockERC20.allowance (snd r) from s = v) /\
  (forall r f sp, MockERC20.transfer s to amt t = Ok r ->
     MockERC20.allowance (snd r) f sp = MockERC20.allowance t f sp).
Proof.
  split; [|split; [|split]].
  - intros r H. pose proof (transferFrom_allowance _ _ _ _ _ _ H) as Ha.
    apply MockERC20Facts.transferFrom_Ok in H as (_ & _ & Hle & _).
    split; [assumption|]. split.
    + rewrite Ha. rewrite decide_True by reflexivity. reflexivity.
    + intros f sp Hne. rewrite Ha. rewrite decide_False by congruence. reflexivity.
  - intros Hb Ha. unfold MockERC20.transferFrom.
    apply N.leb_le in Hb. apply N.leb_gt in Ha. rewrite Hb, Ha. reflexivity.
  - intros r v H. unfold MockERC20.approve in H. injection H as <-. simpl.
    unfold MockERC20.allowance, MockERC20.set_allowance; simpl.
    rewrite lookup_insert_eq. reflexivity.
  - intros r f sp H. apply MockERC20Facts.transfer_Ok in H as (_ & _ & Hal & _).
    apply allowance_same_allowances. assumption.
Qed.

Lemma transferFrom_spends_allowance_witness :
  let t := MockERC20.set_allowance 1 9 MAX_UINT256
             (MockERC20.set_balance 1 100 MockERC20.empty) in
  MockERC20.transferFrom 9 1 2 200 t = Revert (Reason "Insufficient balance") /\
  MockERC20.transferFrom 8 1 2 30 t = Revert (Reason "Insufficient allowance") /\
  forall r, MockERC20.transferFrom 9 1 2 30 t = Ok r ->
            MockERC20.allowance (snd r) 1 9 = MAX_UINT256 - 30.
Proof.
  intros t.
  destruct (transferFrom_spends_allowance 8 1 2 30 t) as (_ & Hshort & _).
  destruct (transferFrom_spends_allowance 9 1 2 30 t) as (Hspend & _).
  assert (Hb : 30 <= MockERC20.balanceOf t 1) by (vm_compute; discriminate).
  assert (Ha : MockERC20.allowance t 1 8 < 30) by (vm_compute; reflexivity).
  split; [vm_compute; reflexivity|]. split; [exact (Hshort Hb Ha)|].
  intros r Hr. destruct (Hspend r Hr) as (_ & Heq & _).
  rewrite Heq. vm_compute. reflexivity.
Defined.

(** * Publishing: when it succeeds and what it moves *)

Lemma transferFrom_succeeds (s from to : address) (amt : uint256) (t : MockERC20.state) :
  from <> to ->
  amt <= MockERC20.balanceOf t from ->
  amt <= MockERC20.allowance t from s ->
  MockERC20.balanceOf t to + amt <= MAX_UINT256 ->
  exists t', MockERC20.transferFrom s from to amt t = Ok (true, t').
Proof.
  intros Hne Hbal Hal Hmax. unfold MockERC20.transferFrom.
  apply N.leb_le in Hbal as Hb. apply N.leb_le in Hal as Ha. rewrite Hb, Ha. simpl.
  unfold checked_sub. rewrite Hb. simpl.
  rewrite MockERC20Facts.balanceOf_set_balance. rewrite decide_False by assumption.
  unfold checked_add. apply N.leb_le in Hmax. rewrite Hmax. simpl.
  rewrite !allowance_set_balance. rewrite Ha. simpl. eauto.
Qed.

Lemma transfer_succeeds_any (s to : address) (amt : uint256) (t : MockERC20.state) :
  amt <= MockERC20.balanceOf t s ->
  (if decide (s = to) then MockERC20.balanceOf t to else MockERC20.balanceOf t to + amt)
  <= MAX_UINT256 ->
  exists t', MockERC20.transfer s to amt t = Ok (true, t').
Proof.
  intros Hbal Hmax. unfold MockERC20.transfer.
  apply N.leb_le in Hbal as Hb. rewrite Hb. simpl.
  unfold checked_sub. rewrite Hb. simpl.
  rewrite MockERC20Facts.balanceOf_set_balance. unfold checked_add.
  destruct (decide (s = to)) as [<-|Hne].
  - assert (Hle : (MockERC20.balanceOf t s - amt + amt <=? MAX_UINT256) = true)
      by (apply N.leb_le; lia).
    rewrite Hle. simpl. eauto.
  - apply N.leb_le in Hmax. rewrite Hmax. simpl. eauto.
Qed.

(** X15. When [publishHiddenTransfer] succeeds.  For a caller other than
    the contract, a positive amount, an identifier without a record and a
    token other than the zero address, the publish succeeds as
    soon as the fee computation does not overflow and leaves a fee of at
    most the amount, the caller holds the amount and has approved the
    contract for it, and the balances of the contract and of the fee
    collector have room for it.  Then [getHiddenTransfer] returns the new
    record: the caller as sender, the token, the amount less the fee, the
    block timestamp, unclaimed; the identifier is in the caller's sent
    list and [totalTransfers] has grown by one. *)
Theorem publish_succeeds (e : Env) (w : World) (h : bytes32) (tok : address)
    (amt : uint256) :
  env_ok (this w) e ->
  0 < amt ->
  timestamp (hiddenTransfer w h) = 0 ->
  tok <> 0 ->
  amt * platformFee (storage w) <= MAX_UINT256 ->
  fee_of w amt <= amt ->
  amt <= tokenBalance w tok (msg_sender e) ->
  amt <= tokenAllowance w tok (msg_sender e) (this w) ->
  tokenBalance w tok (this w) + amt <= MAX_UINT256 ->
  tokenBalance w tok (feeCollector (storage w)) + amt <= MAX_UINT256 ->
  totalTransfers (storage w) + 1 <= MAX_UINT256 ->
  exists w', call e (Publish h tok amt) w = Ok w' /\
             getHiddenTransfer w' h
             = (msg_sender e, tok, amt - fee_of w amt, block_timestamp e, false) /\
             getUserSentTransfers w' (msg_sender e)
             = getUserSentTransfers w (msg_sender e) ++ [h] /\
             totalTransfers (storage w') = totalTransfers (storage w) + 1.
Proof.
  intros He Hamt Hts Htok Hmul Hfee Hbal Hal Hroom Hroomc Hcnt.
  apply env_ok_spec in He as (_ & Hne & _).
  destruct (tokenBalance_pos_deployed w tok (msg_sender e)) as [t Ht]; [lia|].
  unfold tokenBalance in Hbal, Hroom, Hroomc. unfold tokenAllowance in Hal.
  rewrite Ht in Hbal, Hroom, Hroomc, Hal.
  destruct (transferFrom_succeeds (this w) (msg_sender e) (this w) amt t Hne Hbal Hal Hroom)
    as [t1 Hfrom].
  pose proof (MockERC20Facts.transferFrom_Ok _ _ _ _ _ _ Hfrom) as (_ & _ & _ & Hb1).
  simpl in Hb1.
  assert (Hpay : exists t2,
            if 0 <? fee_of w amt
            then MockERC20.transfer (this w) (feeCollector (storage w)) (fee_of w amt) t1
                 = Ok (true, t2)
            else t2 = t1).
  { destruct (0 <? fee_of w amt); [|eauto].
    apply transfer_succeeds_any.
    - rewrite Hb1. rewrite decide_True by reflexivity. rewrite decide_False by assumption.
      lia.
    - rewrite (Hb1 (feeCollector (storage w))).
      destruct (decide (this w = feeCollector (storage w))) as [Heq|Hneq].
      + rewrite decide_False by assumption. lia.
      + destruct (decide (msg_sender e = feeCollector (storage w))) as [Heq|];
          [rewrite Heq|]; lia. }
  destruct Hpay as [t2 Hto].
  assert (Hcall : call e (Publish h tok amt) w
                  = Ok (emit (TransferPublished h (msg_sender e) tok (amt - fee_of w amt))
                          (with_storage
                             (fun c => set_totalTransfers (totalTransfers c + 1)
                                         (push_sent (msg_sender e) h
                                            (set_hiddenTransfer h (new_record e w tok amt) c)))
                             (with_token tok t2 w)))).
  { simpl. unfold publishHiddenTransfer.
    apply N.ltb_lt in Hamt. rewrite Hamt. simpl.
    apply N.eqb_eq in Hts. rewrite Hts. simpl.
    apply N.eqb_neq in Htok. rewrite Htok. simpl.
    unfold checked_mul. apply N.leb_le in Hmul. rewrite Hmul. simpl.
    fold (fee_of w amt). unfold checked_sub.
    apply N.leb_le in Hfee. rewrite Hfee. simpl.
    assert (H1 : token_call tok
                   (MockERC20.transferFrom (this w) (msg_sender e) (this w) amt)
                   "Token transfer failed" w = Ok (with_token tok t1 w))
      by (apply token_call_Ok; eauto).
    rewrite H1. simpl.
    assert (H2 : (if 0 <? fee_of w amt
                  then token_call tok
                         (MockERC20.transfer (this w) (feeCollector (storage w))
                            (fee_of w amt))
                         "Fee transfer failed" (with_token tok t1 w)
                  else Ok (with_token tok t1 w))
                 = Ok (with_token tok t2 w)).
    { destruct (0 <? fee_of w amt).
      - apply token_call_Ok. exists t1, t2. split; [|split].
        + simpl. apply lookup_insert_eq.
        + assumption.
        + unfold with_token; simpl. rewrite insert_insert_eq. reflexivity.
      - subst t2. reflexivity. }
    rewrite H2. simpl.
    unfold checked_add. apply N.leb_le in Hcnt. rewrite Hcnt. reflexivity. }
  eexists. split; [exact Hcall|].
  pose proof (call_hiddenTransfer _ _ _ _ h Hcall) as Hrec. simpl in Hrec.
  rewrite decide_True in Hrec by reflexivity.
  split; [|split].
  - unfold getHiddenTransfer. rewrite Hrec. reflexivity.
  - unfold getUserSentTransfers, sentTransfers; simpl. rewrite lookup_insert_eq. reflexivity.
  - reflexivity.
Qed.

Lemma publish_succeeds_witness :
  exists w', call (Scenario.at_ Scenario.alice 2000)
               (Publish Scenario.testHash Scenario.tok (100 * Scenario.ether))
               Scenario.setUp = Ok w' /\
             getHiddenTransfer w' Scenario.testHash
             = (msg_sender (Scenario.at_ Scenario.alice 2000), Scenario.tok,
                100 * Scenario.ether - fee_of Scenario.setUp (100 * Scenario.ether),
                block_timestamp (Scenario.at_ Scenario.alice 2000), false) /\
             getUserSentTransfers w' (msg_sender (Scenario.at_ Scenario.alice 2000))
             = getUserSentTransfers Scenario.setUp
                 (msg_sender (Scenario.at_ Scenario.alice 2000)) ++ [Scenario.testHash] /\
             totalTransfers (storage w') = totalTransfers (storage Scenario.setUp) + 1.
Proof.
  assert (H1 : env_ok (this Scenario.setUp) (Scenario.at_ Scenario.alice 2000))
    by (vm_compute; reflexivity).
  assert (H2 : 0 < 100 * Scenario.ether) by (vm_compute; reflexivity).
  assert (H3 : timestamp (hiddenTransfer Scenario.setUp Scenario.testHash) = 0)
    by (vm_compute; reflexivity).
  assert (H4 : Scenario.tok <> 0) by (vm_compute; discriminate).
  assert (H5 : 100 * Scenario.ether * platformFee (storage Scenario.setUp) <= MAX_UINT256)
    by (vm_compute; discriminate).
  assert (H6 : fee_of Scenario.setUp (100 * Scenario.ether) <= 100 * Scenario.ether)
    by (vm_compute; discriminate).
  assert (H7 : 100 * Scenario.ether
               <= tokenBalance Scenario.setUp Scenario.tok
                    (msg_sender (Scenario.at_ Scenario.alice 2000)))
    by (vm_compute; discriminate).
  assert (H8 : 100 * Scenario.ether
               <= tokenAllowance Scenario.setUp Scenario.tok
                    (msg_sender (Scenario.at_ Scenario.alice 2000)) (this Scenario.setUp))
    by (vm_compute; discriminate).
  assert (H9 : tokenBalance Scenario.setUp Scenario.tok (this Scenario.setUp)
               + 100 * Scenario.ether <= MAX_UINT256) by (vm_compute; discriminate).
  assert (H10 : tokenBalance Scenario.setUp Scenario.tok
                  (feeCollector (storage Scenario.setUp))
                + 100 * Scenario.ether <= MAX_UINT256) by (vm_compute; discriminate).
  assert (H11 : totalTransfers (storage Scenario.setUp) + 1 <= MAX_UINT256)
    by (vm_compute; discriminate).
  exact (publish_succeeds (Scenario.at_ Scenario.alice 2000) Scenario.setUp
           Scenario.testHash Scenario.tok (100 * Scenario.ether)
           H1 H2 H3 H4 H5 H6 H7 H8 H9 H10 H11).
Defined.

Lemma tokenAllowance_Some (w : World) (tok f sp : address) (t : MockERC20.state) :
  tokens w !! tok = Some t -> tokenAllowance w tok f sp = MockERC20.allowance t f sp.
Proof. unfold tokenAllowance. intros ->. reflexivity. Qed.

(** X16. What a successful publish moves.  It lowers the caller's
    allowance to the contract by the full amount, takes the full amount
    from the caller's balance (unless the caller is the fee collector and
    gets the fee back), adds the amount less the fee to the contract's
    balance (unless the contract is its own fee collector), and leaves
    the balance of every other account, and every balance of every other
    token, as it was. *)
Theorem publish_moves_deposit (e : Env) (w w' : World) (h : bytes32) (tok : address)
    (amt : uint256) :
  msg_sender e <> this w ->
  call e (Publish h tok amt) w = Ok w' ->
  amt <= tokenBalance w tok (msg_sender e) /\
  amt <= tokenAllowance w tok (msg_sender e) (this w) /\
  tokenAllowance w' tok (msg_sender e) (this w)
  = tokenAllowance w tok (msg_sender e) (this w) - amt /\
  (feeCollector (storage w) <> msg_sender e ->
   tokenBalance w' tok (msg_sender e) = tokenBalance w tok (msg_sender e) - amt) /\
  (feeCollector (storage w) <> this w ->
   tokenBalance w' tok (this w) = tokenBalance w tok (this w) + (amt - fee_of w amt)) /\
  (forall a, a <> msg_sender e -> a <> this w -> a <> feeCollector (storage w) ->
             tokenBalance w' tok a = tokenBalance w tok a) /\
  (forall tok' a, tok' <> tok -> tokenBalance w' tok' a = tokenBalance w tok' a).
Proof.
  intros Hne Hok. simpl in Hok.
  apply publish_Ok in Hok as (t & t1 & t2 & _ & _ & _ & Hfee & _ & Ht & Hfrom & Hto & ->).
  pose proof (transferFrom_allowance _ _ _ _ _ _ Hfrom) as Ha1. simpl in Ha1.
  apply MockERC20Facts.transferFrom_Ok in Hfrom as (_ & Hbal & Hal & Hb1). simpl in Hb1.
  assert (Ha2 : MockERC20.allowances t2 = MockERC20.allowances t1).
  { destruct (0 <? fee_of w amt); [|congruence].
    apply MockERC20Facts.transfer_Ok in Hto as (_ & _ & Hal2 & _). exact Hal2. }
  assert (Hb2 : forall a, MockERC20.balanceOf t2 a =
            if decide (feeCollector (storage w) = a) then
              (if decide (this w = feeCollector (storage w))
               then MockERC20.balanceOf t1 a
               else MockERC20.balanceOf t1 a + fee_of w amt)
            else if decide (this w = a) then MockERC20.balanceOf t1 a - fee_of w amt
            else MockERC20.balanceOf t1 a).
  { intros a. destruct (N.ltb_spec 0 (fee_of w amt)) as [Hpos|Hzero].
    - apply MockERC20Facts.transfer_Ok in Hto as (_ & _ & _ & Hb2). simpl in Hb2.
      rewrite Hb2. repeat case_decide; subst; congruence.
    - subst t2. assert (Hz : fee_of w amt = 0) by lia. rewrite Hz.
      repeat case_decide; lia. }
  assert (Hbalw : forall a, tokenBalance
            (emit (TransferPublished h (msg_sender e) tok (amt - fee_of w amt))
               (with_storage
                  (fun c => set_totalTransfers (totalTransfers c + 1)
                              (push_sent (msg_sender e) h
                                 (set_hiddenTransfer h (new_record e w tok amt) c)))
                  (with_token tok t2 w))) tok a = MockERC20.balanceOf t2 a).
  { intros a. rewrite tokenBalance_emit, tokenBalance_with_storage, tokenBalance_with_token.
    rewrite decide_True by reflexivity. reflexivity. }
  rewrite !(tokenBalance_Some _ _ _ _ Ht), !(tokenAllowance_Some _ _ _ _ _ Ht).
  split; [assumption|]. split; [assumption|]. split; [|split; [|split; [|split]]].
  - unfold tokenAllowance; simpl. rewrite lookup_insert_eq.
    rewrite (allowance_same_allowances _ _ _ _ Ha2), Ha1.
    rewrite decide_True by reflexivity. reflexivity.
  - intros Hc. rewrite Hbalw, Hb2, Hb1.
    rewrite decide_False by assumption. rewrite decide_False by congruence.
    rewrite decide_False by congruence. rewrite decide_True by reflexivity. reflexivity.
  - intros Hc. rewrite Hbalw, Hb2, Hb1.
    rewrite decide_False by assumption. rewrite decide_True by reflexivity.
    rewrite decide_True by reflexivity. rewrite decide_False by assumption. lia.
  - intros a H1 H2 H3. rewrite Hbalw, (tokenBalance_Some _ _ _ _ Ht), Hb2, Hb1.
    rewrite decide_False by congruence. rewrite decide_False by congruence.
    rewrite decide_False by congruence. rewrite decide_False by congruence. reflexivity.
  - intros tok' a Htk.
    rewrite tokenBalance_emit, tokenBalance_with_storage, tokenBalance_with_token.
    rewrite decide_False by congruence. reflexivity.
Qed.

Lemma publish_moves_deposit_witness :
  tokenAllowance Scenario.published Scenario.tok Scenario.alice Scenario.contract_addr
  = MAX_UINT256 - 100 * Scenario.ether /\
  tokenBalance Scenario.published Scenario.tok Scenario.alice = 900 * Scenario.ether /\
  tokenBalance Scenario.published Scenario.tok Scenario.contract_addr
  = 100 * Scenario.ether - 100 * Scenario.ether * 50 / 10000.
Proof.
  assert (Hne : msg_sender (Scenario.at_ Scenario.alice 2000) <> this Scenario.setUp)
    by (vm_compute; discriminate).
  assert (Hok : call (Scenario.at_ Scenario.alice 2000)
                  (Publish Scenario.testHash Scenario.tok (100 * Scenario.ether))
                  Scenario.setUp = Ok Scenario.published)
    by (vm_compute; reflexivity).
  assert (Hc1 : feeCollector (storage Scenario.setUp)
                <> msg_sender (Scenario.at_ Scenario.alice 2000))
    by (vm_compute; discriminate).
  assert (Hc2 : feeCollector (storage Scenario.setUp) <> this Scenario.setUp)
    by (vm_compute; discriminate).
  destruct (publish_moves_deposit _ _ _ _ _ _ Hne Hok) as (_ & _ & Hal & Hs & Hc & _).
  specialize (Hs Hc1). specialize (Hc Hc2).
  split; [|split].
  - vm_compute in Hal |- *. exact Hal.
  - vm_compute in Hs |- *. exact Hs.
  - vm_compute in Hc |- *. exact Hc.
Defined.

(** * How transactions fail *)















(** * Redirecting the fee *)

Lemma publish_pays_collector (e : Env) (w w' : World) (h : bytes32) (tok : address)
    (amt : uint256) :
  call e (Publish h tok amt) w = Ok w' ->
  msg_sender e <> this w ->
  (feeCollector (storage w) <> msg_sender e ->
   feeCollector (storage w) <> this w ->
   tokenBalance w' tok (feeCollector (storage w))
   = tokenBalance w tok (feeCollector (storage w)) + fee_of w amt) /\
  (forall a, a <> msg_sender e -> a <> this w -> a <> feeCollector (storage w) ->
             tokenBalance w' tok a = tokenBalance w tok a).
Proof.
  intros Hok Hne. simpl in Hok.
  apply publish_Ok in Hok as (t & t1 & t2 & _ & _ & _ & _ & _ & Ht & Hfrom & Hto & ->).
  apply MockERC20Facts.transferFrom_Ok in Hfrom as (_ & _ & _ & Hb1). simpl in Hb1.
  assert (Hb2 : forall a, a <> this w ->
            MockERC20.balanceOf t2 a =
            if decide (feeCollector (storage w) = a)
            then MockERC20.balanceOf t1 a + fee_of w amt
            else MockERC20.balanceOf t1 a).
  { intros a Ha. destruct (N.ltb_spec 0 (fee_of w amt)) as [Hpos|Hzero].
    - apply MockERC20Facts.transfer_Ok in Hto as (_ & _ & _ & Hb2). simpl in Hb2.
      rewrite Hb2. repeat case_decide; subst; congruence.
    - subst t2. assert (Hz : fee_of w amt = 0) by lia. rewrite Hz.
      destruct (decide (feeCollector (storage w) = a)); lia. }
  split.
  - intros Hc1 Hc2.
    rewrite tokenBalance_emit, tokenBalance_with_storage, tokenBalance_with_token.
    rewrite decide_True by reflexivity. rewrite (tokenBalance_Some _ _ _ _ Ht).
    rewrite Hb2 by assumption. rewrite decide_True by reflexivity. rewrite Hb1.
    rewrite decide_False by congruence. rewrite decide_False by congruence. reflexivity.
  - intros a H1 H2 H3.
    rewrite tokenBalance_emit, tokenBalance_with_storage, tokenBalance_with_token.
    rewrite decide_True by reflexivity. rewrite (tokenBalance_Some _ _ _ _ Ht).
    rewrite Hb2 by assumption. rewrite decide_False by congruence. rewrite Hb1.
    rewrite decide_False by congruence. rewrite decide_False by congruence. reflexivity.
Qed.

(** X28. A change of the fee collector takes effect at the next publish.
    [updateFeeCollector] succeeds only for the owner and a non-zero
    address and changes nothing but the collector; the fee of a publish
    that follows is then credited to the new collector, and the previous
    collector's balance stays as it was (both taken to be accounts other
    than the publisher and the contract). *)
Theorem collector_update_redirects_fee (e1 e2 : Env) (a : address) (w w1 w2 : World)
    (h : bytes32) (tok : address) (amt : uint256) :
  call e1 (SetCollector a) w = Ok w1 ->
  call e2 (Publish h tok amt) w1 = Ok w2 ->
  msg_sender e2 <> this w ->
  a <> msg_sender e2 -> a <> this w ->
  msg_sender e1 = owner (storage w) /\ a <> 0 /\
  storage w1 = set_feeCollector a (storage w) /\
  tokenBalance w2 tok a = tokenBalance w tok a + fee_of w amt /\
  (feeCollector (storage w) <> a ->
   feeCollector (storage w) <> msg_sender e2 ->
   feeCollector (storage w) <> this w ->
   tokenBalance w2 tok (feeCollector (storage w))
   = tokenBalance w tok (feeCollector (storage w))).
Proof.
  intros Hset Hpub Hne Ha1 Ha2.
  simpl in Hset. unfold updateFeeCollector, onlyOwner in Hset. inv_ok Hset.
  injection Hset as <-.
  apply N.eqb_eq in Hstep. apply negb_true_iff, N.eqb_neq in Hstep0.
  destruct (publish_pays_collector _ _ _ _ _ _ Hpub Hne) as [Hfee Hrest].
  split; [assumption|]. split; [assumption|]. split; [reflexivity|]. split.
  - exact (Hfee Ha1 Ha2).
  - intros Hc1 Hc2 Hc3. apply (Hrest (feeCollector (storage w))); assumption.
Qed.

Lemma collector_update_redirects_fee_witness :
  let w1 := exec (Scenario.at_ Scenario.deployer 1500) (SetCollector Scenario.bob)
              Scenario.setUp in
  let w2 := exec (Scenario.at_ Scenario.alice 2000)
              (Publish Scenario.testHash Scenario.tok (100 * Scenario.ether)) w1 in
  tokenBalance w2 Scenario.tok Scenario.bob = 100 * Scenario.ether * 50 / 10000 /\
  tokenBalance w2 Scenario.tok Scenario.deployer = 0.
Proof.
  intros w1 w2.
  assert (H1 : call (Scenario.at_ Scenario.deployer 1500) (SetCollector Scenario.bob)
                 Scenario.setUp = Ok w1) by (vm_compute; reflexivity).
  assert (H2 : call (Scenario.at_ Scenario.alice 2000)
                 (Publish Scenario.testHash Scenario.tok (100 * Scenario.ether)) w1
               = Ok w2) by (vm_compute; reflexivity).
  assert (H3 : msg_sender (Scenario.at_ Scenario.alice 2000) <> this Scenario.setUp)
    by (vm_compute; discriminate).
  assert (H4 : Scenario.bob <> msg_sender (Scenario.at_ Scenario.alice 2000))
    by (vm_compute; discriminate).
  assert (H5 : Scenario.bob <> this Scenario.setUp) by (vm_compute; discriminate).
  destruct (collector_update_redirects_fee _ _ _ _ _ _ _ _ _ H1 H2 H3 H4 H5)
    as (_ & _ & _ & Hnew & Hold).
  assert (H6 : feeCollector (storage Scenario.setUp) <> Scenario.bob)
    by (vm_compute; discriminate).
  assert (H7 : feeCollector (storage Scenario.setUp)
               <> msg_sender (Scenario.at_ Scenario.alice 2000))
    by (vm_compute; discriminate).
  assert (H8 : feeCollector (storage Scenario.setUp) <> this Scenario.setUp)
    by (vm_compute; discriminate).
  specialize (Hold H6 H7 H8).
  split.
  - vm_compute in Hnew |- *. exact Hnew.
  - vm_compute in Hold |- *. exact Hold.
Defined.

(** * The token wrapper *)

Module TokenWrapperFacts.
Import TokenWrapper.

Lemma wrapper_token_call_Ok (tok : address) (f : MockERC20.state -> result (bool * MockERC20.state))
    (msg : string) (w w' : World) :
  token_call tok f msg w = Ok w' <->
  exists t t', tokens w !! tok = Some t /\ f t = Ok (true, t') /\ w' = with_token tok t' w.
Proof.
  unfold token_call. split.
  - destruct (tokens w !! tok) as [t|]; [|discriminate].
    intros H. inv_ok H. injection H as <-.
    destruct v as [b t']. simpl in *. subst b. eauto.
  - intros (t & t' & -> & Hf & ->). rewrite Hf. reflexivity.
Qed.

Lemma wrapper_tokenBalance_with_token (tok : address) (t : MockERC20.state) (w : World)
    (tok' a : address) :
  tokenBalance (with_token tok t w) tok' a =
  if decide (tok = tok') then MockERC20.balanceOf t a else tokenBalance w tok' a.
Proof.
  unfold tokenBalance, with_token; simpl. rewrite lookup_insert.
  destruct (decide (tok = tok')); reflexivity.
Qed.

Lemma wrapper_tokenBalance_Some (w : World) (tok a : address) (t : MockERC20.state) :
  tokens w !! tok = Some t -> tokenBalance w tok a = MockERC20.balanceOf t a.
Proof. unfold tokenBalance. intros ->. reflexivity. Qed.

Lemma supportedToken_set (w : World) (sym sym' : string) (info : TokenInfo)
    (f : Storage -> Storage) :
  supportedTokens (f (storage w)) = <[sym := info]> (supportedTokens (storage w)) ->
  supportedToken (with_storage f w) sym' =
  if decide (sym = sym') then info else supportedToken w sym'.
Proof.
  intros Heq. unfold supportedToken, with_storage; simpl. rewrite Heq, lookup_insert.
  destruct (decide (sym = sym')); reflexivity.
Qed.

Lemma add_Ok (e : Env) (sym : string) (tok : address) (dec : N) (w w' : World) :
  addSupportedToken e sym tok dec w = Ok w' <->
  msg_sender e = owner (storage w) /\ tok <> 0 /\
  isSupported (supportedToken w sym) = false /\
  w' = emit (TokenAdded sym tok dec)
         (with_storage
            (fun s => push_symbol sym
                        (set_supportedToken sym
                           {| tokenAddress := tok; symbol := sym;
                              decimals := dec; isSupported := true |} s)) w).
Proof.
  unfold addSupportedToken, onlyOwner. split.
  - intros H. inv_ok H. injection H as <-.
    apply N.eqb_eq in Hstep. apply negb_true_iff, N.eqb_neq in Hstep0.
    apply negb_true_iff in Hstep1. auto.
  - intros (Ho & Ht & Hs & ->).
    apply N.eqb_eq in Ho. apply N.eqb_neq in Ht. rewrite Ho, Ht, Hs. reflexivity.
Qed.

Lemma remove_Ok (e : Env) (sym : string) (w w' : World) :
  removeSupportedToken e sym w = Ok w' <->
  msg_sender e = owner (storage w) /\
  isSupported (supportedToken w sym) = true /\
  w' = emit (TokenRemoved sym)
         (with_storage (set_supportedToken sym (unsupport (supportedToken w sym))) w).
Proof.
  unfold removeSupportedToken, onlyOwner. split.
  - intros H. inv_ok H. injection H as <-. apply N.eqb_eq in Hstep. auto.
  - intros (Ho & Hs & ->). apply N.eqb_eq in Ho. rewrite Ho, Hs. reflexivity.
Qed.

Lemma wrap_Ok (e : Env) (sym : string) (amt : uint256) (w w' : World) :
  wrapTokens e sym amt w = Ok w' <->
  let tok := tokenAddress (supportedToken w sym) in
  isSupported (supportedToken w sym) = true /\ 0 < amt /\
  exists t t', tokens w !! tok = Some t /\
    MockERC20.transferFrom (this w) (msg_sender e) (this w) amt t = Ok (true, t') /\
    w' = emit (TokensWrapped (msg_sender e) tok amt) (with_token tok t' w).
Proof.
  unfold wrapTokens. split.
  - intros H. inv_ok H. injection H as <-. apply N.ltb_lt in Hstep0.
    apply wrapper_token_call_Ok in Hstep1 as (t & t' & Ht & Hf & ->).
    split; [assumption|]. split; [assumption|]. eauto.
  - intros (Hs & Hamt & t & t' & Ht & Hf & ->).
    apply N.ltb_lt in Hamt. rewrite Hs, Hamt. simpl.
    assert (H1 : token_call (tokenAddress (supportedToken w sym))
                   (MockERC20.transferFrom (this w) (msg_sender e) (this w) amt)
                   "Transfer failed" w
                 = Ok (with_token (tokenAddress (supportedToken w sym)) t' w))
      by (apply wrapper_token_call_Ok; eauto).
    rewrite H1. reflexivity.
Qed.

Lemma unwrap_Ok (e : Env) (sym : string) (amt : uint256) (w w' : World) :
  unwrapTokens e sym amt w = Ok w' <->
  let tok := tokenAddress (supportedToken w sym) in
  isSupported (supportedToken w sym) = true /\ 0 < amt /\
  exists t t', tokens w !! tok = Some t /\
    MockERC20.transfer (this w) (msg_sender e) amt t = Ok (true, t') /\
    w' = emit (TokensUnwrapped (msg_sender e) tok amt) (with_token tok t' w).
Proof.
  unfold unwrapTokens. split.
  - intros H. inv_ok H. injection H as <-. apply N.ltb_lt in Hstep0.
    apply wrapper_token_call_Ok in Hstep1 as (t & t' & Ht & Hf & ->).
    split; [assumption|]. split; [assumption|]. eauto.
  - intros (Hs & Hamt & t & t' & Ht & Hf & ->).
    apply N.ltb_lt in Hamt. rewrite Hs, Hamt. simpl.
    assert (H1 : token_call (tokenAddress (supportedToken w sym))
                   (MockERC20.transfer (this w) (msg_sender e) amt)
                   "Transfer failed" w
                 = Ok (with_token (tokenAddress (supportedToken w sym)) t' w))
      by (apply wrapper_token_call_Ok; eauto).
    rewrite H1. reflexivity.
Qed.

Lemma wrapper_exec_cases (e : Env) (c : Call) (w : World) :
  call e c w = Ok (exec e c w) \/ ((exists err, call e c w = Revert err) /\ exec e c w = w).
Proof.
  unfold exec. destruct (call e c w) as [w'|err]; [left | right; split]; eauto.
Qed.

Lemma wrapper_token_tx_Ok (tok : address) (f : MockERC20.state -> result MockERC20.state)
    (w w' : World) :
  token_tx tok f w = Ok w' ->
  exists t t', tokens w !! tok = Some t /\ f t = Ok t' /\ w' = with_token tok t' w.
Proof.
  unfold token_tx. destruct (tokens w !! tok) as [t|]; [|discriminate].
  intros H. inv_ok H. injection H as <-. eauto.
Qed.

(** The storage, the log and the contract's address after a successful
    transaction. *)
Lemma wrapper_call_frame (e : Env) (c : Call) (w w' : World) :
  call e c w = Ok w' ->
  this w' = this w /\
  match c with
  | Add sym tok dec =>
      msg_sender e = owner (storage w) /\ tok <> 0 /\
      isSupported (supportedToken w sym) = false /\
      storage w' = push_symbol sym
                     (set_supportedToken sym
                        {| tokenAddress := tok; symbol := sym;
                           decimals := dec; isSupported := true |} (storage w)) /\
      logs w' = logs w ++ [TokenAdded sym tok dec]
  | Remove sym =>
      msg_sender e = owner (storage w) /\
      isSupported (supportedToken w sym) = true /\
      storage w' = set_supportedToken sym (unsupport (supportedToken w sym)) (storage w) /\
      logs w' = logs w ++ [TokenRemoved sym]
  | Wrap sym amt =>
      storage w' = storage w /\
      logs w' = logs w ++ [TokensWrapped (msg_sender e)
                             (tokenAddress (supportedToken w sym)) amt]
  | Unwrap sym amt =>
      storage w' = storage w /\
      logs w' = logs w ++ [TokensUnwrapped (msg_sender e)
                             (tokenAddress (supportedToken w sym)) amt]
  | _ => storage w' = storage w /\ logs w' = logs w
  end.
Proof.
  destruct c; simpl; intros H.
  - apply add_Ok in H as (? & ? & ? & ->). simpl. auto 10.
  - apply remove_Ok in H as (? & ? & ->). simpl. auto 10.
  - apply wrap_Ok in H as (_ & _ & t & t' & _ & _ & ->). simpl. auto.
  - apply unwrap_Ok in H as (_ & _ & t & t' & _ & _ & ->). simpl. auto.
  - unfold emergencyWithdraw in H. inv_ok H.
    apply wrapper_token_call_Ok in H as (t & t' & _ & _ & ->). simpl. auto.
  - apply wrapper_token_tx_Ok in H as (t & t' & _ & _ & ->). simpl. auto.
  - apply wrapper_token_tx_Ok in H as (t & t' & _ & _ & ->). simpl. auto.
  - apply wrapper_token_tx_Ok in H as (t & t' & _ & _ & ->). simpl. auto.
  - apply wrapper_token_tx_Ok in H as (t & t' & _ & _ & ->). simpl. auto.
Qed.

Lemma wrapper_exec_this (e : Env) (c : Call) (w : World) : this (exec e c w) = this w.
Proof.
  destruct (wrapper_exec_cases e c w) as [Hok | [_ ->]]; [|reflexivity].
  apply wrapper_call_frame in Hok as [Hthis _]. exact Hthis.
Qed.

Lemma wrapper_reachable_run (txs : list (Env * Call)) (w : World) :
  reachable w ->
  forallb (fun tx => env_okb (this w) (fst tx)) txs = true ->
  reachable (run txs w).
Proof.
  revert w. induction txs as [|[e c] txs IH]; intros w Hr Hok; simpl in *; [assumption|].
  apply andb_true_iff in Hok as [He Hrest].
  apply IH.
  - apply reachable_step; assumption.
  - rewrite wrapper_exec_this. assumption.
Qed.

Lemma listed_reachable : reachable Scenario.listed.
Proof.
  unfold Scenario.listed. apply wrapper_reachable_run; [|vm_compute; reflexivity].
  apply reachable_deploy. vm_compute. reflexivity.
Qed.

Lemma wrapped_reachable : reachable Scenario.wrapped.
Proof.
  unfold Scenario.wrapped. apply reachable_step; [apply listed_reachable|].
  vm_compute. reflexivity.
Qed.

Lemma relisted_reachable : reachable Scenario.relisted.
Proof.
  unfold Scenario.relisted, Scenario.removed.
  apply reachable_step; [apply reachable_step; [apply wrapped_reachable|]|];
    vm_compute; reflexivity.
Qed.

(** X18. Listing a token.  [addSupportedToken] succeeds exactly when the
    caller is the owner, the token address is not zero and the symbol is
    not currently supported.  After it [getTokenAddress] returns the
    address, [isTokenSupported] is true, [getTokenInfo] returns the
    address, the symbol, the decimals and true, the symbol has been
    appended to [getAllSupportedTokens], and the entries of all other
    symbols are as before. *)
Theorem add_then_get (e : Env) (sym : string) (tok : address) (dec : N) (w : World) :
  ((exists w', call e (Add sym tok dec) w = Ok w') <->
   msg_sender e = owner (storage w) /\ tok <> 0 /\ isTokenSupported w sym = false) /\
  (forall w', call e (Add sym tok dec) w = Ok w' ->
     getTokenAddress w' sym = Ok tok /\
     isTokenSupported w' sym = true /\
     getTokenInfo w' sym = (tok, sym, dec, true) /\
     getAllSupportedTokens w' = getAllSupportedTokens w ++ [sym] /\
     forall sym', sym' <> sym -> getTokenInfo w' sym' = getTokenInfo w sym').
Proof.
  split.
  - simpl. split.
    + intros [w' H]. apply add_Ok in H as (? & ? & ? & _). auto.
    + intros (Ho & Ht & Hs). eexists. apply add_Ok. unfold isTokenSupported in Hs. eauto.
  - intros w' H. simpl in H. apply add_Ok in H as (_ & _ & _ & ->).
    assert (Hrec : forall sym',
              supportedToken
                (emit (TokenAdded sym tok dec)
                   (with_storage
                      (fun s => push_symbol sym
                                  (set_supportedToken sym
                                     {| tokenAddress := tok; symbol := sym;
                                        decimals := dec; isSupported := true |} s)) w))
                sym'
              = if decide (sym = sym')
                then {| tokenAddress := tok; symbol := sym;
                        decimals := dec; isSupported := true |}
                else supportedToken w sym').
    { intros sym'. unfold supportedToken; simpl. rewrite lookup_insert.
      destruct (decide (sym = sym')); reflexivity. }
    unfold getTokenAddress, isTokenSupported, getTokenInfo.
    split; [|split; [|split; [|split]]].
    + rewrite Hrec, decide_True by reflexivity. reflexivity.
    + rewrite Hrec, decide_True by reflexivity. reflexivity.
    + rewrite Hrec, decide_True by reflexivity. reflexivity.
    + reflexivity.
    + intros sym' Hne. rewrite Hrec, decide_False by congruence. reflexivity.
Qed.

Lemma add_then_get_witness :
  let w' := exec (Scenario.at_ Scenario.deployer 1000) (Add "TKN" Scenario.tok 18)
              (constructor Scenario.wrapper (Scenario.at_ Scenario.deployer 1000)
                 {[ Scenario.tok := MockERC20.empty ]}) in
  getTokenAddress w' "TKN" = Ok Scenario.tok /\
  getTokenInfo w' "TKN" = (Scenario.tok, "TKN"%string, 18, true) /\
  getAllSupportedTokens w' = ["TKN"%string].
Proof.
  intros w'.
  assert (Hok : call (Scenario.at_ Scenario.deployer 1000) (Add "TKN" Scenario.tok 18)
                  (constructor Scenario.wrapper (Scenario.at_ Scenario.deployer 1000)
                     {[ Scenario.tok := MockERC20.empty ]}) = Ok w')
    by (vm_compute; reflexivity).
  destruct (add_then_get (Scenario.at_ Scenario.deployer 1000) "TKN" Scenario.tok 18
              (constructor Scenario.wrapper (Scenario.at_ Scenario.deployer 1000)
                 {[ Scenario.tok := MockERC20.empty ]})) as [_ Heff].
  destruct (Heff w' Hok) as (Ha & _ & Hi & Hl & _).
  split; [exact Ha|]. split; [exact Hi|]. rewrite Hl. reflexivity.
Defined.

(** X19. Delisting a token.  A successful [removeSupportedToken] clears
    only the entry's [isSupported] flag: [getTokenInfo] still returns the
    address, symbol and decimals, now with false, and
    [getAllSupportedTokens] still lists the symbol.  From then on
    [getTokenAddress], [getContractBalance], [getUserBalance],
    [wrapTokens] and [unwrapTokens] revert for that symbol with "Token not
    supported", while the tokens the contract holds stay where they are:
    what was wrapped cannot be unwrapped until the symbol is listed
    again. *)
Theorem remove_keeps_entry (e : Env) (sym : string) (w w' : World) :
  call e (Remove sym) w = Ok w' ->
  msg_sender e = owner (storage w) /\
  isTokenSupported w' sym = false /\
  getTokenInfo w' sym
  = (tokenAddress (supportedToken w sym), symbol (supportedToken w sym),
     decimals (supportedToken w sym), false) /\
  getAllSupportedTokens w' = getAllSupportedTokens w /\
  tokens w' = tokens w /\
  getTokenAddress w' sym = Revert (Reason "Token not supported") /\
  getContractBalance w' sym = Revert (Reason "Token not supported") /\
  (forall u, getUserBalance w' sym u = Revert (Reason "Token not supported")) /\
  (forall e' amt, call e' (Wrap sym amt) w' = Revert (Reason "Token not supported")) /\
  (forall e' amt, call e' (Unwrap sym amt) w' = Revert (Reason "Token not supported")).
Proof.
  intros H. simpl in H. apply remove_Ok in H as (Ho & Hs & ->).
  assert (Hrec : supportedToken
                   (emit (TokenRemoved sym)
                      (with_storage
                         (set_supportedToken sym (unsupport (supportedToken w sym))) w))
                   sym = unsupport (supportedToken w sym)).
  { unfold supportedToken at 1; simpl. rewrite lookup_insert_eq. reflexivity. }
  split; [assumption|].
  unfold isTokenSupported, getTokenInfo, getTokenAddress, getContractBalance,
    getUserBalance; simpl; unfold wrapTokens, unwrapTokens.
  rewrite !Hrec. simpl. repeat split.
Qed.

Lemma remove_keeps_entry_witness :
  getTokenInfo Scenario.removed "TKN" = (Scenario.tok, "TKN"%string, 18, false) /\
  getAllSupportedTokens Scenario.removed = ["TKN"%string] /\
  tokenBalance Scenario.removed Scenario.tok Scenario.wrapper = 100 /\
  call (Scenario.at_ Scenario.alice 3500) (Unwrap "TKN" 100) Scenario.removed
  = Revert (Reason "Token not supported").
Proof.
  assert (Hok : call (Scenario.at_ Scenario.deployer 3000) (Remove "TKN") Scenario.wrapped
                = Ok Scenario.removed) by (vm_compute; reflexivity).
  destruct (remove_keeps_entry _ _ _ _ Hok) as (_ & _ & Hi & Hl & _ & _ & _ & _ & _ & Hu).
  split; [rewrite Hi; vm_compute; reflexivity|].
  split; [rewrite Hl; vm_compute; reflexivity|].
  split; [vm_compute; reflexivity|].
  exact (Hu (Scenario.at_ Scenario.alice 3500) 100).
Defined.

Lemma occurrences_snoc (sym s : string) (l : list string) :
  occurrences sym (l ++ [s]) = (occurrences sym l + if decide (s = sym) then 1 else 0)%nat.
Proof.
  unfold occurrences. rewrite List.filter_app, length_app. simpl.
  destruct (decide (s = sym)); reflexivity.
Qed.

Lemma times_added_snoc (sym : string) (l : list Event) (ev : Event) :
  times_added sym (l ++ [ev]) = (times_added sym l + if added sym ev then 1 else 0)%nat.
Proof.
  unfold times_added. rewrite List.filter_app, length_app. simpl.
  destruct (added sym ev); reflexivity.
Qed.

(** X20. The symbol list is append-only.  In every reachable world
    [getAllSupportedTokens] holds each symbol once for every time it was
    added ([TokenAdded] events), removals never shorten it, and it holds
    exactly the symbols that have an entry; every entry is stored under
    its own symbol with a non-zero token address.  So every supported
    symbol is listed, while a listed symbol need not be supported and may
    be listed more than once. *)
Theorem symbol_list_append_only (w : World) (sym : string) :
  reachable w ->
  occurrences sym (getAllSupportedTokens w) = times_added sym (logs w) /\
  (In sym (getAllSupportedTokens w) <-> is_Some (supportedTokens (storage w) !! sym)) /\
  (is_Some (supportedTokens (storage w) !! sym) ->
   symbol (supportedToken w sym) = sym /\ tokenAddress (supportedToken w sym) <> 0) /\
  (isTokenSupported w sym = true -> In sym (getAllSupportedTokens w)).
Proof.
  intros Hr.
  assert (Hinv : occurrences sym (getAllSupportedTokens w) = times_added sym (logs w) /\
                 (In sym (getAllSupportedTokens w)
                  <-> is_Some (supportedTokens (storage w) !! sym)) /\
                 (is_Some (supportedTokens (storage w) !! sym) ->
                  symbol (supportedToken w sym) = sym /\
                  tokenAddress (supportedToken w sym) <> 0)).
  { unfold getAllSupportedTokens.
    induction Hr as [self e toks He | w e c Hr IH He].
    - simpl. split; [reflexivity|]. split.
      + rewrite lookup_empty. split; [contradiction | intros [? ?]; discriminate].
      + rewrite lookup_empty. intros [? ?]. discriminate.
    - destruct IH as (IHo & IHl & IHe).
      destruct (wrapper_exec_cases e c w) as [Hok | [_ ->]]; [|tauto].
      pose proof (wrapper_call_frame _ _ _ _ Hok) as [_ Hf].
      set (w' := exec e c w) in *.
      assert (Hsame : storage w' = storage w ->
                (In sym (tokenSymbols (storage w'))
                 <-> is_Some (supportedTokens (storage w') !! sym)) /\
                (is_Some (supportedTokens (storage w') !! sym) ->
                 symbol (supportedToken w' sym) = sym /\
                 tokenAddress (supportedToken w' sym) <> 0)).
      { intros Hs. unfold supportedToken. rewrite Hs. tauto. }
      destruct c.
      + destruct Hf as (_ & Htok & _ & Hs & Hl). rewrite Hs, Hl. simpl.
        rewrite occurrences_snoc, times_added_snoc. simpl.
        unfold supportedToken. rewrite Hs. simpl. rewrite lookup_insert.
        destruct (decide (sym0 = sym)) as [->|Hne]; simpl.
        * split; [rewrite IHo; reflexivity|].
          split; [|auto]. rewrite in_app_iff. simpl. split; eauto.
        * split; [rewrite IHo; reflexivity|].
          split; [|exact IHe]. rewrite in_app_iff, IHl. simpl.
          split; [intros [?|[?|[]]]; [assumption | congruence] | auto].
      + destruct Hf as (_ & Hsup & Hs & Hl). rewrite Hs, Hl. simpl.
        rewrite times_added_snoc. simpl. split; [rewrite IHo; lia|].
        unfold supportedToken in *. rewrite Hs. simpl. rewrite !lookup_insert.
        destruct (decide (sym0 = sym)) as [->|Hne]; simpl; [|tauto].
        assert (His : is_Some (supportedTokens (storage w) !! sym)).
        { destruct (supportedTokens (storage w) !! sym); [eauto | discriminate]. }
        split; [rewrite IHl; split; eauto|]. intros _. apply IHe, His.
      + destruct Hf as (Hs & Hl). rewrite Hl, times_added_snoc. simpl.
        split; [rewrite Hs, IHo; lia | apply Hsame, Hs].
      + destruct Hf as (Hs & Hl). rewrite Hl, times_added_snoc. simpl.
        split; [rewrite Hs, IHo; lia | apply Hsame, Hs].
      + destruct Hf as (Hs & Hl). rewrite Hl.
        split; [rewrite Hs, IHo; reflexivity | apply Hsame, Hs].
      + destruct Hf as (Hs & Hl). rewrite Hl.
        split; [rewrite Hs, IHo; reflexivity | apply Hsame, Hs].
      + destruct Hf as (Hs & Hl). rewrite Hl.
        split; [rewrite Hs, IHo; reflexivity | apply Hsame, Hs].
      + destruct Hf as (Hs & Hl). rewrite Hl.
        split; [rewrite Hs, IHo; reflexivity | apply Hsame, Hs].
      + destruct Hf as (Hs & Hl). rewrite Hl.
        split; [rewrite Hs, IHo; reflexivity | apply Hsame, Hs]. }
  destruct Hinv as (Ho & Hl & He).
  split; [assumption|]. split; [assumption|]. split; [assumption|].
  intros Hs. apply Hl. unfold isTokenSupported, supportedToken in Hs.
  destruct (supportedTokens (storage w) !! sym); [eauto | discriminate].
Qed.

Lemma symbol_list_append_only_witness :
  occurrences "TKN" (getAllSupportedTokens Scenario.relisted) = 2%nat /\
  isTokenSupported Scenario.removed "TKN" = false /\
  In "TKN"%string (getAllSupportedTokens Scenario.removed).
Proof.
  destruct (symbol_list_append_only Scenario.relisted "TKN" relisted_reachable)
    as (Ho & _).
  split; [rewrite Ho; vm_compute; reflexivity|].
  split; [vm_compute; reflexivity|]. vm_compute. auto.
Defined.

(** X21. [unwrapTokens] keeps no account of who wrapped what.  Any caller
    other than the contract can take out any positive amount of a
    supported token up to the contract's whole balance of it, whether or
    not that caller ever wrapped anything: the call succeeds as soon as
    the contract holds the amount and the caller's balance has room for
    it, and it moves the amount from the contract to the caller. *)
Theorem unwrap_needs_no_deposit (e : Env) (sym : string) (amt : uint256) (w : World) :
  msg_sender e <> this w ->
  isTokenSupported w sym = true ->
  0 < amt ->
  let tok := tokenAddress (supportedToken w sym) in
  amt <= tokenBalance w tok (this w) ->
  tokenBalance w tok (msg_sender e) + amt <= MAX_UINT256 ->
  exists w', call e (Unwrap sym amt) w = Ok w' /\
             tokenBalance w' tok (msg_sender e) = tokenBalance w tok (msg_sender e) + amt /\
             tokenBalance w' tok (this w) = tokenBalance w tok (this w) - amt.
Proof.
  intros Hne Hs Hamt tok Hbal Hroom.
  assert (Ht : exists t, tokens w !! tok = Some t).
  { unfold tokenBalance in Hbal. destruct (tokens w !! tok); [eauto | lia]. }
  destruct Ht as [t Ht].
  rewrite !(wrapper_tokenBalance_Some _ _ _ _ Ht) in *.
  destruct (MockERC20Facts.transfer_succeeds (this w) (msg_sender e) amt t) as [t' Htr];
    [congruence | assumption | assumption |].
  exists (emit (TokensUnwrapped (msg_sender e) tok amt) (with_token tok t' w)).
  split.
  - simpl. apply unwrap_Ok. unfold isTokenSupported in Hs. fold tok. eauto 10.
  - apply MockERC20Facts.transfer_Ok in Htr as (_ & _ & _ & Hb). simpl in Hb.
    unfold tokenBalance; simpl. rewrite lookup_insert_eq, !Hb.
    rewrite decide_True by reflexivity. rewrite decide_False by congruence.
    rewrite decide_False by congruence. rewrite decide_True by reflexivity.
    split; reflexivity.
Qed.

Lemma unwrap_needs_no_deposit_witness :
  tokenBalance Scenario.listed Scenario.tok Scenario.bob = 0 /\
  exists w', call (Scenario.at_ Scenario.bob 2500) (Unwrap "TKN" 100) Scenario.wrapped
             = Ok w' /\
             tokenBalance w' Scenario.tok Scenario.bob = 100 /\
             tokenBalance w' Scenario.tok Scenario.wrapper = 0.
Proof.
  split; [vm_compute; reflexivity|].
  assert (H1 : msg_sender (Scenario.at_ Scenario.bob 2500) <> this Scenario.wrapped)
    by (vm_compute; discriminate).
  assert (H2 : isTokenSupported Scenario.wrapped "TKN" = true) by (vm_compute; reflexivity).
  assert (H3 : 0 < 100) by lia.
  assert (H4 : 100 <= tokenBalance Scenario.wrapped
                        (tokenAddress (supportedToken Scenario.wrapped "TKN"))
                        (this Scenario.wrapped)) by (vm_compute; discriminate).
  assert (H5 : tokenBalance Scenario.wrapped
                 (tokenAddress (supportedToken Scenario.wrapped "TKN"))
                 (msg_sender (Scenario.at_ Scenario.bob 2500)) + 100 <= MAX_UINT256)
    by (vm_compute; discriminate).
  destruct (unwrap_needs_no_deposit (Scenario.at_ Scenario.bob 2500) "TKN" 100
              Scenario.wrapped H1 H2 H3 H4 H5) as (w' & Hok & Hb & Hc).
  exists w'. split; [exact Hok|]. split.
  - vm_compute in Hb |- *. exact Hb.
  - vm_compute in Hc |- *. exact Hc.
Defined.

(** X22. Wrapping and then unwrapping the same amount is a round trip:
    after a successful [wrapTokens] of a caller other than the contract
    (whose balance is a [uint256]), the same caller's [unwrapTokens] of
    the same amount succeeds and leaves every balance of every token, and
    the wrapper's storage, as they were before the wrap. *)
Theorem wrap_unwrap_round_trip (e : Env) (sym : string) (amt : uint256) (w w1 : World) :
  msg_sender e <> this w ->
  tokenBalance w (tokenAddress (supportedToken w sym)) (msg_sender e) <= MAX_UINT256 ->
  call e (Wrap sym amt) w = Ok w1 ->
  exists w2, call e (Unwrap sym amt) w1 = Ok w2 /\
             (forall tk a, tokenBalance w2 tk a = tokenBalance w tk a) /\
             storage w2 = storage w.
Proof.
  intros Hne Hmax Hok. simpl in Hok.
  apply wrap_Ok in Hok as (Hs & Hamt & t & t1 & Ht & Hfrom & ->).
  set (tok := tokenAddress (supportedToken w sym)) in *.
  rewrite (wrapper_tokenBalance_Some _ _ _ _ Ht) in Hmax.
  apply MockERC20Facts.transferFrom_Ok in Hfrom as (_ & Hbal & _ & Hb1). simpl in Hb1.
  destruct (MockERC20Facts.transfer_succeeds (this w) (msg_sender e) amt t1) as [t2 Htr].
  - congruence.
  - rewrite Hb1. rewrite decide_True by reflexivity. rewrite decide_False by assumption. lia.
  - rewrite Hb1. rewrite decide_False by congruence. rewrite decide_True by reflexivity. lia.
  - exists (emit (TokensUnwrapped (msg_sender e) tok amt)
              (with_token tok t2 (emit (TokensWrapped (msg_sender e) tok amt)
                                    (with_token tok t1 w)))).
    split; [|split].
    + simpl. apply unwrap_Ok. cbv zeta.
      change (supportedToken (emit (TokensWrapped (msg_sender e) tok amt)
                                (with_token tok t1 w)) sym)
        with (supportedToken w sym).
      fold tok. split; [assumption|]. split; [assumption|].
      exists t1, t2. split; [simpl; apply lookup_insert_eq|]. split; [exact Htr | reflexivity].
    + intros tk a. apply MockERC20Facts.transfer_Ok in Htr as (_ & _ & _ & Hb2).
      simpl in Hb2. unfold tokenBalance; simpl. rewrite lookup_insert.
      destruct (decide (tok = tk)) as [<-|Hnt].
      * rewrite Ht, Hb2, !Hb1.
        repeat case_decide; subst; try congruence; lia.
      * rewrite lookup_insert_ne by assumption. reflexivity.
    + reflexivity.
Qed.

Lemma wrap_unwrap_round_trip_witness :
  exists w2, call (Scenario.at_ Scenario.alice 2000) (Unwrap "TKN" 100) Scenario.wrapped
             = Ok w2 /\
             (forall tk a, tokenBalance w2 tk a = tokenBalance Scenario.listed tk a) /\
             storage w2 = storage Scenario.listed.
Proof.
  assert (H1 : msg_sender (Scenario.at_ Scenario.alice 2000) <> this Scenario.listed)
    by (vm_compute; discriminate).
  assert (H2 : tokenBalance Scenario.listed
                 (tokenAddress (supportedToken Scenario.listed "TKN"))
                 (msg_sender (Scenario.at_ Scenario.alice 2000)) <= MAX_UINT256)
    by (vm_compute; discriminate).
  assert (H3 : call (Scenario.at_ Scenario.alice 2000) (Wrap "TKN" 100) Scenario.listed
               = Ok Scenario.wrapped) by (vm_compute; reflexivity).
  exact (wrap_unwrap_round_trip (Scenario.at_ Scenario.alice 2000) "TKN" 100
           Scenario.listed Scenario.wrapped H1 H2 H3).
Defined.

Lemma wrapper_owner_step (e : Env) (c : Call) (w : World) :
  owner (storage (exec e c w)) = owner (storage w) /\
  (msg_sender e <> owner (storage w) -> storage (exec e c w) = storage w).
Proof.
  destruct (wrapper_exec_cases e c w) as [Hok | [_ ->]]; [|split; reflexivity].
  apply wrapper_call_frame in Hok as [_ Hf]. destruct c.
  - destruct Hf as (Ho & _ & _ & -> & _). split; [reflexivity | contradiction].
  - destruct Hf as (Ho & _ & -> & _). split; [reflexivity | contradiction].
  - destruct Hf as (-> & _). split; reflexivity.
  - destruct Hf as (-> & _). split; reflexivity.
  - destruct Hf as (-> & _). split; reflexivity.
  - destruct Hf as (-> & _). split; reflexivity.
  - destruct Hf as (-> & _). split; reflexivity.
  - destruct Hf as (-> & _). split; reflexivity.
  - destruct Hf as (-> & _). split; reflexivity.
Qed.

(** X23. The wrapper's registry is the owner's alone.  [addSupportedToken],
    [removeSupportedToken] and [emergencyWithdraw] revert with "Not owner"
    for every other caller; no sequence of transactions changes the owner;
    and a sequence in which no transaction is sent by the owner leaves the
    whole storage (the entries and the symbol list) as it was: wrapping
    and unwrapping record nothing. *)
Theorem wrapper_registry_owner_only (txs : list (Env * Call)) (w : World) :
  owner (storage (run txs w)) = owner (storage w) /\
  (forallb (fun tx => negb (msg_sender (fst tx) =? owner (storage w))) txs = true ->
   storage (run txs w) = storage w) /\
  (forall e, msg_sender e <> owner (storage w) ->
     (forall sym tok dec, call e (Add sym tok dec) w = Revert (Reason "Not owner")) /\
     (forall sym, call e (Remove sym) w = Revert (Reason "Not owner")) /\
     (forall tok amt, call e (Withdraw tok amt) w = Revert (Reason "Not owner"))).
Proof.
  split; [|split].
  - revert w. induction txs as [|[e c] txs IH]; intros w; simpl; [reflexivity|].
    rewrite IH. apply wrapper_owner_step.
  - revert w. induction txs as [|[e c] txs IH]; intros w; simpl; [reflexivity|].
    intros Hall. apply andb_true_iff in Hall as [Hne Hrest].
    apply negb_true_iff, N.eqb_neq in Hne.
    destruct (wrapper_owner_step e c w) as [Ho Hs].
    assert (Heq : storage (exec e c w) = storage w) by (apply Hs, Hne).
    transitivity (storage (exec e c w)); [|exact Heq].
    apply IH. rewrite Heq. assumption.
  - intros e Hne. apply N.eqb_neq in Hne.
    repeat split; intros; simpl;
      unfold addSupportedToken, removeSupportedToken, emergencyWithdraw, onlyOwner;
      rewrite Hne; reflexivity.
Qed.

Lemma wrapper_registry_owner_only_witness :
  let txs := [ (Scenario.at_ Scenario.alice 5000, Add "FAKE" 9 18);
               (Scenario.at_ Scenario.bob 5000, Remove "TKN");
               (Scenario.at_ Scenario.bob 5000, Unwrap "TKN" 40) ] in
  storage (run txs Scenario.wrapped) = storage Scenario.wrapped /\
  call (Scenario.at_ Scenario.alice 5000) (Withdraw Scenario.tok 100) Scenario.wrapped
  = Revert (Reason "Not owner").
Proof.
  intros txs.
  destruct (wrapper_registry_owner_only txs Scenario.wrapped) as (_ & Hst & Hdeny).
  assert (Hall : forallb (fun tx => negb (msg_sender (fst tx)
                                          =? owner (storage Scenario.wrapped))) txs
                 = true) by (vm_compute; reflexivity).
  assert (Hne : msg_sender (Scenario.at_ Scenario.alice 5000)
                <> owner (storage Scenario.wrapped)) by (vm_compute; discriminate).
  destruct (Hdeny (Scenario.at_ Scenario.alice 5000) Hne) as (_ & _ & Hw).
  split; [exact (Hst Hall) | exact (Hw Scenario.tok 100)].
Defined.

End TokenWrapperFacts.


(** * The swap hook *)

Lemma be_bytes_length (width : nat) (v : N) : length (be_bytes width v) = width.
Proof.
  revert v. induction width as [|k IH]; intros v; simpl; [reflexivity|].
  rewrite length_app, IH. simpl. lia.
Qed.

Lemma byte_of_to_N (v : N) : Byte.to_N (byte_of v) = v mod 256.
Proof.
  unfold byte_of. destruct (Byte.of_N (v mod 256)) as [b|] eqn:Hb; simpl.
  - apply Byte.to_of_N. assumption.
  - apply Byte.of_N_None_iff in Hb.
    pose proof (N.mod_upper_bound v 256). lia.
Qed.

Lemma be_value_snoc (l : list Byte.byte) (b : Byte.byte) :
  be_value (l ++ [b]) = be_value l * 256 + Byte.to_N b.
Proof. unfold be_value. rewrite fold_left_app. reflexivity. Qed.

(** Decoding the big-endian bytes of a number gives the number back, cut
    to the width. *)
Lemma be_value_be_bytes (width : nat) (v : N) :
  be_value (be_bytes width v) = v mod 256 ^ N.of_nat width.
Proof.
  revert v. induction width as [|k IH]; intros v.
  - simpl. rewrite N.mod_1_r. reflexivity.
  - simpl be_bytes. rewrite be_value_snoc, IH, byte_of_to_N.
    rewrite Nat2N.inj_succ, N.pow_succ_r'.
    rewrite (N.Div0.mod_mul_r v 256 (256 ^ N.of_nat k)). lia.
Qed.

Lemma abi_decode_encode (h : bytes32) (b : bool) :
  h < 2 ^ 256 ->
  abi_decode_bytes32_bool (abi_encode_bytes32_bool h b) = Some (h, b).
Proof.
  intros Hh. unfold abi_decode_bytes32_bool, abi_encode_bytes32_bool.
  rewrite length_app, !be_bytes_length. simpl Nat.ltb. cbv iota.
  rewrite take_app_length' by (rewrite be_bytes_length; reflexivity).
  rewrite drop_app_length' by (rewrite be_bytes_length; reflexivity).
  rewrite firstn_all2 by (rewrite be_bytes_length; lia).
  rewrite !be_value_be_bytes.
  assert (Hpow : 256 ^ N.of_nat 32 = 2 ^ 256) by (vm_compute; reflexivity).
  rewrite Hpow. rewrite (N.mod_small h) by assumption.
  destruct b.
  - rewrite N.mod_small by (vm_compute; reflexivity). reflexivity.
  - rewrite N.mod_small by (vm_compute; reflexivity). reflexivity.
Qed.

Module HookFacts.
Import Hook.

Section Chain.
Variable PoolKey : Type.
Variable toId : PoolKey -> bytes32.
Variable keccak256 : list Byte.byte -> bytes32.
Variable beforeSwap_selector : N.
Variable afterSwap_selector : N.

Abbreviation swapId := (Hook.swapId PoolKey toId keccak256).
Abbreviation beforeSwap := (Hook.beforeSwap PoolKey toId keccak256 beforeSwap_selector).
Abbreviation afterSwap := (Hook.afterSwap PoolKey afterSwap_selector).
Abbreviation exec := (Hook.exec PoolKey toId keccak256 beforeSwap_selector afterSwap_selector).
Abbreviation run := (Hook.run PoolKey toId keccak256 beforeSwap_selector afterSwap_selector).

Lemma beforeSwap_encoded (e : Env) (sender : address) (key : PoolKey) (h : bytes32)
    (st : State) :
  0 < h -> h < 2 ^ 256 ->
  beforeSwap e sender key (encodeInvisibleSwapData h) st
  = Done (beforeSwap_selector, record_swap (swapId e sender key) h sender st).
Proof.
  intros Hpos Hh. unfold Hook.beforeSwap, encodeInvisibleSwapData.
  assert (Hlen : (0 <? length (abi_encode_bytes32_bool h true))%nat = true).
  { unfold abi_encode_bytes32_bool. rewrite length_app, !be_bytes_length. reflexivity. }
  rewrite Hlen, (abi_decode_encode h true Hh).
  assert (Hnz : (h =? 0) = false) by (apply N.eqb_neq; lia).
  rewrite Hnz. reflexivity.
Qed.

Lemma getSwapMetadata_record_swap (swap swap' h : bytes32) (sender : address)
    (st : State) :
  getSwapMetadata (record_swap swap h sender st) swap'
  = if decide (swap = swap') then (h, sender, true) else getSwapMetadata st swap'.
Proof.
  unfold getSwapMetadata, record_swap; simpl. rewrite lookup_insert.
  destruct (decide (swap = swap')); reflexivity.
Qed.

(** X24. A swap announced with [encodeInvisibleSwapData] is recorded.
    For a non-zero 32-byte hash, [beforeSwap] called with the bytes that
    [encodeInvisibleSwapData] returns decodes them back to the hash,
    returns the [beforeSwap] selector and stores, under the identifier
    computed from the sender, the pool and the block timestamp, the hash
    with the swap's sender as recipient: [getSwapMetadata] of that
    identifier returns (hash, sender, true).  It emits
    [InvisibleSwapExecuted] and leaves every other entry, the pool
    manager and the contract reference as they were. *)
Theorem encoded_swap_is_recorded (e : Env) (sender : address) (key : PoolKey)
    (h : bytes32) (st : State) :
  0 < h -> h < 2 ^ 256 ->
  exists st',
    beforeSwap e sender key (encodeInvisibleSwapData h) st
    = Done (beforeSwap_selector, st') /\
    getSwapMetadata st' (swapId e sender key) = (h, sender, true) /\
    (forall swap, swap <> swapId e sender key ->
                  getSwapMetadata st' swap = getSwapMetadata st swap) /\
    logs st' = logs st ++ [InvisibleSwapExecuted (swapId e sender key) h] /\
    poolManager st' = poolManager st /\
    invisibleTransferContract st' = invisibleTransferContract st.
Proof.
  intros Hpos Hh. eexists. split; [apply beforeSwap_encoded; assumption|].
  split; [|split; [|repeat split]].
  - rewrite getSwapMetadata_record_swap, decide_True by reflexivity. reflexivity.
  - intros swap Hne. rewrite getSwapMetadata_record_swap, decide_False by congruence.
    reflexivity.
Qed.

(** X25. What [beforeSwap] ignores and what it rejects.  With empty hook
    data it does nothing and returns its selector.  Hook data of 1 to 63
    bytes cannot be decoded and reverts the call.  Well-formed data whose
    flag is false, or whose hash is zero, is accepted and ignored: the
    state is unchanged.  [afterSwap] never changes the state. *)
Theorem hook_data_ignored_or_rejected (e : Env) (sender : address) (key : PoolKey)
    (st : State) :
  beforeSwap e sender key [] st = Done (beforeSwap_selector, st) /\
  (forall data, (0 < length data < 64)%nat ->
                beforeSwap e sender key data st = Reverted None) /\
  (forall h, h < 2 ^ 256 ->
             beforeSwap e sender key (abi_encode_bytes32_bool h false) st
             = Done (beforeSwap_selector, st)) /\
  beforeSwap e sender key (encodeInvisibleSwapData 0) st = Done (beforeSwap_selector, st) /\
  (forall data, afterSwap e sender key data st = Done (afterSwap_selector, st)).
Proof.
  split; [reflexivity|]. split; [|split; [|split]].
  - intros data [Hpos Hshort]. unfold Hook.beforeSwap, abi_decode_bytes32_bool.
    apply Nat.ltb_lt in Hpos, Hshort. rewrite Hpos, Hshort. reflexivity.
  - intros h Hh. unfold Hook.beforeSwap.
    assert (Hlen : (0 <? length (abi_encode_bytes32_bool h false))%nat = true).
    { unfold abi_encode_bytes32_bool. rewrite length_app, !be_bytes_length. reflexivity. }
    rewrite Hlen, (abi_decode_encode h false Hh). reflexivity.
  - unfold Hook.beforeSwap, encodeInvisibleSwapData.
    assert (Hlen : (0 <? length (abi_encode_bytes32_bool 0 true))%nat = true).
    { unfold abi_encode_bytes32_bool. rewrite length_app, !be_bytes_length. reflexivity. }
    assert (H0 : 0 < 2 ^ 256) by (vm_compute; reflexivity).
    rewrite Hlen, (abi_decode_encode 0 true H0). reflexivity.
  - intros data. reflexivity.
Qed.

(** X26. Swaps of one sender in one pool and one block share an
    identifier.  The identifier does not depend on the hash, so a second
    announced swap by the same sender on the same pool at the same
    timestamp overwrites the metadata of the first: afterwards
    [getSwapMetadata] returns the second hash, and the log holds two
    [InvisibleSwapExecuted] events with the same identifier. *)
Theorem same_block_swaps_collide (e : Env) (sender : address) (key : PoolKey)
    (h1 h2 : bytes32) (st : State) :
  0 < h1 -> h1 < 2 ^ 256 -> 0 < h2 -> h2 < 2 ^ 256 ->
  let swap := swapId e sender key in
  let st2 := run [ (e, BeforeSwap PoolKey sender key (encodeInvisibleSwapData h1));
                   (e, BeforeSwap PoolKey sender key (encodeInvisibleSwapData h2)) ] st in
  getSwapMetadata st2 swap = (h2, sender, true) /\
  logs st2 = logs st ++ [InvisibleSwapExecuted swap h1; InvisibleSwapExecuted swap h2] /\
  (forall swap', swap' <> swap -> getSwapMetadata st2 swap' = getSwapMetadata st swap').
Proof.
  intros Hp1 Hh1 Hp2 Hh2 swap st2. subst st2. unfold Hook.run, Hook.exec.
  rewrite (beforeSwap_encoded e sender key h1 st Hp1 Hh1). cbv beta iota.
  rewrite (beforeSwap_encoded e sender key h2 _ Hp2 Hh2). cbv beta iota.
  fold swap. split; [|split].
  - rewrite getSwapMetadata_record_swap, decide_True by reflexivity. reflexivity.
  - simpl. rewrite <- app_assoc. reflexivity.
  - intros swap' Hne.
    rewrite !getSwapMetadata_record_swap, !decide_False by congruence. reflexivity.
Qed.

Lemma hook_exec_frame (e : Env) (c : Call PoolKey) (st : State) :
  poolManager (exec e c st) = poolManager st /\
  (is_manager_update PoolKey st (e, c) = false ->
   invisibleTransferContract (exec e c st) = invisibleTransferContract st) /\
  (invisibleTransferContract st <> 0 -> invisibleTransferContract (exec e c st) <> 0).
Proof.
  destruct c as [sender key data | sender key data | a]; simpl.
  - unfold Hook.beforeSwap. destruct (0 <? length data)%nat; [|tauto].
    destruct (abi_decode_bytes32_bool data) as [[h b]|]; [|tauto].
    destruct (b && negb (h =? 0)); simpl; tauto.
  - tauto.
  - unfold updateInvisibleTransferContract, is_manager_update; simpl.
    destruct (msg_sender e =? poolManager st); simpl; [|tauto].
    destruct (N.eqb_spec a 0); simpl; [tauto|].
    split; [reflexivity|]. split; [discriminate | auto].
Qed.

(** X27. The hook's reference to the transfer contract.  The pool manager
    never changes.  [updateInvisibleTransferContract] reverts with "Only
    pool manager" for every other caller and with "Invalid address" for
    the zero address; so the reference changes only in an update sent by
    the pool manager, and once it is not the zero address it never becomes
    zero again.  The constructor, however, stores whatever address it is
    given, the zero address included. *)
Theorem contract_reference_guarded (txs : list (Env * Call PoolKey)) (st : State) :
  poolManager (run txs st) = poolManager st /\
  (forallb (fun tx => negb (is_manager_update PoolKey st tx)) txs = true ->
   invisibleTransferContract (run txs st) = invisibleTransferContract st) /\
  (invisibleTransferContract st <> 0 -> invisibleTransferContract (run txs st) <> 0) /\
  (forall e a, msg_sender e <> poolManager st ->
     updateInvisibleTransferContract e a st = Reverted (Some "Only pool manager"%string)) /\
  (forall e, msg_sender e = poolManager st ->
     updateInvisibleTransferContract e 0 st = Reverted (Some "Invalid address"%string)) /\
  (forall pm, invisibleTransferContract (constructor pm 0) = 0).
Proof.
  split; [|split; [|split; [|split; [|split]]]].
  - revert st. induction txs as [|[e c] txs IH]; intros st; simpl; [reflexivity|].
    rewrite IH. apply hook_exec_frame.
  - assert (Hgen : forall st',
              poolManager st' = poolManager st ->
              forallb (fun tx => negb (is_manager_update PoolKey st tx)) txs = true ->
              invisibleTransferContract (run txs st') = invisibleTransferContract st').
    { induction txs as [|[e c] txs IH]; intros st' Hpm Hall; simpl; [reflexivity|].
      simpl in Hall. apply andb_true_iff in Hall as [Hc Hrest]. apply negb_true_iff in Hc.
      destruct (hook_exec_frame e c st') as (Hpm' & Hsame & _).
      rewrite IH; [|congruence | assumption].
      apply Hsame. revert Hc. unfold is_manager_update; simpl. rewrite Hpm. tauto. }
    apply Hgen. reflexivity.
  - revert st. induction txs as [|[e c] txs IH]; intros st; simpl; [tauto|].
    intros Hnz. apply IH. apply hook_exec_frame. assumption.
  - intros e a Hne. unfold updateInvisibleTransferContract.
    apply N.eqb_neq in Hne. rewrite Hne. reflexivity.
  - intros e Heq. unfold updateInvisibleTransferContract.
    apply N.eqb_eq in Heq. rewrite Heq. reflexivity.
  - reflexivity.
Qed.

End Chain.

Lemma encoded_swap_is_recorded_witness :
  exists st',
    Hook.beforeSwap N (fun k => k) be_value 1 (Scenario.at_ Scenario.alice 2000)
      Scenario.alice 5 (encodeInvisibleSwapData Scenario.testHash) (constructor 50 100)
    = Done (1, st') /\
    getSwapMetadata st'
      (Hook.swapId N (fun k => k) be_value (Scenario.at_ Scenario.alice 2000)
         Scenario.alice 5)
    = (Scenario.testHash, Scenario.alice, true).
Proof.
  assert (Hpos : 0 < Scenario.testHash) by (vm_compute; reflexivity).
  assert (Hh : Scenario.testHash < 2 ^ 256) by (vm_compute; reflexivity).
  destruct (encoded_swap_is_recorded N (fun k => k) be_value 1
              (Scenario.at_ Scenario.alice 2000) Scenario.alice 5 Scenario.testHash
              (constructor 50 100) Hpos Hh) as (st' & Hcall & Hget & _).
  exists st'. split; [exact Hcall | exact Hget].
Defined.

Lemma hook_data_ignored_or_rejected_witness :
  Hook.beforeSwap N (fun k => k) be_value 1 (Scenario.at_ Scenario.alice 2000)
    Scenario.alice 5 [Byte.x01; Byte.x02] (constructor 50 100) = Reverted None /\
  Hook.beforeSwap N (fun k => k) be_value 1 (Scenario.at_ Scenario.alice 2000)
    Scenario.alice 5 (abi_encode_bytes32_bool Scenario.testHash false) (constructor 50 100)
  = Done (1, constructor 50 100).
Proof.
  destruct (hook_data_ignored_or_rejected N (fun k => k) be_value 1 2
              (Scenario.at_ Scenario.alice 2000) Scenario.alice 5 (constructor 50 100))
    as (_ & Hshort & Hfalse & _).
  assert (Hlen : (0 < length [Byte.x01; Byte.x02] < 64)%nat) by (simpl; lia).
  assert (Hh : Scenario.testHash < 2 ^ 256) by (vm_compute; reflexivity).
  split; [exact (Hshort _ Hlen) | exact (Hfalse _ Hh)].
Defined.

Lemma same_block_swaps_collide_witness :
  let swap := Hook.swapId N (fun k => k) be_value (Scenario.at_ Scenario.alice 2000)
                Scenario.alice 5 in
  let st2 := Hook.run N (fun k => k) be_value 1 2
               [ (Scenario.at_ Scenario.alice 2000,
                  BeforeSwap N Scenario.alice 5 (encodeInvisibleSwapData 111));
                 (Scenario.at_ Scenario.alice 2000,
                  BeforeSwap N Scenario.alice 5 (encodeInvisibleSwapData 222)) ]
               (constructor 50 100) in
  getSwapMetadata st2 swap = (222, Scenario.alice, true).
Proof.
  intros swap st2.
  assert (H1 : 0 < 111) by lia.
  assert (H2 : 111 < 2 ^ 256) by (vm_compute; reflexivity).
  assert (H3 : 0 < 222) by lia.
  assert (H4 : 222 < 2 ^ 256) by (vm_compute; reflexivity).
  exact (proj1 (same_block_swaps_collide N (fun k => k) be_value 1 2
                  (Scenario.at_ Scenario.alice 2000) Scenario.alice 5 111 222
                  (constructor 50 100) H1 H2 H3 H4)).
Defined.

Lemma contract_reference_guarded_witness :
  let txs := [ (Scenario.at_ Scenario.alice 2000, Update N 77);
               (Scenario.at_ Scenario.alice 2000,
                BeforeSwap N Scenario.alice 5 (encodeInvisibleSwapData 111)) ] in
  invisibleTransferContract (Hook.run N (fun k => k) be_value 1 2 txs (constructor 50 100))
  = invisibleTransferContract (constructor 50 100).
Proof.
  intros txs.
  destruct (contract_reference_guarded N (fun k => k) be_value 1 2 txs (constructor 50 100))
    as (_ & Hsame & _).
  assert (Hall : forallb (fun tx => negb (is_manager_update N (constructor 50 100) tx)) txs
                 = true) by (vm_compute; reflexivity).
  exact (Hsame Hall).
Defined.

End HookFacts.

(** * Tokens that call back *)

Module CallbackFacts.

Lemma cb_token_call_Ok (tok : address) (b : Callback.behaviour)
    (f : MockERC20.state -> result (bool * MockERC20.state)) (msg : string)
    (w w1 : World) :
  Callback.token_call tok b f msg w = Ok w1 ->
  (exists t t', tokens w !! tok = Some t /\ f t = Ok (true, t') /\
                w1 = with_token tok t' w) \/
  (tokens w !! tok = None /\ tok <> 0 /\ tok <> this w /\
   exists effect, b = Some (effect, Callback.Returns true) /\ w1 = effect w).
Proof.
  unfold Callback.token_call. destruct (tokens w !! tok) as [t|] eqn:Ht.
  - intros H. inv_ok H. injection H as <-.
    destruct v as [ok t']. simpl in *. subst ok. left. eauto.
  - destruct b as [[effect ret]|]; [|discriminate].
    destruct (N.eqb_spec tok 0) as [|Hz]; [discriminate|].
    destruct (N.eqb_spec tok (this w)) as [|Hs]; [discriminate|]. simpl.
    destruct ret as [ok|err]; [|discriminate].
    intros H. inv_ok H. injection H as <-. subst ok. right. eauto 10.
Qed.

(** With a ledger at the address, the reaction is never consulted. *)
Lemma cb_token_call_ledger (tok : address) (b : Callback.behaviour)
    (f : MockERC20.state -> result (bool * MockERC20.state)) (msg : string)
    (w : World) :
  is_Some (tokens w !! tok) ->
  Callback.token_call tok b f msg w = token_call tok f msg w.
Proof.
  intros [t Ht]. unfold Callback.token_call, token_call. rewrite Ht. reflexivity.
Qed.

Lemma cb_token_call_silent (tok : address)
    (f : MockERC20.state -> result (bool * MockERC20.state)) (msg : string)
    (w : World) :
  Callback.token_call tok None f msg w = token_call tok f msg w.
Proof.
  unfold Callback.token_call, token_call. destruct (tokens w !! tok); reflexivity.
Qed.

Lemma hiddenTransfer_with_token (tok : address) (t : MockERC20.state) (w : World)
    (h : bytes32) :
  hiddenTransfer (with_token tok t w) h = hiddenTransfer w h.
Proof. reflexivity. Qed.

(** The transactions of the ledger-only model are the transactions in
    which no token calls back. *)
Lemma quiet_call (e : Env) (c : Call) (w : World) :
  Callback.xcall e (Callback.quiet c) w = call e c w.
Proof.
  destruct c; simpl; try reflexivity.
  unfold Callback.claimHiddenTransfer, claimHiddenTransfer.
  destruct (require (0 <? timestamp (hiddenTransfer w _hash)) "Transfer does not exist");
    [|reflexivity]. simpl.
  destruct (require (negb (claimed (hiddenTransfer w _hash))) "Already claimed");
    [|reflexivity]. simpl.
  destruct (require (0 <? amount (hiddenTransfer w _hash)) "No amount to claim");
    [|reflexivity]. simpl.
  destruct (checked_add _ 1) as [n|]; [|reflexivity]. simpl.
  assert (H3 : hiddenTransfer
                 (with_storage (push_received (msg_sender e) _hash)
                    (with_storage (set_totalClaimed n)
                       (with_storage
                          (set_hiddenTransfer _hash (mark_claimed (hiddenTransfer w _hash)))
                          w))) _hash
               = mark_claimed (hiddenTransfer w _hash)).
  { unfold hiddenTransfer at 1; simpl. rewrite lookup_insert_eq. reflexivity. }
  rewrite !H3. cbn [token amount mark_claimed].
  match goal with |- context [Callback.token_call ?tk None ?f ?m ?w0] =>
    change (Callback.token_call tk None f m w0) with (token_call tk f m w0);
    destruct (token_call tk f m w0) as [w4|] eqn:Htc end; [|reflexivity]. simpl.
  apply token_call_Ok in Htc as (t & t' & _ & _ & ->).
  unfold hiddenTransfer at 1; simpl. rewrite lookup_insert_eq. reflexivity.
Qed.

Lemma quiet_exec (e : Env) (c : Call) (w : World) :
  Callback.xexec e (Callback.quiet c) w = exec e c w.
Proof. unfold Callback.xexec, exec. rewrite quiet_call. reflexivity. Qed.

(** Every world of the ledger-only model is a world between transactions
    of the model with calls back. *)
Lemma reachable_quiet (w : World) : reachable w -> Callback.reachable w.
Proof.
  induction 1 as [self e fee toks He | w e c Hr IH He].
  - apply Callback.reachable_deploy. assumption.
  - rewrite <- quiet_exec. apply Callback.reachable_step; assumption.
Qed.

(** ** One call at a time *)

Lemma claim_mid_record (u : address) (h : bytes32) (n : uint256) (r : HiddenTransfer)
    (w : World) :
  hiddenTransfer
    (with_storage (push_received u h)
       (with_storage (set_totalClaimed n)
          (with_storage (set_hiddenTransfer h r) w))) h = r.
Proof. unfold hiddenTransfer; simpl. rewrite lookup_insert_eq. reflexivity. Qed.

Lemma callback_env_ok (self : address) (e : Env) (tok : address) :
  env_ok self e -> tok <> 0 -> tok <> self -> env_ok self (Callback.callback_env e tok).
Proof.
  intros He H0 Hs. apply env_ok_spec in He as (_ & _ & Hp & H64).
  apply env_ok_spec. simpl. tauto.
Qed.

Lemma frame_mono (N N' : World -> World -> Prop) (e : Env) (c : Callback.Tx)
    (w w' : World) :
  (forall a b, N a b -> N' a b) ->
  Callback.frame N e c w w' -> Callback.frame N' e c w w'.
Proof.
  intros Hsub.
  assert (Ht : forall tok a b, Callback.token_effect N tok a b ->
                               Callback.token_effect N' tok a b).
  { intros tok a b [H | (H1 & H2 & H3 & H4)]; [left; exact H | right; auto]. }
  destruct c; simpl; try tauto.
  - intros (H1 & H2 & H3 & H4 & w1 & w2 & H5 & H6 & H7 & H8).
    repeat (split; [assumption|]). exists w1, w2.
    split; [auto|]. split; [destruct H6; auto|]. auto.
  - intros (H1 & H2 & H3 & H4 & w1 & H5 & H6).
    repeat (split; [assumption|]). exists w1. auto.
  - intros (H1 & H2 & H3 & w1 & H5 & H6).
    repeat (split; [assumption|]). exists w1. auto.
  - intros (H1 & H2). auto.
Qed.

(** Every successful call is a [frame] over the effect of its calls
    back; so a relation between worlds that is reflexive, transitive and
    kept by every frame over itself is kept by every call, whatever the
    tokens do. *)
Section Frames.
Variable good : address -> Env -> Prop.
Hypothesis good_callback : forall self e tok,
  good self e -> tok <> 0 -> tok <> self -> good self (Callback.callback_env e tok).
Variable R : World -> World -> Prop.
Hypothesis R_refl : forall w, R w w.
Hypothesis R_trans : forall w1 w2 w3, R w1 w2 -> R w2 w3 -> R w1 w3.
Hypothesis R_frame : forall e c w w',
  good (this w) e -> Callback.frame R e c w w' -> R w w'.

Let kept (w w' : World) : Prop := R w w' /\ this w' = this w.

Lemma kept_token_call (e : Env) (tok : address) (r : Callback.Reaction)
    (f : MockERC20.state -> result (bool * MockERC20.state)) (msg : string)
    (w w1 : World) :
  (forall effect ret w0,
     Callback.behave e r = Some (effect, ret) ->
     good (this w0) e -> kept w0 (effect w0)) ->
  good (this w) e ->
  Callback.token_call tok (Callback.behave e r) f msg w = Ok w1 ->
  Callback.token_effect R tok w w1 /\ this w1 = this w.
Proof.
  intros IH He H.
  apply cb_token_call_Ok in H as [(t & t' & Ht & _ & ->) | (Ht & H0 & Hs & eff & Hb & ->)].
  - split; [left; eauto | reflexivity].
  - destruct (IH eff _ w Hb He) as [HR Hthis].
    split; [right; auto | assumption].
Qed.

Lemma frames_kept :
  forall (c : Callback.Tx) (e : Env) (w w' : World),
    good (this w) e -> Callback.xcall e c w = Ok w' -> kept w w'.
Proof.
  apply (Callback.Tx_mut
           (fun c => forall e w w',
                good (this w) e -> Callback.xcall e c w = Ok w' -> kept w w')
           (fun r => forall e effect ret w,
                Callback.behave e r = Some (effect, ret) ->
                good (this w) e -> kept w (effect w))
           (fun s => forall e w,
                good (this w) e -> kept w (Callback.run_script e s w))).
  - (* publish *)
    intros h tok amt r1 IH1 r2 IH2 e w w' He H. simpl in H.
    unfold Callback.publishHiddenTransfer in H. inv_ok H. injection H as <-.
    apply N.ltb_lt in Hstep. apply N.eqb_eq in Hstep0.
    apply negb_true_iff, N.eqb_neq in Hstep1. fold (fee_of w amt) in *.
    rename v2 into w1, v3 into w2.
    destruct (kept_token_call e tok r1 _ _ w w1 (IH1 e) He Hstep2) as [Hte1 Hth1].
    assert (Hte2 : (w2 = w1 \/ Callback.token_effect R tok w1 w2) /\ this w2 = this w).
    { destruct (0 <? fee_of w amt).
      - assert (He1 : good (this w1) e) by (rewrite Hth1; assumption).
        destruct (kept_token_call e tok r2 _ _ w1 w2 (IH2 e) He1 Hstep3) as [Hk Hth2].
        split; [right; assumption | congruence].
      - injection Hstep3 as <-. split; [left; reflexivity | assumption]. }
    destruct Hte2 as [Hte2 Hth2].
    split; [|exact Hth2].
    apply (R_frame e (Callback.XPublish h tok amt r1 r2)); [assumption|]. simpl.
    repeat (split; [assumption|]). exists w1, w2.
    split; [assumption|]. split; [assumption|]. split; [assumption | reflexivity].
  - (* claim *)
    intros h r IH e w w' He H. simpl in H.
    unfold Callback.claimHiddenTransfer in H. inv_ok H. injection H as <-.
    apply N.ltb_lt in Hstep, Hstep1. apply negb_true_iff in Hstep0.
    rename v2 into w1.
    rewrite !claim_mid_record in Hstep2. cbn [token amount mark_claimed] in Hstep2.
    destruct (kept_token_call e (token (hiddenTransfer w h)) r _ _
                (Callback.claim_writes e h w) w1 (IH e) He Hstep2) as [Hte Hth].
    split; [|exact Hth].
    apply (R_frame e (Callback.XClaim h r)); [assumption|]. simpl.
    repeat (split; [assumption|]). exists w1. split; [exact Hte | reflexivity].
  - (* cancel *)
    intros h r IH e w w' He H. simpl in H.
    unfold Callback.cancelHiddenTransfer in H. inv_ok H. injection H as <-.
    apply N.eqb_eq in Hstep. apply negb_true_iff in Hstep0. apply N.leb_le in Hstep1.
    match type of Hstep2 with _ = Ok ?x => rename x into w1 end.
    destruct (kept_token_call e (token (hiddenTransfer w h)) r _ _
                (Callback.cancel_writes h w) w1 (IH e) He Hstep2) as [Hte Hth].
    split; [|exact Hth].
    apply (R_frame e (Callback.XCancel h r)); [assumption|]. simpl.
    repeat (split; [assumption|]). exists w1. split; [exact Hte | reflexivity].
  - (* fee *)
    intros n e w w' He H. simpl in H. unfold updatePlatformFee in H. inv_ok H.
    injection H as <-. apply N.eqb_eq in Hstep. apply N.leb_le in Hstep0.
    split; [|reflexivity].
    apply (R_frame e (Callback.XSetFee n)); [assumption|]. simpl. auto.
  - (* collector *)
    intros a e w w' He H. simpl in H. unfold updateFeeCollector in H. inv_ok H.
    injection H as <-. apply N.eqb_eq in Hstep. apply negb_true_iff, N.eqb_neq in Hstep0.
    split; [|reflexivity].
    apply (R_frame e (Callback.XSetCollector a)); [assumption|]. simpl. auto.
  - (* withdraw *)
    intros tok amt r IH e w w' He H. simpl in H.
    unfold Callback.emergencyWithdraw in H. inv_ok H. apply N.eqb_eq in Hstep.
    destruct (kept_token_call e tok r _ _ w w' (IH e) He H) as [Hte Hth].
    split; [|exact Hth].
    apply (R_frame e (Callback.XWithdraw tok amt r)); [assumption|]. simpl. auto.
  - intros tok to amt e w w' He H. simpl in H.
    apply token_tx_Ok in H as (t & t' & Ht & _ & ->). split; [|reflexivity].
    apply (R_frame e (Callback.XTokenMint tok to amt)); [assumption|]. simpl. eauto.
  - intros tok to amt e w w' He H. simpl in H.
    apply token_tx_Ok in H as (t & t' & Ht & _ & ->). split; [|reflexivity].
    apply (R_frame e (Callback.XTokenTransfer tok to amt)); [assumption|]. simpl. eauto.
  - intros tok from to amt e w w' He H. simpl in H.
    apply token_tx_Ok in H as (t & t' & Ht & _ & ->). split; [|reflexivity].
    apply (R_frame e (Callback.XTokenTransferFrom tok from to amt)); [assumption|].
    simpl. eauto.
  - intros tok sp amt e w w' He H. simpl in H.
    apply token_tx_Ok in H as (t & t' & Ht & _ & ->). split; [|reflexivity].
    apply (R_frame e (Callback.XTokenApprove tok sp amt)); [assumption|]. simpl. eauto.
  - (* a token that makes no calls *)
    intros e effect ret w H. discriminate.
  - (* a token that calls back *)
    intros s IH ret e effect ret' w H He. simpl in H. injection H as <- <-.
    apply IH. assumption.
  - intros e w He. split; [apply R_refl | reflexivity].
  - intros who c IHc rest IHrest e w He. simpl.
    destruct (N.eqb_spec who 0) as [|Hz]; [apply IHrest; assumption|].
    destruct (N.eqb_spec who (this w)) as [|Hs]; [apply IHrest; assumption|]. simpl.
    assert (He' : good (this w) (Callback.callback_env e who))
      by (apply good_callback; assumption).
    destruct (Callback.xcall (Callback.callback_env e who) c w) as [w1|err] eqn:Hc.
    + destruct (IHc _ w w1 He' Hc) as [HR Hth].
      destruct (IHrest e w1) as [HR' Hth']; [rewrite Hth; assumption|].
      split; [eapply R_trans; eassumption | congruence].
    + apply IHrest. assumption.
Qed.

Lemma frames_call (e : Env) (c : Callback.Tx) (w w' : World) :
  good (this w) e -> Callback.xcall e c w = Ok w' -> R w w' /\ this w' = this w.
Proof. intros He H. exact (frames_kept c e w w' He H). Qed.

Lemma frames_exec (e : Env) (c : Callback.Tx) (w : World) :
  good (this w) e ->
  R w (Callback.xexec e c w) /\ this (Callback.xexec e c w) = this w.
Proof.
  intros He. unfold Callback.xexec.
  destruct (Callback.xcall e c w) as [w'|err] eqn:Hc.
  - exact (frames_call e c w w' He Hc).
  - split; [apply R_refl | reflexivity].
Qed.

End Frames.

(** ** Records across calls *)

Lemma hiddenTransfer_publish_writes (e : Env) (h h' : bytes32) (tok : address)
    (a : uint256) (w : World) :
  hiddenTransfer (Callback.publish_writes e h tok a w) h' =
  if decide (h = h')
  then {| sender := msg_sender e; token := tok; amount := a;
          timestamp := block_timestamp e; claimed := false |}
  else hiddenTransfer w h'.
Proof.
  unfold hiddenTransfer, Callback.publish_writes; simpl. rewrite lookup_insert.
  destruct (decide (h = h')); reflexivity.
Qed.

Lemma hiddenTransfer_claim_writes (e : Env) (h h' : bytes32) (w : World) :
  hiddenTransfer (Callback.claim_writes e h w) h' =
  if decide (h = h') then mark_claimed (hiddenTransfer w h) else hiddenTransfer w h'.
Proof.
  unfold hiddenTransfer at 1, Callback.claim_writes; simpl. rewrite lookup_insert.
  destruct (decide (h = h')); reflexivity.
Qed.

Lemma hiddenTransfer_cancel_writes (h h' : bytes32) (w : World) :
  hiddenTransfer (Callback.cancel_writes h w) h' =
  if decide (h = h') then mark_claimed (hiddenTransfer w h) else hiddenTransfer w h'.
Proof.
  unfold hiddenTransfer at 1, Callback.cancel_writes; simpl. rewrite lookup_insert.
  destruct (decide (h = h')); reflexivity.
Qed.

(** A relation between the records under one identifier is kept by every
    call, whatever the tokens do, when it is reflexive and transitive,
    holds between a record and the same record marked claimed, and holds
    from an unwritten record to anything. *)
Section Records.
Variable Q : HiddenTransfer -> HiddenTransfer -> Prop.
Hypothesis Q_refl : forall r, Q r r.
Hypothesis Q_trans : forall r1 r2 r3, Q r1 r2 -> Q r2 r3 -> Q r1 r3.
Hypothesis Q_mark : forall r, Q r (mark_claimed r).
Hypothesis Q_fresh : forall r r', timestamp r = 0 -> Q r r'.
Variable h : bytes32.

Let related (w w' : World) : Prop := Q (hiddenTransfer w h) (hiddenTransfer w' h).

Lemma related_token_effect (tok : address) (w w1 : World) :
  Callback.token_effect related tok w w1 -> related w w1.
Proof.
  intros [(t & t' & _ & ->) | (_ & _ & _ & H)]; [apply Q_refl | exact H].
Qed.

Lemma related_frame (e : Env) (c : Callback.Tx) (w w' : World) :
  Callback.frame related e c w w' -> related w w'.
Proof.
  unfold related. destruct c; simpl.
  - intros (_ & Hts & _ & _ & w1 & w2 & H1 & H2 & _ & ->).
    rewrite hiddenTransfer_publish_writes.
    destruct (decide (_hash = h)) as [->|Hne]; [apply Q_fresh, Hts|].
    apply related_token_effect in H1.
    destruct H2 as [-> | H2]; [exact H1|].
    apply related_token_effect in H2. eapply Q_trans; eassumption.
  - intros (_ & _ & _ & _ & w1 & H1 & ->).
    apply related_token_effect in H1. unfold related in H1.
    rewrite hiddenTransfer_claim_writes in H1.
    change (hiddenTransfer (emit _ w1) h) with (hiddenTransfer w1 h).
    destruct (decide (_hash = h)) as [->|Hne]; [|exact H1].
    eapply Q_trans; [apply Q_mark | exact H1].
  - intros (_ & _ & _ & w1 & H1 & ->).
    apply related_token_effect in H1. unfold related in H1.
    rewrite hiddenTransfer_cancel_writes in H1.
    change (hiddenTransfer (emit _ w1) h) with (hiddenTransfer w1 h).
    destruct (decide (_hash = h)) as [->|Hne]; [|exact H1].
    eapply Q_trans; [apply Q_mark | exact H1].
  - intros (_ & _ & ->). apply Q_refl.
  - intros (_ & _ & ->). apply Q_refl.
  - intros (_ & H1). apply related_token_effect in H1. exact H1.
  - intros (t & t' & _ & ->). apply Q_refl.
  - intros (t & t' & _ & ->). apply Q_refl.
  - intros (t & t' & _ & ->). apply Q_refl.
  - intros (t & t' & _ & ->). apply Q_refl.
Qed.

Lemma records_exec (e : Env) (c : Callback.Tx) (w : World) :
  Q (hiddenTransfer w h) (hiddenTransfer (Callback.xexec e c w) h).
Proof.
  apply (frames_exec (fun _ _ => True) (fun _ _ _ _ _ _ => I) related); [| | |exact I].
  - intros w0. apply Q_refl.
  - intros w1 w2 w3. apply Q_trans.
  - intros e0 c0 w0 w0' _. apply related_frame.
Qed.

End Records.

Lemma record_kept_refl (r : HiddenTransfer) : Callback.record_kept r r.
Proof. intros _. split; [apply same_creation_refl | tauto]. Qed.

Lemma record_kept_trans (r1 r2 r3 : HiddenTransfer) :
  Callback.record_kept r1 r2 -> Callback.record_kept r2 r3 -> Callback.record_kept r1 r3.
Proof.
  intros H12 H23 Hts. destruct (H12 Hts) as [Hs Hc].
  assert (Hts2 : timestamp r2 <> 0) by (destruct Hs as (_ & _ & _ & ->); assumption).
  destruct (H23 Hts2) as [Hs' Hc'].
  split; [eapply same_creation_trans; eassumption | tauto].
Qed.

Lemma record_kept_mark (r : HiddenTransfer) : Callback.record_kept r (mark_claimed r).
Proof. intros _. split; [apply same_creation_mark_claimed | reflexivity]. Qed.

Lemma record_kept_fresh (r r' : HiddenTransfer) :
  timestamp r = 0 -> Callback.record_kept r r'.
Proof. intros Hz Hts. contradiction. Qed.

(** A record that exists when a call starts is there, as created, when
    the call ends, and its flag, once set, is still set: whatever the
    tokens do, an existing record is not written again. *)
Lemma xexec_existing (e : Env) (c : Callback.Tx) (w : World) (h : bytes32) :
  Callback.record_kept (hiddenTransfer w h) (hiddenTransfer (Callback.xexec e c w) h).
Proof.
  apply records_exec.
  - apply record_kept_refl.
  - apply record_kept_trans.
  - apply record_kept_mark.
  - apply record_kept_fresh.
Qed.

Lemma xexec_this (e : Env) (c : Callback.Tx) (w : World) :
  this (Callback.xexec e c w) = this w.
Proof.
  apply (frames_exec (fun _ _ => True) (fun _ _ _ _ _ _ => I) (fun _ _ => True)); auto.
Qed.

Lemma xrun_existing (txs : list (Env * Callback.Tx)) (w : World) (h : bytes32) :
  Callback.record_kept (hiddenTransfer w h) (hiddenTransfer (Callback.xrun txs w) h).
Proof.
  revert w. induction txs as [|[e c] txs IH]; intros w; simpl.
  - apply record_kept_refl.
  - eapply record_kept_trans; [apply xexec_existing | apply IH].
Qed.

Lemma xrun_this (txs : list (Env * Callback.Tx)) (w : World) :
  this (Callback.xrun txs w) = this w.
Proof.
  revert w. induction txs as [|[e c] txs IH]; intros w; simpl; [reflexivity|].
  rewrite IH. apply xexec_this.
Qed.

Lemma reachable_xrun (txs : list (Env * Callback.Tx)) (w : World) :
  Callback.reachable w ->
  forallb (fun tx => env_okb (this w) (fst tx)) txs = true ->
  Callback.reachable (Callback.xrun txs w).
Proof.
  revert w. induction txs as [|[e c] txs IH]; intros w Hr Hall; simpl in *; [assumption|].
  apply andb_true_iff in Hall as [He Hrest].
  apply IH.
  - apply Callback.reachable_step; assumption.
  - rewrite xexec_this. assumption.
Qed.

(** ** What only grows *)

Lemma grows_refl (w : World) : Callback.grows w w.
Proof.
  split; [reflexivity|]. split; [exists []; rewrite app_nil_r; reflexivity|].
  split; [intros u; exists []; rewrite app_nil_r; reflexivity|].
  split; [intros u; exists []; rewrite app_nil_r; reflexivity|].
  intros h. apply record_kept_refl.
Qed.

Lemma grows_trans (w1 w2 w3 : World) :
  Callback.grows w1 w2 -> Callback.grows w2 w3 -> Callback.grows w1 w3.
Proof.
  intros (Ht & [l Hl] & Hs & Hr & Hk) (Ht' & [l' Hl'] & Hs' & Hr' & Hk').
  split; [congruence|].
  split; [exists (l ++ l'); rewrite Hl', Hl, app_assoc; reflexivity|].
  split; [|split].
  - intros u. destruct (Hs u) as [k Hk1]. destruct (Hs' u) as [k' Hk2].
    exists (k ++ k'). rewrite Hk2, Hk1, app_assoc. reflexivity.
  - intros u. destruct (Hr u) as [k Hk1]. destruct (Hr' u) as [k' Hk2].
    exists (k ++ k'). rewrite Hk2, Hk1, app_assoc. reflexivity.
  - intros h. eapply record_kept_trans; [apply Hk | apply Hk'].
Qed.

Lemma grows_same_lists (w w' : World) :
  this w' = this w ->
  hiddenTransfers (storage w') = hiddenTransfers (storage w) ->
  userSentTransfers (storage w') = userSentTransfers (storage w) ->
  userReceivedTransfers (storage w') = userReceivedTransfers (storage w) ->
  (exists l, logs w' = logs w ++ l) ->
  Callback.grows w w'.
Proof.
  intros Ht Hh Hs Hr Hl. split; [assumption|]. split; [assumption|].
  unfold sentTransfers, receivedTransfers, hiddenTransfer. rewrite Hh, Hs, Hr.
  split; [intros u; exists []; rewrite app_nil_r; reflexivity|].
  split; [intros u; exists []; rewrite app_nil_r; reflexivity|].
  intros h. apply record_kept_refl.
Qed.

Lemma grows_same_storage (w w' : World) :
  this w' = this w -> storage w' = storage w -> (exists l, logs w' = logs w ++ l) ->
  Callback.grows w w'.
Proof.
  intros Ht Hs Hl. apply grows_same_lists; try assumption; rewrite Hs; reflexivity.
Qed.

Lemma sentTransfers_push_sent (f : InvisibleTransfer -> InvisibleTransfer) (u u' : address)
    (h : bytes32) (w : World) :
  userSentTransfers (f (storage w))
  = <[u := sentTransfers w u ++ [h]]> (userSentTransfers (storage w)) ->
  sentTransfers (with_storage f w) u'
  = if decide (u = u') then sentTransfers w u ++ [h] else sentTransfers w u'.
Proof.
  intros Heq. unfold sentTransfers at 1, with_storage; simpl. rewrite Heq, lookup_insert.
  destruct (decide (u = u')); reflexivity.
Qed.

Lemma receivedTransfers_push_received (f : InvisibleTransfer -> InvisibleTransfer)
    (u u' : address) (h : bytes32) (w : World) :
  userReceivedTransfers (f (storage w))
  = <[u := receivedTransfers w u ++ [h]]> (userReceivedTransfers (storage w)) ->
  receivedTransfers (with_storage f w) u'
  = if decide (u = u') then receivedTransfers w u ++ [h] else receivedTransfers w u'.
Proof.
  intros Heq. unfold receivedTransfers at 1, with_storage; simpl.
  rewrite Heq, lookup_insert. destruct (decide (u = u')); reflexivity.
Qed.

Lemma sentTransfers_publish_writes (e : Env) (h : bytes32) (tok : address) (a : uint256)
    (w : World) (u : address) :
  sentTransfers (Callback.publish_writes e h tok a w) u
  = if decide (msg_sender e = u) then sentTransfers w u ++ [h] else sentTransfers w u.
Proof.
  unfold Callback.publish_writes.
  change (sentTransfers (emit ?ev ?x) u) with (sentTransfers x u).
  rewrite (sentTransfers_push_sent _ (msg_sender e) u h) by reflexivity.
  destruct (decide (msg_sender e = u)) as [<-|]; reflexivity.
Qed.

Lemma receivedTransfers_claim_writes (e : Env) (h : bytes32) (w : World) (u : address) :
  receivedTransfers (Callback.claim_writes e h w) u
  = if decide (msg_sender e = u) then receivedTransfers w u ++ [h]
    else receivedTransfers w u.
Proof.
  unfold Callback.claim_writes.
  rewrite (receivedTransfers_push_received _ (msg_sender e) u h) by reflexivity.
  destruct (decide (msg_sender e = u)) as [<-|]; reflexivity.
Qed.

Lemma grows_publish_writes (e : Env) (h : bytes32) (tok : address) (a : uint256)
    (w : World) :
  timestamp (hiddenTransfer w h) = 0 ->
  Callback.grows w (Callback.publish_writes e h tok a w).
Proof.
  intros Hts. split; [reflexivity|]. split; [eexists; reflexivity|].
  split; [|split].
  - intros u. rewrite sentTransfers_publish_writes.
    destruct (decide (msg_sender e = u)); [eauto|].
    exists []. rewrite app_nil_r. reflexivity.
  - intros u. exists []. rewrite app_nil_r. reflexivity.
  - intros h'. rewrite hiddenTransfer_publish_writes.
    destruct (decide (h = h')) as [<-|]; [apply record_kept_fresh, Hts|].
    apply record_kept_refl.
Qed.

Lemma grows_claim_writes (e : Env) (h : bytes32) (w : World) :
  Callback.grows w (Callback.claim_writes e h w).
Proof.
  split; [reflexivity|]. split; [exists []; rewrite app_nil_r; reflexivity|].
  split; [|split].
  - intros u. exists []. rewrite app_nil_r. reflexivity.
  - intros u. rewrite receivedTransfers_claim_writes.
    destruct (decide (msg_sender e = u)); [eauto|].
    exists []. rewrite app_nil_r. reflexivity.
  - intros h'. rewrite hiddenTransfer_claim_writes.
    destruct (decide (h = h')) as [<-|]; [apply record_kept_mark | apply record_kept_refl].
Qed.

Lemma grows_cancel_writes (h : bytes32) (w : World) :
  Callback.grows w (Callback.cancel_writes h w).
Proof.
  split; [reflexivity|]. split; [exists []; rewrite app_nil_r; reflexivity|].
  split; [|split].
  - intros u. exists []. rewrite app_nil_r. reflexivity.
  - intros u. exists []. rewrite app_nil_r. reflexivity.
  - intros h'. rewrite hiddenTransfer_cancel_writes.
    destruct (decide (h = h')) as [<-|]; [apply record_kept_mark | apply record_kept_refl].
Qed.

Lemma grows_emit (ev : Event) (w : World) : Callback.grows w (emit ev w).
Proof. apply grows_same_storage; [reflexivity | reflexivity | eexists; reflexivity]. Qed.

Lemma grows_with_token (tok : address) (t : MockERC20.state) (w : World) :
  Callback.grows w (with_token tok t w).
Proof.
  apply grows_same_storage; [reflexivity | reflexivity|].
  exists []. rewrite app_nil_r. reflexivity.
Qed.

Lemma grows_token_effect (tok : address) (w w1 : World) :
  Callback.token_effect Callback.grows tok w w1 -> Callback.grows w w1.
Proof.
  intros [(t & t' & _ & ->) | (_ & _ & _ & H)]; [apply grows_with_token | exact H].
Qed.

(** A publish that overwrites is the one write an existing record can
    suffer; it happens only in a call that found the identifier unused
    when it started.  So between the start and the end of any call the
    world only grows. *)
Lemma grows_frame (e : Env) (c : Callback.Tx) (w w' : World) :
  Callback.frame Callback.grows e c w w' -> Callback.grows w w'.
Proof.
  destruct c; simpl.
  - intros (_ & Hts & _ & _ & w1 & w2 & H1 & H2 & _ & ->).
    apply grows_token_effect in H1.
    assert (H12 : Callback.grows w w2).
    { destruct H2 as [-> | H2]; [exact H1|].
      apply grows_token_effect in H2. eapply grows_trans; eassumption. }
    destruct H12 as (Ht & [l Hl] & Hs & Hr & Hk).
    split; [exact Ht|]. split; [|split; [|split]].
    + exists (l ++ [TransferPublished _hash (msg_sender e) _token
                      (_amount - fee_of w _amount)]).
      unfold Callback.publish_writes, emit; simpl. rewrite Hl, app_assoc. reflexivity.
    + intros u. rewrite sentTransfers_publish_writes. destruct (Hs u) as [k Hk1].
      destruct (decide (msg_sender e = u)).
      * exists (k ++ [_hash]). rewrite Hk1, app_assoc. reflexivity.
      * exists k. exact Hk1.
    + intros u. destruct (Hr u) as [k Hk1]. exists k. exact Hk1.
    + intros h'. rewrite hiddenTransfer_publish_writes.
      destruct (decide (_hash = h')) as [<-|]; [apply record_kept_fresh, Hts | apply Hk].
  - intros (_ & _ & _ & _ & w1 & H1 & ->).
    apply grows_token_effect in H1.
    eapply grows_trans; [apply grows_claim_writes|].
    eapply grows_trans; [exact H1 | apply grows_emit].
  - intros (_ & _ & _ & w1 & H1 & ->).
    apply grows_token_effect in H1.
    eapply grows_trans; [apply grows_cancel_writes|].
    eapply grows_trans; [exact H1 | apply grows_emit].
  - intros (_ & _ & ->).
    apply grows_same_lists; reflexivity || (eexists; reflexivity).
  - intros (_ & _ & ->).
    apply grows_same_lists; reflexivity || (exists []; rewrite app_nil_r; reflexivity).
  - intros (_ & H1). apply grows_token_effect in H1. exact H1.
  - intros (t & t' & _ & ->). apply grows_with_token.
  - intros (t & t' & _ & ->). apply grows_with_token.
  - intros (t & t' & _ & ->). apply grows_with_token.
  - intros (t & t' & _ & ->). apply grows_with_token.
Qed.

Lemma grows_exec (e : Env) (c : Callback.Tx) (w : World) :
  Callback.grows w (Callback.xexec e c w).
Proof.
  apply (frames_exec (fun _ _ => True) (fun _ _ _ _ _ _ => I) Callback.grows);
    [| | |exact I].
  - apply grows_refl.
  - apply grows_trans.
  - intros e0 c0 w0 w0' _. apply grows_frame.
Qed.

Lemma grows_xrun (txs : list (Env * Callback.Tx)) (w : World) :
  Callback.grows w (Callback.xrun txs w).
Proof.
  revert w. induction txs as [|[e c] txs IH]; intros w; simpl; [apply grows_refl|].
  eapply grows_trans; [apply grows_exec | apply IH].
Qed.

(** ** Invariants of every state, also those a token sees when called *)

(** A property of worlds holds after every call, whatever the tokens do,
    when it holds after a ledger's own change and after each of the
    contract's own writes and events, made where the source makes them:
    the publish writes after the calls to the token, the claim and cancel
    writes before it, their events after it. *)
Section Invariants.
Variable Inv : World -> Prop.
Hypothesis Inv_token : forall tok t' w, Inv w -> Inv (with_token tok t' w).
Hypothesis Inv_publish : forall e h tok a w0 w,
  env_ok (this w) e -> tok <> 0 ->
  Callback.grows w0 w -> timestamp (hiddenTransfer w0 h) = 0 ->
  totalTransfers (storage w) + 1 <= MAX_UINT256 ->
  Inv w -> Inv (Callback.publish_writes e h tok a w).
Hypothesis Inv_claim : forall e h w,
  env_ok (this w) e ->
  0 < timestamp (hiddenTransfer w h) -> claimed (hiddenTransfer w h) = false ->
  totalClaimed (storage w) + 1 <= MAX_UINT256 ->
  Inv w -> Inv (Callback.claim_writes e h w).
Hypothesis Inv_claimed : forall e h a w0 w,
  Callback.grows (Callback.claim_writes e h w0) w ->
  Inv w -> Inv (emit (TransferClaimed h (msg_sender e) a) w).
Hypothesis Inv_cancel : forall e h w,
  env_ok (this w) e ->
  sender (hiddenTransfer w h) = msg_sender e -> claimed (hiddenTransfer w h) = false ->
  Inv w -> Inv (Callback.cancel_writes h w).
Hypothesis Inv_cancelled : forall e h w0 w,
  Callback.grows (Callback.cancel_writes h w0) w ->
  Inv w -> Inv (emit (TransferCancelled h (msg_sender e)) w).
Hypothesis Inv_fee : forall n w,
  n <= 500 -> Inv w -> Inv (emit (FeeUpdated n) (with_storage (set_platformFee n) w)).
Hypothesis Inv_collector : forall a w,
  a <> 0 -> Inv w -> Inv (with_storage (set_feeCollector a) w).

Let kept (w w' : World) : Prop := Callback.grows w w' /\ (Inv w -> Inv w').

Lemma kept_token_effect (tok : address) (w w1 : World) :
  Callback.token_effect kept tok w w1 -> kept w w1.
Proof.
  intros [(t & t' & _ & ->) | (_ & _ & _ & H)]; [|exact H].
  split; [apply grows_with_token | apply Inv_token].
Qed.

Lemma kept_frame (e : Env) (c : Callback.Tx) (w w' : World) :
  env_ok (this w) e -> Callback.frame kept e c w w' -> kept w w'.
Proof.
  intros He Hf.
  assert (Hg : Callback.grows w w').
  { apply (grows_frame e c). revert Hf. apply frame_mono. intros a b [H _]. exact H. }
  split; [exact Hg|]. intros Hw.
  destruct c; simpl in Hf.
  - destruct Hf as (_ & Hts & Htok & _ & w1 & w2 & H1 & H2 & Hov & ->).
    apply kept_token_effect in H1. destruct H1 as [Hg1 Hi1].
    assert (H12 : Callback.grows w w2 /\ Inv w2).
    { destruct H2 as [-> | H2]; [auto|].
      apply kept_token_effect in H2. destruct H2 as [Hg2 Hi2].
      split; [exact (grows_trans _ _ _ Hg1 Hg2) | auto]. }
    destruct H12 as [Hg2 Hi2].
    apply (Inv_publish e _hash _token _ w w2); try assumption.
    destruct Hg2 as (-> & _). assumption.
  - destruct Hf as (Hts & Hc & _ & Hov & w1 & H1 & ->).
    apply kept_token_effect in H1. destruct H1 as [Hg1 Hi1].
    apply (Inv_claimed e _hash _ w w1); [exact Hg1|].
    apply Hi1. apply Inv_claim; assumption.
  - destruct Hf as (Hs & Hc & _ & w1 & H1 & ->).
    apply kept_token_effect in H1. destruct H1 as [Hg1 Hi1].
    apply (Inv_cancelled e _hash w w1); [exact Hg1|].
    apply Hi1. apply (Inv_cancel e); assumption.
  - destruct Hf as (_ & Hn & ->). apply Inv_fee; assumption.
  - destruct Hf as (_ & Ha & ->). apply Inv_collector; assumption.
  - destruct Hf as (_ & H1). apply kept_token_effect in H1. apply H1. assumption.
  - destruct Hf as (t & t' & _ & ->). apply Inv_token. assumption.
  - destruct Hf as (t & t' & _ & ->). apply Inv_token. assumption.
  - destruct Hf as (t & t' & _ & ->). apply Inv_token. assumption.
  - destruct Hf as (t & t' & _ & ->). apply Inv_token. assumption.
Qed.

Lemma invariant_exec (e : Env) (c : Callback.Tx) (w : World) :
  env_ok (this w) e -> Inv w -> Inv (Callback.xexec e c w).
Proof.
  intros He Hw.
  apply (frames_exec env_ok callback_env_ok kept); try assumption.
  - intros w0. split; [apply grows_refl | tauto].
  - intros w1 w2 w3 [Hg1 Hi1] [Hg2 Hi2].
    split; [eapply grows_trans; eassumption | tauto].
  - apply kept_frame.
Qed.

Lemma invariant_reachable (w : World) :
  (forall self e fee toks, env_ok self e -> Inv (constructor self e fee toks)) ->
  Callback.reachable w -> Inv w.
Proof.
  intros Hinit. induction 1 as [self e fee toks He | w e c Hr IH He].
  - apply Hinit. assumption.
  - apply invariant_exec; assumption.
Qed.

End Invariants.

Lemma written_lookup (w : World) (h : bytes32) :
  timestamp (hiddenTransfer w h) <> 0 \/ sender (hiddenTransfer w h) <> 0 ->
  hiddenTransfers (storage w) !! h = Some (hiddenTransfer w h).
Proof.
  unfold hiddenTransfer.
  destruct (hiddenTransfers (storage w) !! h) as [r|]; simpl; [reflexivity|].
  intros [H|H]; congruence.
Qed.

Lemma stored_ok_exec (e : Env) (c : Callback.Tx) (w : World) :
  env_ok (this w) e -> Callback.stored_ok w -> Callback.stored_ok (Callback.xexec e c w).
Proof.
  apply (invariant_exec Callback.stored_ok).
  - intros tok t' w0 H. exact H.
  - intros e0 h tok a w0 w1 He _ _ _ _ H h' r. apply env_ok_spec in He as (Hs & _ & Hp & _).
    unfold Callback.publish_writes; simpl. rewrite lookup_insert.
    destruct (decide (h = h')); [|apply H].
    intros [= <-]. simpl. split; [lia | assumption].
  - intros e0 h w0 _ Hts _ _ H h' r. unfold Callback.claim_writes; simpl.
    rewrite lookup_insert. destruct (decide (h = h')); [|apply H].
    intros [= <-]. destruct (hiddenTransfer w0 h) eqn:Hr. simpl in *.
    assert (Hl : hiddenTransfers (storage w0) !! h = Some (hiddenTransfer w0 h)).
    { apply written_lookup. left. rewrite Hr. simpl. lia. }
    apply H in Hl. rewrite Hr in Hl. exact Hl.
  - intros e0 h a w0 w1 _ H. exact H.
  - intros e0 h w0 He Hs _ H h' r. apply env_ok_spec in He as (Hne & _).
    unfold Callback.cancel_writes; simpl.
    rewrite lookup_insert. destruct (decide (h = h')); [|apply H].
    intros [= <-]. destruct (hiddenTransfer w0 h) eqn:Hr. simpl in *.
    assert (Hl : hiddenTransfers (storage w0) !! h = Some (hiddenTransfer w0 h)).
    { apply written_lookup. right. rewrite Hr. simpl. congruence. }
    apply H in Hl. rewrite Hr in Hl. exact Hl.
  - intros e0 h w0 w1 _ H. exact H.
  - intros n w0 _ H. exact H.
  - intros a w0 _ H. exact H.
Qed.

Lemma reachable_stored_ok (w : World) : Callback.reachable w -> Callback.stored_ok w.
Proof.
  induction 1 as [self e fee toks He | w e c Hr IH He].
  - intros h r Hl. simpl in Hl. rewrite lookup_empty in Hl. discriminate.
  - apply stored_ok_exec; assumption.
Qed.

(** In a world between transactions a set flag belongs to a record. *)
Lemma reachable_claimed_written (w : World) (h : bytes32) :
  Callback.reachable w -> claimed (hiddenTransfer w h) = true ->
  timestamp (hiddenTransfer w h) <> 0.
Proof.
  intros Hr Hc. apply reachable_stored_ok in Hr.
  unfold hiddenTransfer in *.
  destruct (hiddenTransfers (storage w) !! h) as [r|] eqn:Hl; simpl in *; [|discriminate].
  apply (Hr h r Hl).
Qed.

(** ** The counters *)

Lemma unclaimed_insert_le (h : bytes32) (r : HiddenTransfer)
    (m : gmap bytes32 HiddenTransfer) :
  (size (filter (fun kr : bytes32 * HiddenTransfer => claimed (snd kr) = false)
           (<[h := r]> m))
   <= S (size (filter (fun kr : bytes32 * HiddenTransfer => claimed (snd kr) = false) m)))%nat.
Proof.
  destruct (claimed r) eqn:Hc.
  - rewrite map_filter_insert_False by (simpl; congruence).
    rewrite map_filter_delete, map_size_delete.
    destruct (_ !! h); simpl; lia.
  - rewrite map_filter_insert_True by (simpl; assumption).
    rewrite map_size_insert.
    destruct (_ !! h); simpl; lia.
Qed.

Lemma unclaimed_written (w : World) (h : bytes32) :
  timestamp (hiddenTransfer w h) <> 0 \/ sender (hiddenTransfer w h) <> 0 ->
  claimed (hiddenTransfer w h) = false ->
  unclaimed w !! h = Some (hiddenTransfer w h).
Proof.
  intros Hw Hc. unfold unclaimed. apply map_lookup_filter_Some.
  split; [apply written_lookup; assumption | exact Hc].
Qed.

Lemma counted_exec (e : Env) (c : Callback.Tx) (w : World) :
  env_ok (this w) e -> counted w -> counted (Callback.xexec e c w).
Proof.
  apply (invariant_exec counted).
  - intros tok t' w0 H. exact H.
  - intros e0 h tok a w0 w1 _ _ _ _ Hov [Hmax Hcnt].
    unfold counted, unclaimed, Callback.publish_writes; simpl.
    pose proof (unclaimed_insert_le h
                  {| sender := msg_sender e0; token := tok; amount := a;
                     timestamp := block_timestamp e0; claimed := false |}
                  (hiddenTransfers (storage w1))) as Hle.
    unfold unclaimed in Hcnt. split; lia.
  - intros e0 h w0 _ Hts Hc Hov [Hmax Hcnt].
    assert (Hl : unclaimed w0 !! h = Some (hiddenTransfer w0 h))
      by (apply unclaimed_written; [left; lia | assumption]).
    assert (Hsz : size (unclaimed w0) = S (size (unclaimed (Callback.claim_writes e0 h w0))))
      by (apply unclaimed_mark with h; [assumption | reflexivity]).
    unfold counted. simpl. split; [assumption | lia].
  - intros e0 h a w0 w1 _ H. exact H.
  - intros e0 h w0 He Hs Hc [Hmax Hcnt]. apply env_ok_spec in He as (Hne & _).
    assert (Hl : unclaimed w0 !! h = Some (hiddenTransfer w0 h))
      by (apply unclaimed_written; [right; congruence | assumption]).
    assert (Hsz : size (unclaimed w0) = S (size (unclaimed (Callback.cancel_writes h w0))))
      by (apply unclaimed_mark with h; [assumption | reflexivity]).
    unfold counted. simpl. split; [assumption | lia].
  - intros e0 h w0 w1 _ H. exact H.
  - intros n w0 _ H. exact H.
  - intros a w0 _ H. exact H.
Qed.

Lemma cb_reachable_counted (w : World) : Callback.reachable w -> counted w.
Proof.
  induction 1 as [self e fee toks He | w e c Hr IH He].
  - unfold counted, unclaimed; simpl. rewrite map_filter_empty, map_size_empty.
    split; [|reflexivity]. unfold MAX_UINT256. lia.
  - apply counted_exec; assumption.
Qed.

(** With a record still unclaimed, [totalClaimed++] cannot overflow. *)
Lemma cb_escrowed_counted (w : World) (h : bytes32) :
  Callback.reachable w -> escrowed w h ->
  totalClaimed (storage w) + 1 <= totalTransfers (storage w) /\
  totalTransfers (storage w) <= MAX_UINT256.
Proof.
  intros Hr [Hts Hc]. pose proof (cb_reachable_counted _ Hr) as [Hmax Hcnt].
  assert (Hl : unclaimed w !! h = Some (hiddenTransfer w h))
    by (apply unclaimed_written; [left; assumption | assumption]).
  assert (size (unclaimed w) <> 0%nat).
  { apply map_size_ne_0_lookup_2 with h. rewrite Hl. eauto. }
  split; [lia | assumption].
Qed.

(** ** Settled records *)

Lemma xexec_Revert (e : Env) (c : Callback.Tx) (w : World) (err : revert) :
  Callback.xcall e c w = Revert err -> Callback.xexec e c w = w.
Proof. unfold Callback.xexec. intros ->. reflexivity. Qed.

Lemma xclaim_settled (e : Env) (h : bytes32) (r : Callback.Reaction) (w : World) :
  timestamp (hiddenTransfer w h) <> 0 ->
  claimed (hiddenTransfer w h) = true ->
  Callback.xcall e (Callback.XClaim h r) w = Revert (Reason "Already claimed").
Proof.
  intros Hts Hc. simpl. unfold Callback.claimHiddenTransfer.
  assert (Hpos : (0 <? timestamp (hiddenTransfer w h)) = true) by (apply N.ltb_lt; lia).
  rewrite Hpos, Hc. reflexivity.
Qed.

Lemma xcancel_settled (e : Env) (h : bytes32) (r : Callback.Reaction) (w : World) :
  claimed (hiddenTransfer w h) = true ->
  Callback.xcall e (Callback.XCancel h r) w
  = Revert (Reason (if sender (hiddenTransfer w h) =? msg_sender e
                    then "Already claimed" else "Not the sender")).
Proof.
  intros Hc. simpl. unfold Callback.cancelHiddenTransfer. rewrite Hc.
  destruct (sender (hiddenTransfer w h) =? msg_sender e); reflexivity.
Qed.

Lemma sealed_refl (h : bytes32) (w : World) : sealed h w w.
Proof. intros Hts Hc. auto. Qed.

Lemma sealed_trans (h : bytes32) (w1 w2 w3 : World) :
  sealed h w1 w2 -> sealed h w2 w3 -> sealed h w1 w3.
Proof.
  intros H12 H23 Hts Hc. destruct (H12 Hts Hc) as [[Hts2 Hc2] Hn2].
  destruct (H23 Hts2 Hc2) as [Hs3 Hn3]. split; [assumption | congruence].
Qed.

Lemma sealed_with_token (h : bytes32) (tok : address) (t : MockERC20.state) (w : World) :
  sealed h w (with_token tok t w).
Proof. intros Hts Hc. split; [split; assumption | reflexivity]. Qed.

Lemma sealed_token_effect (h : bytes32) (tok : address) (w w1 : World) :
  Callback.token_effect (sealed h) tok w w1 -> sealed h w w1.
Proof.
  intros [(t & t' & _ & ->) | (_ & _ & _ & H)]; [apply sealed_with_token | exact H].
Qed.

Lemma count_events_emit (p : Event -> bool) (ev : Event) (w : World) :
  count_events p (logs (emit ev w))
  = count_events p (logs w) + (if p ev then 1 else 0).
Proof. apply count_events_app. Qed.

Lemma sealed_frame (h : bytes32) (e : Env) (c : Callback.Tx) (w w' : World) :
  Callback.frame (sealed h) e c w w' -> sealed h w w'.
Proof.
  destruct c; simpl.
  - intros (_ & Hz & _ & _ & w1 & w2 & H1 & H2 & _ & ->) Hts Hc.
    destruct (decide (_hash = h)) as [->|Hne]; [contradiction|].
    apply sealed_token_effect in H1.
    assert (H12 : sealed h w w2).
    { destruct H2 as [-> | H2]; [exact H1|].
      apply sealed_token_effect in H2. eapply sealed_trans; eassumption. }
    destruct (H12 Hts Hc) as [Hs Hn].
    rewrite hiddenTransfer_publish_writes, decide_False by assumption.
    split; [assumption|].
    unfold Callback.publish_writes. rewrite count_events_emit. simpl.
    change (logs (with_storage _ w2)) with (logs w2). lia.
  - intros (_ & Hf & _ & _ & w1 & H1 & ->) Hts Hc.
    destruct (decide (_hash = h)) as [->|Hne]; [congruence|].
    apply sealed_token_effect in H1.
    destruct H1 as [Hs Hn].
    + rewrite hiddenTransfer_claim_writes, decide_False by assumption. assumption.
    + rewrite hiddenTransfer_claim_writes, decide_False by assumption. assumption.
    + change (hiddenTransfer (emit _ w1) h) with (hiddenTransfer w1 h).
      split; [assumption|]. rewrite count_events_emit. simpl.
      assert (Hb : (_hash =? h) = false) by (apply N.eqb_neq; assumption).
      rewrite Hb. change (logs (Callback.claim_writes e _hash w)) with (logs w) in Hn. lia.
  - intros (_ & Hf & _ & w1 & H1 & ->) Hts Hc.
    destruct (decide (_hash = h)) as [->|Hne]; [congruence|].
    apply sealed_token_effect in H1.
    destruct H1 as [Hs Hn].
    + rewrite hiddenTransfer_cancel_writes, decide_False by assumption. assumption.
    + rewrite hiddenTransfer_cancel_writes, decide_False by assumption. assumption.
    + change (hiddenTransfer (emit _ w1) h) with (hiddenTransfer w1 h).
      split; [assumption|]. rewrite count_events_emit. simpl.
      change (logs (Callback.cancel_writes _hash w)) with (logs w) in Hn. lia.
  - intros (_ & _ & ->) Hts Hc. split; [auto|].
    rewrite count_events_emit. simpl. change (logs (with_storage _ w)) with (logs w). lia.
  - intros (_ & _ & ->) Hts Hc. auto.
  - intros (_ & H1). apply sealed_token_effect in H1. exact H1.
  - intros (t & t' & _ & ->). apply sealed_with_token.
  - intros (t & t' & _ & ->). apply sealed_with_token.
  - intros (t & t' & _ & ->). apply sealed_with_token.
  - intros (t & t' & _ & ->). apply sealed_with_token.
Qed.

Lemma sealed_exec (h : bytes32) (e : Env) (c : Callback.Tx) (w : World) :
  sealed h w (Callback.xexec e c w).
Proof.
  apply (frames_exec (fun _ _ => True) (fun _ _ _ _ _ _ => I) (sealed h)); [| | |exact I].
  - apply sealed_refl.
  - apply sealed_trans.
  - intros e0 c0 w0 w0' _. apply sealed_frame.
Qed.

Lemma sealed_xrun (h : bytes32) (txs : list (Env * Callback.Tx)) (w : World) :
  sealed h w (Callback.xrun txs w).
Proof.
  revert w. induction txs as [|[e c] txs IH]; intros w; simpl.
  - apply sealed_refl.
  - eapply sealed_trans; [apply sealed_exec | apply IH].
Qed.

(** A claim that pays from a ledger of the world: every way it can end.
    The callee being a ledger, no reaction is consulted. *)
Lemma xclaim_ledger (e : Env) (h : bytes32) (payout : Callback.Reaction) (w : World)
    (t : MockERC20.state) :
  Callback.reachable w ->
  escrowed w h ->
  let r := hiddenTransfer w h in
  0 < amount r ->
  tokens w !! token r = Some t ->
  Callback.xcall e (Callback.XClaim h payout) w =
  match MockERC20.transfer (this w) (msg_sender e) (amount r) t with
  | Ok (_, t') => Ok (claimed_world e h t' w)
  | Revert err => Revert err
  end.
Proof.
  intros Hr [Hts Hc] r Hpos Ht. simpl. unfold Callback.claimHiddenTransfer. fold r.
  assert (H1 : (0 <? timestamp r) = true) by (apply N.ltb_lt; unfold r; lia).
  assert (H2 : (0 <? amount r) = true) by (apply N.ltb_lt; lia).
  rewrite H1, H2. unfold r at 1. rewrite Hc. simpl.
  destruct (cb_escrowed_counted w h Hr (conj Hts Hc)) as [Hc1 Hc2].
  unfold checked_add.
  assert (Hle : (totalClaimed (storage w) + 1 <=? MAX_UINT256) = true)
    by (apply N.leb_le; lia).
  rewrite Hle. simpl. rewrite !claim_mid_record. cbn [token amount mark_claimed].
  unfold Callback.token_call. simpl. rewrite Ht.
  destruct (MockERC20.transfer (this w) (msg_sender e) (amount r) t)
    as [[b t']|err] eqn:Htr; [|reflexivity].
  apply MockERC20Facts.transfer_Ok in Htr as (Hb & _). simpl in Hb. subst b. simpl.
  unfold hiddenTransfer at 1; simpl. rewrite lookup_insert_eq. reflexivity.
Qed.

(** ** What a token's calls back keep *)

(** A reflexive, transitive relation that every transaction keeps is
    kept by a token's whole script, and so by every call to a token. *)
Section Scripts.
Variable R : World -> World -> Prop.
Hypothesis R_refl : forall w, R w w.
Hypothesis R_trans : forall w1 w2 w3, R w1 w2 -> R w2 w3 -> R w1 w3.
Hypothesis R_exec : forall e c w, R w (Callback.xexec e c w).
Hypothesis R_token : forall tok t w, R w (with_token tok t w).

Lemma script_kept (e : Env) (s : Callback.Script) (w : World) :
  R w (Callback.run_script e s w).
Proof.
  revert w. induction s as [|who c rest IH]; intros w; simpl; [apply R_refl|].
  destruct ((who =? 0) || (who =? this w)); [apply IH|].
  eapply R_trans; [apply (R_exec (Callback.callback_env e who) c) | apply IH].
Qed.

Lemma token_call_kept (e : Env) (tok : address) (r : Callback.Reaction)
    (f : MockERC20.state -> result (bool * MockERC20.state)) (msg : string)
    (w w1 : World) :
  Callback.token_call tok (Callback.behave e r) f msg w = Ok w1 -> R w w1.
Proof.
  intros H.
  apply cb_token_call_Ok in H as [(t & t' & _ & _ & ->) | (_ & _ & _ & eff & Hb & ->)].
  - apply R_token.
  - destruct r as [|s ret]; simpl in Hb; [discriminate|].
    injection Hb as <- _. apply script_kept.
Qed.

(** A claim that succeeds: the checks passed, the writes were made, the
    token was called and the event emitted. *)
Lemma xclaim_Ok (e : Env) (h : bytes32) (r : Callback.Reaction) (w w' : World) :
  Callback.xcall e (Callback.XClaim h r) w = Ok w' ->
  0 < timestamp (hiddenTransfer w h) /\
  claimed (hiddenTransfer w h) = false /\
  0 < amount (hiddenTransfer w h) /\
  exists w1,
    R (Callback.claim_writes e h w) w1 /\
    w' = emit (TransferClaimed h (msg_sender e) (amount (hiddenTransfer w1 h))) w1.
Proof.
  intros H. simpl in H.
  unfold Callback.claimHiddenTransfer in H. inv_ok H. injection H as <-.
  apply N.ltb_lt in Hstep, Hstep1. apply negb_true_iff in Hstep0.
  match type of Hstep2 with _ = Ok ?x => rename x into w1 end.
  rewrite !claim_mid_record in Hstep2. cbn [token amount mark_claimed] in Hstep2.
  apply token_call_kept in Hstep2.
  repeat (split; [assumption|]). exists w1. split; [exact Hstep2 | reflexivity].
Qed.

End Scripts.

(** A claim that goes through settles the record, for good: the record
    is marked and one [TransferClaimed] event is logged, whatever the
    token does while it is asked to pay; and after any transactions,
    whatever the tokens in them do, the record is still marked, the log
    has no further claim of it, and a claim of it reverts. *)
Lemma claim_seals (e : Env) (h : bytes32) (r : Callback.Reaction) (w w' : World) :
  Callback.xcall e (Callback.XClaim h r) w = Ok w' ->
  (timestamp (hiddenTransfer w' h) <> 0 /\ claimed (hiddenTransfer w' h) = true) /\
  count_events (claims h) (logs w') = count_events (claims h) (logs w) + 1.
Proof.
  intros H.
  apply (xclaim_Ok (sealed h) (sealed_refl h) (sealed_trans h) (sealed_exec h)
           (sealed_with_token h)) in H
    as (Hts & Hc & _ & w1 & Hs & ->).
  destruct Hs as [Hrec Hn].
  - rewrite hiddenTransfer_claim_writes, decide_True by reflexivity. simpl. lia.
  - rewrite hiddenTransfer_claim_writes, decide_True by reflexivity. reflexivity.
  - change (hiddenTransfer (emit _ w1) h) with (hiddenTransfer w1 h).
    split; [assumption|]. rewrite count_events_emit. simpl. rewrite N.eqb_refl.
    change (logs (Callback.claim_writes e h w)) with (logs w) in Hn. lia.
Qed.

Lemma settled_stays (h : bytes32) (txs : list (Env * Callback.Tx)) (w : World) :
  timestamp (hiddenTransfer w h) <> 0 ->
  claimed (hiddenTransfer w h) = true ->
  hiddenTransfer (Callback.xrun txs w) h = hiddenTransfer w h /\
  count_events (claims h) (logs (Callback.xrun txs w)) = count_events (claims h) (logs w).
Proof.
  intros Hts Hc. destruct (sealed_xrun h txs w Hts Hc) as [[_ Hc'] Hn].
  split; [|exact Hn].
  destruct (xrun_existing txs w h Hts) as [Hsame _].
  apply same_record; [assumption | congruence].
Qed.

(** ** Reachability of the scenario worlds *)

Lemma funded_reachable : Callback.reachable Reentry.funded.
Proof.
  apply (Callback.reachable_step _ (Scenario.at_ Scenario.deployer 1000)
           (Callback.XTokenMint Scenario.tok Reentry.evil (100 * Scenario.ether))).
  - apply Callback.reachable_deploy. vm_compute. reflexivity.
  - vm_compute. reflexivity.
Qed.

Lemma after_reachable : Callback.reachable Reentry.after.
Proof.
  apply Callback.reachable_step; [apply funded_reachable | vm_compute; reflexivity].
Qed.

Lemma claimed_again_reachable : Callback.reachable Reentry.claimed_again.
Proof.
  apply Callback.reachable_step; [apply after_reachable | vm_compute; reflexivity].
Qed.

(** ** The counters and the log *)

Lemma tally_refl (w : World) : tally w w.
Proof. split; reflexivity. Qed.

Lemma tally_trans (w1 w2 w3 : World) : tally w1 w2 -> tally w2 w3 -> tally w1 w3.
Proof. unfold tally. intros [H1 H2] [H3 H4]. split; lia. Qed.

Lemma tally_token_effect (tok : address) (w w1 : World) :
  Callback.token_effect tally tok w w1 -> tally w w1.
Proof.
  intros [(t & t' & _ & ->) | (_ & _ & _ & H)]; [split; reflexivity | exact H].
Qed.

Lemma tally_frame (e : Env) (c : Callback.Tx) (w w' : World) :
  Callback.frame tally e c w w' -> tally w w'.
Proof.
  destruct c; simpl.
  - intros (_ & _ & _ & _ & w1 & w2 & H1 & H2 & _ & ->).
    apply tally_token_effect in H1.
    assert (H12 : tally w w2).
    { destruct H2 as [-> | H2]; [exact H1|].
      apply tally_token_effect in H2. eapply tally_trans; eassumption. }
    destruct H12 as [Hp Hc]. unfold tally, Callback.publish_writes.
    rewrite !count_events_emit. simpl.
    change (logs (with_storage ?f w2)) with (logs w2). split; lia.
  - intros (_ & _ & _ & _ & w1 & H1 & ->).
    apply tally_token_effect in H1. destruct H1 as [Hp Hc]. unfold tally.
    rewrite !count_events_emit. simpl. simpl in Hp, Hc.
    change (logs (Callback.claim_writes e _hash w)) with (logs w) in Hp, Hc.
    split; lia.
  - intros (_ & _ & _ & w1 & H1 & ->).
    apply tally_token_effect in H1. destruct H1 as [Hp Hc]. unfold tally.
    rewrite !count_events_emit. simpl. simpl in Hp, Hc.
    change (logs (Callback.cancel_writes _hash w)) with (logs w) in Hp, Hc.
    split; lia.
  - intros (_ & _ & ->). unfold tally. rewrite !count_events_emit. simpl.
    change (logs (with_storage ?f w)) with (logs w). split; lia.
  - intros (_ & _ & ->). split; reflexivity.
  - intros (_ & H1). apply tally_token_effect in H1. exact H1.
  - intros (t & t' & _ & ->). split; reflexivity.
  - intros (t & t' & _ & ->). split; reflexivity.
  - intros (t & t' & _ & ->). split; reflexivity.
  - intros (t & t' & _ & ->). split; reflexivity.
Qed.

Lemma tally_exec (e : Env) (c : Callback.Tx) (w : World) :
  tally w (Callback.xexec e c w).
Proof.
  apply (frames_exec (fun _ _ => True) (fun _ _ _ _ _ _ => I) tally); [| | |exact I].
  - apply tally_refl.
  - apply tally_trans.
  - intros e0 c0 w0 w0' _. apply tally_frame.
Qed.

(** No call stores more records than it counts in [totalTransfers]. *)
Lemma records_bounded_exec (e : Env) (c : Callback.Tx) (w : World) :
  env_ok (this w) e ->
  N.of_nat (size (hiddenTransfers (storage w))) <= totalTransfers (storage w) ->
  N.of_nat (size (hiddenTransfers (storage (Callback.xexec e c w))))
  <= totalTransfers (storage (Callback.xexec e c w)).
Proof.
  apply (invariant_exec
           (fun w => N.of_nat (size (hiddenTransfers (storage w)))
                     <= totalTransfers (storage w))).
  - intros tok t' w0 H. exact H.
  - intros e0 h tok a w0 w1 _ _ _ _ _ H.
    unfold Callback.publish_writes; simpl. rewrite map_size_insert.
    destruct (hiddenTransfers (storage w1) !! h); simpl; lia.
  - intros e0 h w0 _ Hts _ _ H. unfold Callback.claim_writes; simpl.
    rewrite map_size_insert, written_lookup by (left; lia). exact H.
  - intros e0 h a w0 w1 _ H. exact H.
  - intros e0 h w0 He Hs _ H. apply env_ok_spec in He as (Hne & _).
    unfold Callback.cancel_writes; simpl.
    rewrite map_size_insert, written_lookup by (right; congruence). exact H.
  - intros e0 h w0 w1 _ H. exact H.
  - intros n w0 _ H. exact H.
  - intros a w0 _ H. exact H.
Qed.

(** ** The flags and the log *)

Lemma accounted_refl (h : bytes32) (w : World) : accounted h w w.
Proof. split; [apply grows_refl | auto]. Qed.

Lemma existsb_grows (p : Event -> bool) (w w' : World) :
  Callback.grows w w' -> existsb p (logs w) = true -> existsb p (logs w') = true.
Proof.
  intros (_ & [l Hl] & _) H. rewrite Hl, existsb_app, H. reflexivity.
Qed.

Lemma accounted_trans (h : bytes32) (w1 w2 w3 : World) :
  accounted h w1 w2 -> accounted h w2 w3 -> accounted h w1 w3.
Proof.
  intros [Hg1 H1] [Hg2 H2]. split; [eapply grows_trans; eassumption|].
  intros Hc. destruct (H2 Hc) as [Hc2 | Hev]; [|right; assumption].
  destruct (H1 Hc2) as [Hc1 | Hev]; [left; assumption|].
  right. eapply existsb_grows; eassumption.
Qed.

Lemma accounted_with_token (h : bytes32) (tok : address) (t : MockERC20.state)
    (w : World) :
  accounted h w (with_token tok t w).
Proof. split; [apply grows_with_token | auto]. Qed.

Lemma accounted_token_effect (h : bytes32) (tok : address) (w w1 : World) :
  Callback.token_effect (accounted h) tok w w1 -> accounted h w w1.
Proof.
  intros [(t & t' & _ & ->) | (_ & _ & _ & H)]; [apply accounted_with_token | exact H].
Qed.

Lemma accounted_frame (h : bytes32) (e : Env) (c : Callback.Tx) (w w' : World) :
  Callback.frame (accounted h) e c w w' -> accounted h w w'.
Proof.
  intros Hf.
  assert (Hg : Callback.grows w w').
  { apply (grows_frame e c). revert Hf. apply frame_mono. intros a b [H _]. exact H. }
  split; [exact Hg|].
  destruct c; simpl in Hf.
  - destruct Hf as (_ & _ & _ & _ & w1 & w2 & H1 & H2 & _ & ->).
    apply accounted_token_effect in H1.
    assert (H12 : accounted h w w2).
    { destruct H2 as [-> | H2]; [exact H1|].
      apply accounted_token_effect in H2. eapply accounted_trans; eassumption. }
    rewrite hiddenTransfer_publish_writes.
    destruct (decide (_hash = h)) as [->|Hne]; [discriminate|].
    intros Hc. destruct (proj2 H12 Hc) as [Hc0 | Hev]; [left; assumption|].
    right. unfold Callback.publish_writes, emit; simpl.
    rewrite existsb_snoc, Hev. reflexivity.
  - destruct Hf as (_ & _ & _ & _ & w1 & H1 & ->).
    apply accounted_token_effect in H1. destruct H1 as [_ H1].
    change (hiddenTransfer (emit ?ev w1) h) with (hiddenTransfer w1 h).
    intros Hc. unfold emit; simpl. rewrite existsb_snoc.
    destruct (H1 Hc) as [Hc0 | Hev]; [|right; rewrite Hev; reflexivity].
    rewrite hiddenTransfer_claim_writes in Hc0.
    destruct (decide (_hash = h)) as [->|Hne]; [|left; assumption].
    right. simpl. rewrite N.eqb_refl. apply orb_true_r.
  - destruct Hf as (_ & _ & _ & w1 & H1 & ->).
    apply accounted_token_effect in H1. destruct H1 as [_ H1].
    change (hiddenTransfer (emit ?ev w1) h) with (hiddenTransfer w1 h).
    intros Hc. unfold emit; simpl. rewrite existsb_snoc.
    destruct (H1 Hc) as [Hc0 | Hev]; [|right; rewrite Hev; reflexivity].
    rewrite hiddenTransfer_cancel_writes in Hc0.
    destruct (decide (_hash = h)) as [->|Hne]; [|left; assumption].
    right. simpl. rewrite N.eqb_refl. apply orb_true_r.
  - destruct Hf as (_ & _ & ->). auto.
  - destruct Hf as (_ & _ & ->). auto.
  - destruct Hf as (_ & H1). apply accounted_token_effect in H1. apply H1.
  - destruct Hf as (t & t' & _ & ->). auto.
  - destruct Hf as (t & t' & _ & ->). auto.
  - destruct Hf as (t & t' & _ & ->). auto.
  - destruct Hf as (t & t' & _ & ->). auto.
Qed.

Lemma accounted_exec (h : bytes32) (e : Env) (c : Callback.Tx) (w : World) :
  accounted h w (Callback.xexec e c w).
Proof.
  apply (frames_exec (fun _ _ => True) (fun _ _ _ _ _ _ => I) (accounted h));
    [| | |exact I].
  - apply accounted_refl.
  - apply accounted_trans.
  - intros e0 c0 w0 w0' _. apply accounted_frame.
Qed.

(** ** The received lists and the log *)

Lemma receipt_refl (u : address) (h : bytes32) (w : World) : receipt u h w w.
Proof. split; [apply grows_refl | auto]. Qed.

Lemma elem_of_grows (ev : Event) (w w' : World) :
  Callback.grows w w' -> ev ∈ logs w -> ev ∈ logs w'.
Proof. intros (_ & [l Hl] & _) H. rewrite Hl. apply elem_of_app. left. exact H. Qed.

Lemma receipt_trans (u : address) (h : bytes32) (w1 w2 w3 : World) :
  receipt u h w1 w2 -> receipt u h w2 w3 -> receipt u h w1 w3.
Proof.
  intros [Hg1 H1] [Hg2 H2]. split; [eapply grows_trans; eassumption|].
  intros Hin. destruct (H2 Hin) as [Hin2 | Hev]; [|right; assumption].
  destruct (H1 Hin2) as [Hin1 | [a Hev]]; [left; assumption|].
  right. exists a. eapply elem_of_grows; eassumption.
Qed.

Lemma receipt_with_token (u : address) (h : bytes32) (tok : address)
    (t : MockERC20.state) (w : World) :
  receipt u h w (with_token tok t w).
Proof. split; [apply grows_with_token | auto]. Qed.

Lemma receipt_token_effect (u : address) (h : bytes32) (tok : address) (w w1 : World) :
  Callback.token_effect (receipt u h) tok w w1 -> receipt u h w w1.
Proof.
  intros [(t & t' & _ & ->) | (_ & _ & _ & H)]; [apply receipt_with_token | exact H].
Qed.

Lemma receipt_frame (u : address) (h : bytes32) (e : Env) (c : Callback.Tx)
    (w w' : World) :
  Callback.frame (receipt u h) e c w w' -> receipt u h w w'.
Proof.
  intros Hf.
  assert (Hg : Callback.grows w w').
  { apply (grows_frame e c). revert Hf. apply frame_mono. intros a b [H _]. exact H. }
  split; [exact Hg|].
  destruct c; simpl in Hf.
  - destruct Hf as (_ & _ & _ & _ & w1 & w2 & H1 & H2 & _ & ->).
    apply receipt_token_effect in H1.
    assert (H12 : receipt u h w w2).
    { destruct H2 as [-> | H2]; [exact H1|].
      apply receipt_token_effect in H2. eapply receipt_trans; eassumption. }
    change (receivedTransfers (Callback.publish_writes ?e0 ?h0 ?t0 ?a0 w2) u)
      with (receivedTransfers w2 u).
    intros Hin. destruct (proj2 H12 Hin) as [Hin0 | [a Hev]]; [left; assumption|].
    right. exists a. unfold Callback.publish_writes, emit; simpl.
    apply elem_of_app. left. exact Hev.
  - destruct Hf as (_ & _ & _ & _ & w1 & H1 & ->).
    apply receipt_token_effect in H1. destruct H1 as [_ H1].
    change (receivedTransfers (emit ?ev w1) u) with (receivedTransfers w1 u).
    intros Hin. unfold emit; simpl.
    destruct (H1 Hin) as [Hin0 | [a Hev]].
    + rewrite receivedTransfers_claim_writes in Hin0.
      destruct (decide (msg_sender e = u)) as [<-|Hne]; [|left; assumption].
      apply elem_of_app in Hin0 as [Hin0 | Hin0]; [left; assumption|].
      apply list_elem_of_singleton in Hin0. subst h.
      right. eexists. apply elem_of_app. right. apply list_elem_of_singleton. reflexivity.
    + right. exists a. apply elem_of_app. left. exact Hev.
  - destruct Hf as (_ & _ & _ & w1 & H1 & ->).
    apply receipt_token_effect in H1. destruct H1 as [_ H1].
    change (receivedTransfers (emit ?ev w1) u) with (receivedTransfers w1 u).
    intros Hin. unfold emit; simpl.
    destruct (H1 Hin) as [Hin0 | [a Hev]]; [left; exact Hin0|].
    right. exists a. apply elem_of_app. left. exact Hev.
  - destruct Hf as (_ & _ & ->). auto.
  - destruct Hf as (_ & _ & ->). auto.
  - destruct Hf as (_ & H1). apply receipt_token_effect in H1. apply H1.
  - destruct Hf as (t & t' & _ & ->). auto.
  - destruct Hf as (t & t' & _ & ->). auto.
  - destruct Hf as (t & t' & _ & ->). auto.
  - destruct Hf as (t & t' & _ & ->). auto.
Qed.

Lemma receipt_exec (u : address) (h : bytes32) (e : Env) (c : Callback.Tx) (w : World) :
  receipt u h w (Callback.xexec e c w).
Proof.
  apply (frames_exec (fun _ _ => True) (fun _ _ _ _ _ _ => I) (receipt u h));
    [| | |exact I].
  - apply receipt_refl.
  - apply receipt_trans.
  - intros e0 c0 w0 w0' _. apply receipt_frame.
Qed.

(** ** The lists and the log, in every state *)

Lemma sum_of_push (m : gmap address (list bytes32)) (u : address) (h : bytes32) :
  sum_of list_length (<[u := default [] (m !! u) ++ [h]]> m)
  = sum_of list_length m + 1.
Proof.
  pose proof (sum_of_insert list_length m u (default [] (m !! u) ++ [h])) as Hsum.
  assert (Hold : from_option list_length 0 (m !! u) = list_length (default [] (m !! u))).
  { destruct (m !! u); reflexivity. }
  rewrite Hold, list_length_snoc in Hsum. lia.
Qed.

Lemma published_snoc (l : list Event) (ev : Event) (h : bytes32) (u : address) :
  is_published ev = false ->
  (exists tok a, TransferPublished h u tok a ∈ l ++ [ev]) <->
  (exists tok a, TransferPublished h u tok a ∈ l).
Proof.
  intros Hev. split; intros (tok & a & Hin); exists tok, a.
  - apply elem_of_app in Hin as [Hin | Hin]; [assumption|].
    apply list_elem_of_singleton in Hin. subst ev. discriminate.
  - apply elem_of_app. left. assumption.
Qed.

(** The sent lists in every state, also those a token sees when called. *)
Lemma sent_lists_exec (e : Env) (c : Callback.Tx) (w : World) :
  env_ok (this w) e ->
  ((forall u h, h ∈ sentTransfers w u <->
                exists tok a, TransferPublished h u tok a ∈ logs w) /\
   (forall h, timestamp (hiddenTransfer w h) <> 0 ->
              h ∈ sentTransfers w (sender (hiddenTransfer w h))) /\
   sum_of list_length (userSentTransfers (storage w)) = totalTransfers (storage w)) ->
  let w' := Callback.xexec e c w in
  (forall u h, h ∈ sentTransfers w' u <->
               exists tok a, TransferPublished h u tok a ∈ logs w') /\
  (forall h, timestamp (hiddenTransfer w' h) <> 0 ->
             h ∈ sentTransfers w' (sender (hiddenTransfer w' h))) /\
  sum_of list_length (userSentTransfers (storage w')) = totalTransfers (storage w').
Proof.
  intros He Hw w'. subst w'. revert He Hw.
  apply (invariant_exec
           (fun w =>
              (forall u h, h ∈ sentTransfers w u <->
                           exists tok a, TransferPublished h u tok a ∈ logs w) /\
              (forall h, timestamp (hiddenTransfer w h) <> 0 ->
                         h ∈ sentTransfers w (sender (hiddenTransfer w h))) /\
              sum_of list_length (userSentTransfers (storage w))
              = totalTransfers (storage w))).
  - intros tok t' w0 H. exact H.
  - intros e0 h tok a w0 w1 _ _ _ _ _ (Hm & Hs & Hsum). split; [|split].
    + intros u h'. rewrite sentTransfers_publish_writes.
      unfold Callback.publish_writes at 1, emit; simpl.
      destruct (decide (msg_sender e0 = u)) as [<-|Hne].
      * rewrite elem_of_app, list_elem_of_singleton, Hm. split.
        -- intros [(tok' & a' & Hin) | ->].
           ++ exists tok', a'. apply elem_of_app. left. exact Hin.
           ++ exists tok, a. apply elem_of_app. right.
              apply list_elem_of_singleton. reflexivity.
        -- intros (tok' & a' & Hin). apply elem_of_app in Hin as [Hin | Hin].
           ++ left. eauto.
           ++ apply list_elem_of_singleton in Hin. injection Hin as -> _ _. right.
              reflexivity.
      * rewrite Hm. split.
        -- intros (tok' & a' & Hin). exists tok', a'. apply elem_of_app. left. exact Hin.
        -- intros (tok' & a' & Hin). apply elem_of_app in Hin as [Hin | Hin]; [eauto|].
           apply list_elem_of_singleton in Hin. injection Hin as _ Hu _. congruence.
    + intros h'. rewrite hiddenTransfer_publish_writes.
      destruct (decide (h = h')) as [<-|Hne]; simpl.
      * intros _. rewrite sentTransfers_publish_writes, decide_True by reflexivity.
        apply elem_of_app. right. apply list_elem_of_singleton. reflexivity.
      * intros Hts. apply Hs in Hts. rewrite sentTransfers_publish_writes.
        destruct (decide _); [apply elem_of_app; left|]; exact Hts.
    + unfold Callback.publish_writes; simpl. rewrite sum_of_push. lia.
  - intros e0 h w0 _ _ _ _ (Hm & Hs & Hsum). split; [|split].
    + exact Hm.
    + intros h'. rewrite hiddenTransfer_claim_writes.
      change (sentTransfers (Callback.claim_writes e0 h w0)) with (sentTransfers w0).
      destruct (decide (h = h')) as [<-|Hne]; [|apply Hs]. simpl. apply Hs.
    + exact Hsum.
  - intros e0 h a w0 w1 _ (Hm & Hs & Hsum). split; [|split].
    + intros u h'. unfold emit at 2; simpl. rewrite published_snoc by reflexivity.
      apply Hm.
    + exact Hs.
    + exact Hsum.
  - intros e0 h w0 _ _ _ (Hm & Hs & Hsum). split; [|split].
    + exact Hm.
    + intros h'. rewrite hiddenTransfer_cancel_writes.
      change (sentTransfers (Callback.cancel_writes h w0)) with (sentTransfers w0).
      destruct (decide (h = h')) as [<-|Hne]; [|apply Hs]. simpl. apply Hs.
    + exact Hsum.
  - intros e0 h w0 w1 _ (Hm & Hs & Hsum). split; [|split].
    + intros u h'. unfold emit at 2; simpl. rewrite published_snoc by reflexivity.
      apply Hm.
    + exact Hs.
    + exact Hsum.
  - intros n w0 _ (Hm & Hs & Hsum). split; [|split].
    + intros u h'. unfold emit at 2; simpl. rewrite published_snoc by reflexivity.
      apply Hm.
    + exact Hs.
    + exact Hsum.
  - intros a w0 _ H. exact H.
Qed.

(** The received lists in every state: every logged claim is listed
    under its claimer, and the lists add up to [totalClaimed]. *)
Lemma received_lists_exec (e : Env) (c : Callback.Tx) (w : World) :
  env_ok (this w) e ->
  ((forall u h a, TransferClaimed h u a ∈ logs w -> h ∈ receivedTransfers w u) /\
   sum_of list_length (userReceivedTransfers (storage w)) = totalClaimed (storage w)) ->
  let w' := Callback.xexec e c w in
  (forall u h a, TransferClaimed h u a ∈ logs w' -> h ∈ receivedTransfers w' u) /\
  sum_of list_length (userReceivedTransfers (storage w')) = totalClaimed (storage w').
Proof.
  intros He Hw w'. subst w'. revert He Hw.
  apply (invariant_exec
           (fun w =>
              (forall u h a, TransferClaimed h u a ∈ logs w -> h ∈ receivedTransfers w u) /\
              sum_of list_length (userReceivedTransfers (storage w))
              = totalClaimed (storage w))).
  - intros tok t' w0 H. exact H.
  - intros e0 h tok a w0 w1 _ _ _ _ _ (Hm & Hsum). split; [|exact Hsum].
    intros u h' a'. unfold Callback.publish_writes at 1, emit; simpl.
    intros Hin. apply elem_of_app in Hin as [Hin | Hin]; [exact (Hm u h' a' Hin)|].
    apply list_elem_of_singleton in Hin. discriminate.
  - intros e0 h w0 _ _ _ _ (Hm & Hsum). split.
    + intros u h' a' Hin. apply (Hm u h' a') in Hin.
      rewrite receivedTransfers_claim_writes.
      destruct (decide _); [apply elem_of_app; left|]; exact Hin.
    + unfold Callback.claim_writes; simpl. rewrite sum_of_push. lia.
  - intros e0 h a w0 w1 Hg (Hm & Hsum). split; [|exact Hsum].
    intros u h' a'. unfold emit at 1; simpl.
    change (receivedTransfers (emit ?ev w1) u) with (receivedTransfers w1 u).
    intros Hin. apply elem_of_app in Hin as [Hin | Hin]; [exact (Hm u h' a' Hin)|].
    apply list_elem_of_singleton in Hin. injection Hin as -> -> _.
    destruct Hg as (_ & _ & _ & Hr & _). destruct (Hr (msg_sender e0)) as [l ->].
    rewrite receivedTransfers_claim_writes, decide_True by reflexivity.
    apply elem_of_app. left. apply elem_of_app. right.
    apply list_elem_of_singleton. reflexivity.
  - intros e0 h w0 _ _ _ H. exact H.
  - intros e0 h w0 w1 _ (Hm & Hsum). split; [|exact Hsum].
    intros u h' a'. unfold emit at 1; simpl.
    intros Hin. apply elem_of_app in Hin as [Hin | Hin]; [exact (Hm u h' a' Hin)|].
    apply list_elem_of_singleton in Hin. discriminate.
  - intros n w0 _ (Hm & Hsum). split; [|exact Hsum].
    intros u h' a'. unfold emit at 1; simpl.
    intros Hin. apply elem_of_app in Hin as [Hin | Hin]; [exact (Hm u h' a' Hin)|].
    apply list_elem_of_singleton in Hin. discriminate.
  - intros a w0 _ H. exact H.
Qed.

(** ** Claiming once, and what a re-entered publish undoes *)

(** C1, as the code has it.  Take a world between two transactions and
    an escrowed, unclaimed identifier in it; tokens may be any code and
    may call the contract back while they are called.

    Where the recorded amount is positive and still in the contract's
    custody on one of the ledgers (and fits on top of the caller's
    balance), a claim by any account succeeds and moves exactly the
    recorded amount of the record's token from the contract to the
    caller, and nothing else.

    Whenever the claim succeeds, it sets [claimed] and logs one
    [TransferClaimed] event for the identifier; and from then on,
    whatever transactions follow, no further [TransferClaimed] event
    for it is logged, by any call at any depth, and every claim of it
    reverts with "Already claimed" and leaves the world, so every
    balance, as it is. *)
Theorem claim_once (e : Env) (w : World) (h : bytes32) (payout : Callback.Reaction) :
  Callback.reachable w ->
  escrowed w h ->
  let r := hiddenTransfer w h in
  (0 < amount r ->
   msg_sender e <> this w ->
   amount r <= tokenBalance w (token r) (this w) ->
   tokenBalance w (token r) (msg_sender e) + amount r <= MAX_UINT256 ->
   exists w',
     Callback.xcall e (Callback.XClaim h payout) w = Ok w' /\
     tokenBalance w' (token r) (msg_sender e)
     = tokenBalance w (token r) (msg_sender e) + amount r /\
     tokenBalance w' (token r) (this w) = tokenBalance w (token r) (this w) - amount r /\
     (forall tok a, tok <> token r \/ (a <> msg_sender e /\ a <> this w) ->
                    tokenBalance w' tok a = tokenBalance w tok a)) /\
  (forall w',
     Callback.xcall e (Callback.XClaim h payout) w = Ok w' ->
     claimed (hiddenTransfer w' h) = true /\
     count_events (claims h) (logs w') = count_events (claims h) (logs w) + 1 /\
     forall txs,
       count_events (claims h) (logs (Callback.xrun txs w'))
       = count_events (claims h) (logs w') /\
       forall e2 again,
         Callback.xcall e2 (Callback.XClaim h again) (Callback.xrun txs w')
         = Revert (Reason "Already claimed") /\
         Callback.xexec e2 (Callback.XClaim h again) (Callback.xrun txs w')
         = Callback.xrun txs w').
Proof.
  intros Hr Hesc r. split.
  - intros Hpos Hne Hbal Hmax.
    assert (Hdep : is_Some (tokens w !! token r)).
    { apply (tokenBalance_pos_deployed w (token r) (this w)). lia. }
    destruct (payout_succeeds w (token r) (msg_sender e) (amount r) Hdep Hne Hbal Hmax)
      as (t & t' & Ht & Htr).
    pose proof (xclaim_ledger e h payout w t Hr Hesc Hpos Ht) as Hspec.
    cbv zeta in Hspec. fold r in Hspec. rewrite Htr in Hspec.
    exists (claimed_world e h t' w). split; [exact Hspec|].
    exact (payout_balances w (token r) (msg_sender e) (amount r) t t' true Ht Htr Hne).
  - intros w' Hok. destruct (claim_seals e h payout w w' Hok) as [[Hts Hc] Hn].
    split; [exact Hc|]. split; [exact Hn|]. intros txs.
    destruct (settled_stays h txs w' Hts Hc) as [Hrec Hsame].
    split; [exact Hsame|]. intros e2 again.
    assert (Hcall : Callback.xcall e2 (Callback.XClaim h again) (Callback.xrun txs w')
                    = Revert (Reason "Already claimed")).
    { apply xclaim_settled; rewrite Hrec; assumption. }
    split; [exact Hcall | exact (xexec_Revert _ _ _ _ Hcall)].
Qed.

Lemma claim_once_witness :
  exists w',
    Callback.xcall (Scenario.at_ Scenario.bob 3000)
      (Callback.XClaim Scenario.testHash Callback.Silent) Scenario.published = Ok w' /\
    claimed (hiddenTransfer w' Scenario.testHash) = true /\
    tokenBalance w' Scenario.tok Scenario.bob
    = tokenBalance Scenario.published Scenario.tok Scenario.bob + Drained.escrow /\
    Callback.xcall (Scenario.at_ Scenario.bob 3001)
      (Callback.XClaim Scenario.testHash Callback.Silent) w'
    = Revert (Reason "Already claimed").
Proof.
  set (e := Scenario.at_ Scenario.bob 3000).
  set (r := hiddenTransfer Scenario.published Scenario.testHash).
  assert (Hpos : 0 < amount r) by (vm_compute; reflexivity).
  assert (Hne : msg_sender e <> this Scenario.published) by (vm_compute; discriminate).
  assert (Hbal : amount r <= tokenBalance Scenario.published (token r)
                               (this Scenario.published))
    by (vm_compute; discriminate).
  assert (Hmax : tokenBalance Scenario.published (token r) (msg_sender e) + amount r
                 <= MAX_UINT256)
    by (vm_compute; discriminate).
  destruct (claim_once e Scenario.published Scenario.testHash Callback.Silent
              (reachable_quiet _ published_reachable) published_escrowed)
    as [Hpay Honce].
  destruct (Hpay Hpos Hne Hbal Hmax) as (w' & Hok & Hto & _ & _).
  destruct (Honce w' Hok) as (Hc & _ & Hagain).
  exists w'. split; [exact Hok|]. split; [exact Hc|]. split.
  - replace Scenario.tok with (token r) by (vm_compute; reflexivity).
    replace Scenario.bob with (msg_sender e) by (vm_compute; reflexivity).
    replace Drained.escrow with (amount r) by (vm_compute; reflexivity).
    exact Hto.
  - exact (proj1 (proj2 (Hagain []) (Scenario.at_ Scenario.bob 3001) Callback.Silent)).
Defined.

(** C5, on the code.  [publishHiddenTransfer] checks that the identifier
    is unused (l.70), then calls the token (l.79, l.86), then writes the
    record (l.92).  A token that, asked for the deposit, publishes the
    same identifier and claims it, has the record of that identifier
    written, marked claimed and paid out before the outer call writes
    it again: within Mallory's one transaction the record's flag goes
    from true back to false and its sender, token and amount are
    replaced; [totalTransfers] is 2 with one record stored; and Bob's
    later claim of the identifier succeeds, the second
    [TransferClaimed] event for it. *)
Theorem reentrant_publish_resets_claimed :
  Callback.reachable Reentry.funded /\
  env_ok (this Reentry.funded) (Scenario.at_ Reentry.mallory 2000) /\
  timestamp (hiddenTransfer Reentry.funded Scenario.testHash) = 0 /\
  hiddenTransfer Reentry.inside Scenario.testHash
  = {| sender := Reentry.evil; token := Scenario.tok;
       amount := 100 * Scenario.ether - 100 * Scenario.ether * 50 / 10000;
       timestamp := 2000; claimed := true |} /\
  logs Reentry.inside
  = [ TransferPublished Scenario.testHash Reentry.evil Scenario.tok
        (100 * Scenario.ether - 100 * Scenario.ether * 50 / 10000);
      TransferClaimed Scenario.testHash Reentry.evil
        (100 * Scenario.ether - 100 * Scenario.ether * 50 / 10000) ] /\
  Callback.xcall (Scenario.at_ Reentry.mallory 2000) Reentry.attack Reentry.funded
  = Ok (Callback.publish_writes (Scenario.at_ Reentry.mallory 2000) Scenario.testHash
          Reentry.evil (40 * Scenario.ether - 40 * Scenario.ether * 50 / 10000)
          Reentry.inside) /\
  hiddenTransfer Reentry.after Scenario.testHash
  = {| sender := Reentry.mallory; token := Reentry.evil;
       amount := 40 * Scenario.ether - 40 * Scenario.ether * 50 / 10000;
       timestamp := 2000; claimed := false |} /\
  totalTransfers (storage Reentry.after) = 2 /\
  size (hiddenTransfers (storage Reentry.after)) = 1%nat /\
  Callback.xcall (Scenario.at_ Scenario.bob 3000)
    (Callback.XClaim Scenario.testHash Reentry.agrees) Reentry.after
  = Ok Reentry.claimed_again /\
  count_events (claims Scenario.testHash) (logs Reentry.claimed_again) = 2.
Proof.
  split; [apply funded_reachable|].
  split; [vm_compute; reflexivity|].
  split; [vm_compute; reflexivity|].
  split; [vm_compute; reflexivity|].
  split; [vm_compute; reflexivity|].
  split; [vm_compute; reflexivity|].
  split; [vm_compute; reflexivity|].
  split; [vm_compute; reflexivity|].
  split; [vm_compute; reflexivity|].
  split; vm_compute; reflexivity.
Qed.

(** X8. A settled record is final between transactions.  Once a record's
    [claimed] flag is set in a world between two transactions, by a
    claim or by a cancel, then after any further transactions, whatever
    the tokens called in them do, the record is still exactly as it was,
    the log has no further [TransferClaimed] event for its identifier,
    every claim of it reverts with "Already claimed", and every cancel
    reverts, with "Already claimed" for the record's sender and with
    "Not the sender" for anyone else. *)
Theorem settled_record_final (w : World) (h : bytes32) (txs : list (Env * Callback.Tx))
    (e : Env) (r : Callback.Reaction) :
  Callback.reachable w ->
  claimed (hiddenTransfer w h) = true ->
  hiddenTransfer (Callback.xrun txs w) h = hiddenTransfer w h /\
  count_events (claims h) (logs (Callback.xrun txs w)) = count_events (claims h) (logs w) /\
  Callback.xcall e (Callback.XClaim h r) (Callback.xrun txs w)
  = Revert (Reason "Already claimed") /\
  Callback.xcall e (Callback.XCancel h r) (Callback.xrun txs w)
  = Revert (Reason (if sender (hiddenTransfer w h) =? msg_sender e
                    then "Already claimed" else "Not the sender")) /\
  Callback.xexec e (Callback.XClaim h r) (Callback.xrun txs w) = Callback.xrun txs w /\
  Callback.xexec e (Callback.XCancel h r) (Callback.xrun txs w) = Callback.xrun txs w.
Proof.
  intros Hr Hc.
  pose proof (reachable_claimed_written w h Hr Hc) as Hts.
  destruct (settled_stays h txs w Hts Hc) as [Heq Hn].
  assert (Hclaim : Callback.xcall e (Callback.XClaim h r) (Callback.xrun txs w)
                   = Revert (Reason "Already claimed")).
  { apply xclaim_settled; rewrite Heq; assumption. }
  assert (Hcancel : Callback.xcall e (Callback.XCancel h r) (Callback.xrun txs w)
                    = Revert (Reason (if sender (hiddenTransfer w h) =? msg_sender e
                                      then "Already claimed" else "Not the sender"))).
  { rewrite <- Heq. apply xcancel_settled. rewrite Heq. assumption. }
  split; [assumption|]. split; [assumption|]. split; [assumption|].
  split; [assumption|].
  split; [exact (xexec_Revert _ _ _ _ Hclaim) | exact (xexec_Revert _ _ _ _ Hcancel)].
Qed.

Lemma settled_record_final_witness :
  let settled := Callback.xexec (Scenario.at_ Scenario.bob 3000)
                   (Callback.XClaim Scenario.testHash Callback.Silent)
                   Scenario.published in
  let later := Callback.xrun
                 [ (Scenario.at_ Reentry.mallory 4000,
                    Callback.XPublish Scenario.testHash Reentry.evil 5
                      Reentry.on_deposit Reentry.agrees) ] settled in
  let e := Scenario.at_ Scenario.alice (2000 + SEVEN_DAYS) in
  hiddenTransfer later Scenario.testHash = hiddenTransfer settled Scenario.testHash /\
  count_events (claims Scenario.testHash) (logs later)
  = count_events (claims Scenario.testHash) (logs settled) /\
  Callback.xcall e (Callback.XClaim Scenario.testHash Reentry.agrees) later
  = Revert (Reason "Already claimed") /\
  Callback.xcall e (Callback.XCancel Scenario.testHash Reentry.agrees) later
  = Revert (Reason (if sender (hiddenTransfer settled Scenario.testHash) =? msg_sender e
                    then "Already claimed" else "Not the sender")) /\
  Callback.xexec e (Callback.XClaim Scenario.testHash Reentry.agrees) later = later /\
  Callback.xexec e (Callback.XCancel Scenario.testHash Reentry.agrees) later = later.
Proof.
  intros settled later e.
  assert (He : env_ok (this Scenario.published) (Scenario.at_ Scenario.bob 3000))
    by (vm_compute; reflexivity).
  assert (Hc : claimed (hiddenTransfer settled Scenario.testHash) = true)
    by (vm_compute; reflexivity).
  exact (settled_record_final settled Scenario.testHash
           [ (Scenario.at_ Reentry.mallory 4000,
              Callback.XPublish Scenario.testHash Reentry.evil 5
                Reentry.on_deposit Reentry.agrees) ]
           e Reentry.agrees
           (Callback.reachable_step Scenario.published (Scenario.at_ Scenario.bob 3000)
              (Callback.XClaim Scenario.testHash Callback.Silent)
              (reachable_quiet _ published_reachable) He)
           Hc).
Defined.

(** ** Counters, flags and lists between transactions *)

(** X1. In every world between transactions, whatever the tokens do
    when called, the two counters count the events: [totalTransfers] is
    the number of [TransferPublished] events emitted and [totalClaimed]
    the number of [TransferClaimed] events.  The contract never stores
    more records than [totalTransfers] counts, [totalClaimed] never
    exceeds [totalTransfers], and [getStats] returns without
    underflow. *)
Theorem counters_count (w : World) :
  Callback.reachable w ->
  count_events is_published (logs w) = totalTransfers (storage w) /\
  count_events is_claimed (logs w) = totalClaimed (storage w) /\
  N.of_nat (size (hiddenTransfers (storage w))) <= totalTransfers (storage w) /\
  totalClaimed (storage w) <= totalTransfers (storage w) /\
  getStats w = Ok (totalTransfers (storage w), totalClaimed (storage w),
                   totalTransfers (storage w) - totalClaimed (storage w)).
Proof.
  intros Hr. pose proof (cb_reachable_counted w Hr) as Hcnt.
  assert (Hlog : count_events is_published (logs w) = totalTransfers (storage w) /\
                 count_events is_claimed (logs w) = totalClaimed (storage w) /\
                 N.of_nat (size (hiddenTransfers (storage w)))
                 <= totalTransfers (storage w)).
  { clear Hcnt. induction Hr as [self e fee toks He | w e c Hr IH He].
    - simpl. rewrite map_size_empty. repeat split; reflexivity.
    - destruct IH as (IHp & IHc & IHn).
      destruct (tally_exec e c w) as [Hp Hc].
      split; [lia|]. split; [lia|]. apply records_bounded_exec; assumption. }
  destruct Hlog as (Hp & Hc & Hn).
  split; [exact Hp|]. split; [exact Hc|]. split; [exact Hn|].
  split; [destruct Hcnt; lia | apply getStats_counted; assumption].
Qed.

Lemma counters_count_witness :
  count_events is_published (logs Reentry.after) = totalTransfers (storage Reentry.after) /\
  count_events is_claimed (logs Reentry.after) = totalClaimed (storage Reentry.after) /\
  N.of_nat (size (hiddenTransfers (storage Reentry.after)))
  <= totalTransfers (storage Reentry.after) /\
  totalClaimed (storage Reentry.after) <= totalTransfers (storage Reentry.after) /\
  getStats Reentry.after
  = Ok (totalTransfers (storage Reentry.after), totalClaimed (storage Reentry.after),
        totalTransfers (storage Reentry.after) - totalClaimed (storage Reentry.after)).
Proof. exact (counters_count Reentry.after after_reachable). Defined.

(** X2. In every world between transactions, whatever the tokens do
    when called, a record's [claimed] flag is never set silently: where
    it is set, the log holds a [TransferClaimed] or a
    [TransferCancelled] event for the identifier. *)
Theorem claimed_flag_logged (w : World) (h : bytes32) :
  Callback.reachable w ->
  claimed (hiddenTransfer w h) = true ->
  exists ev, ev ∈ logs w /\
             ((exists u a, ev = TransferClaimed h u a) \/
              (exists u, ev = TransferCancelled h u)).
Proof.
  intros Hr Hc.
  assert (Hex : existsb (settles h) (logs w) = true).
  { induction Hr as [self e fee toks He | w e c Hr IH He].
    - unfold hiddenTransfer in Hc. simpl in Hc. rewrite lookup_empty in Hc. discriminate.
    - destruct (accounted_exec h e c w) as [Hg Hacc].
      destruct (Hacc Hc) as [Hc0 | Hev]; [|exact Hev].
      eapply existsb_grows; [exact Hg | apply IH, Hc0]. }
  apply existsb_exists in Hex as (ev & Hin & Hev). exists ev.
  split; [apply list_elem_of_In; assumption|].
  destruct ev; simpl in Hev; try discriminate; apply N.eqb_eq in Hev; subst; eauto.
Qed.

Lemma claimed_flag_logged_witness :
  exists ev, ev ∈ logs Reentry.claimed_again /\
             ((exists u a, ev = TransferClaimed Scenario.testHash u a) \/
              (exists u, ev = TransferCancelled Scenario.testHash u)).
Proof.
  assert (Hc : claimed (hiddenTransfer Reentry.claimed_again Scenario.testHash) = true)
    by (vm_compute; reflexivity).
  exact (claimed_flag_logged Reentry.claimed_again Scenario.testHash
           claimed_again_reachable Hc).
Defined.

(** X3. In every world between transactions, whatever the tokens do
    when called, [getUserSentTransfers] returns for each user exactly
    the identifiers the log has a [TransferPublished] event of that user
    for; the identifier of every stored record is in the list of the
    record's sender; and the lengths of all the sent lists add up to
    [totalTransfers]. *)
Theorem sent_lists_exact (w : World) :
  Callback.reachable w ->
  (forall u h, h ∈ getUserSentTransfers w u <->
               exists tok a, TransferPublished h u tok a ∈ logs w) /\
  (forall h, timestamp (hiddenTransfer w h) <> 0 ->
             h ∈ getUserSentTransfers w (sender (hiddenTransfer w h))) /\
  sum_of list_length (userSentTransfers (storage w)) = totalTransfers (storage w).
Proof.
  unfold getUserSentTransfers.
  induction 1 as [self e fee toks He | w e c Hr IH He].
  - split; [|split].
    + intros u h. unfold sentTransfers; simpl. rewrite lookup_empty; simpl. split.
      * intros Hin. inversion Hin.
      * intros (tok & a & Hin). inversion Hin.
    + intros h. unfold hiddenTransfer; simpl. rewrite lookup_empty; simpl. congruence.
    + simpl. apply sum_of_empty.
  - exact (sent_lists_exec e c w He IH).
Qed.

Lemma sent_lists_exact_witness :
  (forall u h, h ∈ getUserSentTransfers Reentry.after u <->
               exists tok a, TransferPublished h u tok a ∈ logs Reentry.after) /\
  (forall h, timestamp (hiddenTransfer Reentry.after h) <> 0 ->
             h ∈ getUserSentTransfers Reentry.after
                   (sender (hiddenTransfer Reentry.after h))) /\
  sum_of list_length (userSentTransfers (storage Reentry.after))
  = totalTransfers (storage Reentry.after).
Proof. exact (sent_lists_exact Reentry.after after_reachable). Defined.

(** X4. In every world between transactions, whatever the tokens do
    when called, [getUserReceivedTransfers] returns for each user
    exactly the identifiers the log has a [TransferClaimed] event of
    that user for; and the lengths of all the received lists add up to
    [totalClaimed]. *)
Theorem received_lists_exact (w : World) :
  Callback.reachable w ->
  (forall u h, h ∈ getUserReceivedTransfers w u <->
               exists a, TransferClaimed h u a ∈ logs w) /\
  sum_of list_length (userReceivedTransfers (storage w)) = totalClaimed (storage w).
Proof.
  unfold getUserReceivedTransfers.
  induction 1 as [self e fee toks He | w e c Hr IH He].
  - split.
    + intros u h. unfold receivedTransfers; simpl. rewrite lookup_empty; simpl. split.
      * intros Hin. inversion Hin.
      * intros (a & Hin). inversion Hin.
    + simpl. apply sum_of_empty.
  - destruct IH as [IHm IHs].
    destruct (received_lists_exec e c w He) as [Hlisted Hsum].
    { split; [|exact IHs]. intros u h a Hin. apply IHm. eauto. }
    split; [|exact Hsum]. intros u h. split.
    + intros Hin. destruct (receipt_exec u h e c w) as [Hg Hrec].
      destruct (Hrec Hin) as [Hin0 | Hev]; [|exact Hev].
      apply IHm in Hin0 as [a Hev]. exists a. eapply elem_of_grows; eassumption.
    + intros [a Hev]. exact (Hlisted u h a Hev).
Qed.

Lemma received_lists_exact_witness :
  (forall u h, h ∈ getUserReceivedTransfers Reentry.claimed_again u <->
               exists a, TransferClaimed h u a ∈ logs Reentry.claimed_again) /\
  sum_of list_length (userReceivedTransfers (storage Reentry.claimed_again))
  = totalClaimed (storage Reentry.claimed_again).
Proof. exact (received_lists_exact Reentry.claimed_again claimed_again_reachable). Defined.

End CallbackFacts.
